(** * EPOCH1 master pack: swarm coherence and consensus engines

    A shallow embedding of [src/EpochCore_ARCPI/epoch1_master_pack.py]:
    the node matrix, [FlashSyncEngine] (entanglement graph, swarm
    coherence, cascade synchronisation), [ConsensusEngine] (weighted
    vote, phi-weighted average), [EPOCH1ASTAnalyzer] (complexity,
    maintainability, security issues, score) and the pipeline of
    [EPOCH1MasterPack] (flash sync, analysis of the target files,
    consensus, report), with the properties of the engine specification
    stated and settled against them.

    Numbers.  Python's [float] is IEEE binary64.  The engines are embedded
    over exact rationals [Q]: a finite float is read as the rational it
    denotes and [+], [*], [/] are exact, so rounding is idealised.  What
    is kept from Python is control flow: [/] raises [ZeroDivisionError] on
    a zero divisor and [**] raises [OverflowError] when the power leaves
    the binary64 range.  Behaviour that only exists in the IEEE domain
    (rounding, overflow to an infinity, NaN) is covered by the modules
    [Binary64] and [Binary64Engine], which embed [phi_weighted] and the
    coherence computation of [FlashSyncEngine] a second time over
    [spec_float]; statements that would not survive rounding are settled
    there, and statements about sums over exact rationals carry a bound
    that keeps the float sums from overflowing. *)

From Stdlib Require Import List String Ascii Bool Arith ZArith QArith Qabs Qpower Lia Lqa.
From Stdlib Require Import SpecFloat.
Import ListNotations.

Local Open Scope Q_scope.

(** ** Exceptions *)

Inductive exn : Type :=
| OverflowError
| ZeroDivisionError.

Inductive result (A : Type) : Type :=
| Ok (a : A)
| Raise (e : exn).

Arguments Ok {A} a.
Arguments Raise {A} e.

Definition bind {A B : Type} (r : result A) (k : A -> result B) : result B :=
  match r with
  | Ok a => k a
  | Raise e => Raise e
  end.

Notation "x <- c ;; k" := (bind c (fun x => k))
  (at level 61, c at next level, right associativity).
Notation "' p <- c ;; k" := (bind c (fun x => let p := x in k))
  (at level 61, p pattern, c at next level, right associativity).

(** ** Float operations, over exact rationals *)

(** [PHI = 1.618033988749895] *)
Definition PHI : Q := 1618033988749895 # 1000000000000000.

(** The literal [0.1] of [cascade_sync]. *)
Definition tenth : Q := 1 # 10.

(** [a < b] as Python evaluates it. *)
Definition Qltb (a b : Q) : bool := negb (Qle_bool b a).

(** [min(a, b)]: the builtin keeps its first argument unless a later one is
    strictly smaller. *)
Definition py_min (a b : Q) : Q := if Qltb b a then b else a.

(** Smallest magnitude that binary64 round-to-nearest sends to infinity:
    [2^1024 - 2^970], half an ulp above the largest finite double. *)
Definition overflow_threshold : Q :=
  inject_Z (2 ^ 1024 - 2 ^ 970).

(** [x ** n] for a float [x] and an [int] [n >= 0]: [float.__pow__] calls
    the C [pow] and raises [OverflowError] when the result is out of
    range. *)
Definition float_pow (x : Q) (n : nat) : result Q :=
  let p := x ^ Z.of_nat n in
  if Qle_bool overflow_threshold (Qabs p) then Raise OverflowError else Ok p.

(** [a / b]: float division raises [ZeroDivisionError] on a zero divisor. *)
Definition float_div (a b : Q) : result Q :=
  if Qeq_bool b 0 then Raise ZeroDivisionError else Ok (a / b).

(** [sum(xs)] over an already evaluated list: starts from [0] and adds from
    the left. *)
Definition py_sum (xs : list Q) : Q := fold_left Qplus xs 0.

(** [sum(g)] over a generator whose items may raise: the items are produced
    and added one at a time, the first exception aborts the sum. *)
Fixpoint sum_from (acc : Q) (g : list (result Q)) : result Q :=
  match g with
  | [] => Ok acc
  | item :: g' => x <- item ;; sum_from (acc + x) g'
  end.

Definition sum_gen (g : list (result Q)) : result Q := sum_from 0 g.

(** [enumerate(l)] *)
Definition enumerate {A : Type} (l : list A) : list (nat * A) :=
  combine (seq 0 (List.length l)) l.

(** ** Enums *)

Inductive NodeLayer : Type :=
| INFRASTRUCTURE
| APPLICATION
| INTELLIGENCE
| ORCHESTRATION
| QUANTUM.

Definition NodeLayer_eqb (a b : NodeLayer) : bool :=
  match a, b with
  | INFRASTRUCTURE, INFRASTRUCTURE
  | APPLICATION, APPLICATION
  | INTELLIGENCE, INTELLIGENCE
  | ORCHESTRATION, ORCHESTRATION
  | QUANTUM, QUANTUM => true
  | _, _ => false
  end.

Inductive SyncScale : Type :=
| MICRO
| MESO
| MACRO
| META.

(** [scale.value]: the pair (name, multiplier). *)
Definition SyncScale_value (scale : SyncScale) : string * Q :=
  match scale with
  | MICRO => ("micro"%string, 1)
  | MESO => ("meso"%string, PHI)
  | MACRO => ("macro"%string, PHI ^ 2)
  | META => ("meta"%string, PHI ^ 3)
  end.

(** Iteration order of [for scale in SyncScale]: definition order. *)
Definition SyncScale_members : list SyncScale := [MICRO; MESO; MACRO; META].

(** ** Data classes *)

Record SwarmNode : Type := mkSwarmNode {
  id : string;
  name : string;
  layer : NodeLayer;
  weight : Q;
  coherence : Q;
  entanglement : list string;
  state : list (string * string)
}.

(** The [phi_weight] property. *)
Definition phi_weight (n : SwarmNode) : Q := weight n * PHI.

Definition set_coherence (n : SwarmNode) (c : Q) : SwarmNode :=
  {| id := id n; name := name n; layer := layer n; weight := weight n;
     coherence := c; entanglement := entanglement n; state := state n |}.

Definition set_entanglement (n : SwarmNode) (l : list string) : SwarmNode :=
  {| id := id n; name := name n; layer := layer n; weight := weight n;
     coherence := coherence n; entanglement := l; state := state n |}.

(** A node as the constructor [SwarmNode(id, name, layer, weight)] makes it:
    coherence 1.0, no links, empty state. *)
Definition new_node (i nm : string) (l : NodeLayer) (w : Q) : SwarmNode :=
  {| id := i; name := nm; layer := l; weight := w;
     coherence := 1; entanglement := []; state := [] |}.

(** ** Dictionaries

    A Python [dict] keeps its keys in insertion order; assigning to a key
    that is present replaces the value and keeps the key's position. *)

Fixpoint dict_set {V : Type} (d : list (string * V)) (k : string) (v : V)
  : list (string * V) :=
  match d with
  | [] => [(k, v)]
  | (k', v') :: d' =>
      if String.eqb k' k then (k', v) :: d' else (k', v') :: dict_set d' k v
  end.

Definition keys {V : Type} (d : list (string * V)) : list string := map fst d.
Definition values {V : Type} (d : list (string * V)) : list V := map snd d.

(** [x in l] on a list of strings. *)
Definition mem (x : string) (l : list string) : bool :=
  existsb (String.eqb x) l.

(** ** FlashSyncEngine *)

Module FlashSyncEngine.

(** The engine's attributes.  [nodes] is the dict [{n.id: n for n in nodes}];
    its values are references to the caller's node objects, so the value
    stored under a key is that node in its current state. *)
Record t : Type := mk {
  nodes : list (string * SwarmNode);
  coherence_matrix : list (string * Q);
  sync_state : string
}.

Definition set_nodes (self : t) (d : list (string * SwarmNode)) : t :=
  {| nodes := d; coherence_matrix := coherence_matrix self;
     sync_state := sync_state self |}.

Definition set_sync_state (self : t) (s : string) : t :=
  {| nodes := nodes self; coherence_matrix := coherence_matrix self;
     sync_state := s |}.

(** [{n.id: n for n in nodes}] *)
Definition nodes_dict (ns : list SwarmNode) : list (string * SwarmNode) :=
  fold_left (fun d n => dict_set d (id n) n) ns [].

(** The two [append]s of ring adjacency, for the node at index [i].  Both
    subscripts are in range when their guard holds. *)
Definition ring_links (node_ids : list string) (i : nat) (ent : list string)
  : list string :=
  let ent1 :=
    if (0 <? Z.of_nat i)%Z then ent ++ [nth (i - 1) node_ids ""%string] else ent in
  if (Z.of_nat i <? Z.of_nat (List.length node_ids) - 1)%Z
  then ent1 ++ [nth (i + 1) node_ids ""%string]
  else ent1.

(** The inner loop over [self.nodes.items()] for a quantum [node]. *)
Definition clique_links (items : list (string * SwarmNode)) (node : SwarmNode)
    (ent : list string) : list string :=
  fold_left
    (fun ent (item : string * SwarmNode) =>
       let (other_id, other) := item in
       if NodeLayer_eqb (layer other) QUANTUM && negb (String.eqb other_id (id node))
       then if negb (mem other_id ent) then ent ++ [other_id] else ent
       else ent)
    items ent.

(** The body of the outer loop: what one iteration does to [node]. *)
Definition entangle (items : list (string * SwarmNode)) (node_ids : list string)
    (i : nat) (node : SwarmNode) : SwarmNode :=
  let ent := ring_links node_ids i (entanglement node) in
  let ent :=
    if NodeLayer_eqb (layer node) QUANTUM then clique_links items node ent
    else ent in
  set_entanglement node ent.

(** [_build_entanglement].  Every iteration writes only the entanglement
    list of its own node and reads, of the other nodes, only key and layer,
    which no iteration changes; so the loop is a map over the dict. *)
Definition _build_entanglement (self : t) : t :=
  let node_ids := keys (nodes self) in
  set_nodes self
    (map (fun p : nat * (string * SwarmNode) =>
            let '(i, (k, node)) := p in
            (k, entangle (nodes self) node_ids i node))
         (enumerate (nodes self))).

(** [__init__] *)
Definition __init__ (ns : list SwarmNode) : t :=
  _build_entanglement
    {| nodes := nodes_dict ns; coherence_matrix := []; sync_state := "idle" |}.

(** [calculate_coherence] *)
Definition calculate_coherence (self : t) : result Q :=
  let total :=
    py_sum (map (fun n => coherence n * phi_weight n) (values (nodes self))) in
  let max_possible := py_sum (map phi_weight (values (nodes self))) in
  if Qltb 0 max_possible then float_div total max_possible else Ok 0.

(** The assignment in the loop of [cascade_sync]. *)
Definition sync_node (multiplier : Q) (node : SwarmNode) : SwarmNode :=
  set_coherence node (py_min 1 (coherence node * (1 + tenth * multiplier))).

(** [cascade_sync], run to completion by a single caller.  The [print] and
    the [await asyncio.sleep(0.01)] after each node have no effect on the
    engine and are left out here; the suspension points are modelled by
    [resume] below. *)
Definition cascade_sync (self : t) (scale : SyncScale) : result (t * Q) :=
  let '(scale_name, multiplier) := SyncScale_value scale in
  let self := set_sync_state self ("syncing_" ++ scale_name) in
  let self :=
    set_nodes self
      (map (fun item : string * SwarmNode =>
              (fst item, sync_node multiplier (snd item)))
           (nodes self)) in
  coherence <- calculate_coherence self ;;
  let self := set_sync_state self "idle" in
  Ok (self, coherence).

(** The loop of [full_flash_sync] over the remaining [scales]. *)
Fixpoint sync_scales (self : t) (results : list (string * Q))
    (scales : list SyncScale) : result (t * list (string * Q)) :=
  match scales with
  | [] => Ok (self, results)
  | scale :: scales' =>
      r <- cascade_sync self scale ;;
      let '(self1, coherence) := r in
      sync_scales self1 (dict_set results (fst (SyncScale_value scale)) coherence)
        scales'
  end.

(** [full_flash_sync] *)
Definition full_flash_sync (self : t) : result (t * list (string * Q)) :=
  r <- sync_scales self [] SyncScale_members ;;
  let '(self1, results) := r in
  final_coherence <- calculate_coherence self1 ;;
  Ok (self1, results).

(** *** Suspension points

    [cascade_sync] is a coroutine: it runs until [await asyncio.sleep] hands
    control back to the event loop, and goes on when the loop resumes it.
    A task is a call of [cascade_sync] together with where it stands. *)
Inductive task : Type :=
| Called (scale : SyncScale)
    (** created, body not yet entered *)
| Sleeping (scale : SyncScale) (next : nat)
    (** suspended in the loop; [next] is the index of the node the dict
        iterator yields next *)
| Returned (r : result Q).

(** Replace the value at index [i] of the dict. *)
Fixpoint update_at (i : nat) (f : SwarmNode -> SwarmNode)
    (d : list (string * SwarmNode)) : list (string * SwarmNode) :=
  match d, i with
  | [], _ => []
  | (k, n) :: d', O => (k, f n) :: d'
  | kn :: d', S i' => kn :: update_at i' f d'
  end.

(** From the head of the loop with the iterator at index [i]: either the
    loop is over and the coroutine finishes, or it updates one node and
    suspends. *)
Definition loop_from (self : t) (scale : SyncScale) (i : nat) : t * task :=
  if (i <? List.length (nodes self))%nat then
    (set_nodes self
       (update_at i (sync_node (snd (SyncScale_value scale))) (nodes self)),
     Sleeping scale (S i))
  else
    match calculate_coherence self with
    | Ok coherence => (set_sync_state self "idle", Returned (Ok coherence))
    | Raise e => (self, Returned (Raise e))
    end.

(** The event loop runs task [k] up to its next suspension. *)
Definition resume (self : t) (k : task) : t * task :=
  match k with
  | Called scale =>
      loop_from (set_sync_state self ("syncing_" ++ fst (SyncScale_value scale)))
        scale 0
  | Sleeping scale i => loop_from self scale i
  | Returned r => (self, Returned r)
  end.

(** A task run alone for [fuel] resumptions. *)
Fixpoint run_alone (fuel : nat) (self : t) (k : task) : t * task :=
  match fuel with
  | O => (self, k)
  | S fuel' => let '(self1, k1) := resume self k in run_alone fuel' self1 k1
  end.

(** Two tasks on one engine; the schedule says which of them the event loop
    resumes next ([false]: the first, [true]: the second). *)
Fixpoint run_pair (schedule : list bool) (self : t) (k1 k2 : task)
  : t * task * task :=
  match schedule with
  | [] => (self, k1, k2)
  | false :: schedule' =>
      let '(self1, k1') := resume self k1 in run_pair schedule' self1 k1' k2
  | true :: schedule' =>
      let '(self1, k2') := resume self k2 in run_pair schedule' self1 k1 k2'
  end.

End FlashSyncEngine.

(** ** ConsensusEngine *)

Module ConsensusEngine.

Record t : Type := mk { nodes : list SwarmNode }.

(** The dict returned by [quantum_vote]. *)
Record vote_result : Type := mk_vote {
  approved : bool;
  yes_weight : Q;
  no_weight : Q;
  algorithm : string
}.

Section QuantumVote.

(** The builtin [hash] on strings: salted per process, fixed within one. *)
Variable hash : string -> Z.

(** The list [votes]; [proposal] stands for [str(proposal)]. *)
Definition cast_votes (self : t) (proposal : string) : list (bool * Q) :=
  map (fun node =>
         let vote := (hash (proposal ++ id node) mod 2 =? 0)%Z in
         let weight :=
           if NodeLayer_eqb (layer node) QUANTUM then phi_weight node
           else weight node in
         (vote, weight))
      (nodes self).

(** [quantum_vote] *)
Definition quantum_vote (self : t) (proposal : string) : vote_result :=
  let votes := cast_votes self proposal in
  let yes_weight := py_sum (map snd (filter (fun vw => fst vw) votes)) in
  let no_weight := py_sum (map snd (filter (fun vw => negb (fst vw)) votes)) in
  {| approved := Qltb no_weight yes_weight;
     yes_weight := yes_weight;
     no_weight := no_weight;
     algorithm := "quantum_vote" |}.

End QuantumVote.

(** [phi_weighted]; the method does not read [self]. *)
Definition phi_weighted (values : list Q) : result Q :=
  total <- sum_gen (map (fun iv : nat * Q =>
                           p <- float_pow PHI (fst iv) ;; Ok (snd iv * p))
                        (enumerate values)) ;;
  weights <- sum_gen (map (fun i => float_pow PHI i)
                        (seq 0 (List.length values))) ;;
  if Qltb 0 weights then float_div total weights else Ok 0.

End ConsensusEngine.

(** ** The IEEE binary64 view of [phi_weighted]

    Floats as [spec_float] with the binary64 parameters, arithmetic by the
    library's [SFadd], [SFmul], [SFdiv] (round to nearest even).  This is
    the domain in which NaN and the infinities exist. *)

Module Binary64.

Definition float : Type := spec_float.

Definition prec : Z := 53.
Definition emax : Z := 1024.

Definition add : float -> float -> float := SFadd prec emax.
Definition mul : float -> float -> float := SFmul prec emax.
Definition div : float -> float -> float := SFdiv prec emax.
Definition ltb : float -> float -> bool := SFltb.
Definition eqb : float -> float -> bool := SFeqb.

(** [0.0]; also what the [int] [0] becomes when a float is added to it. *)
Definition zero : float := S754_zero false.

(** [1.0] *)
Definition one : float := S754_finite false 4503599627370496 (-52).

(** [PHI = 1.618033988749895], that is [0x1.9e3779b97f4a8p+0]. *)
Definition PHI : float := S754_finite false 7286977268806824 (-52).

Definition nan : float := S754_nan.
Definition infinity : float := S754_infinity false.

(** [math.isfinite] negated: NaN or an infinity. *)
Definition is_nonfinite (x : float) : bool :=
  match x with
  | S754_nan | S754_infinity _ => true
  | _ => false
  end.

(** [z ** n] on integers. *)
Fixpoint Zpow_nat (z : Z) (n : nat) : Z :=
  match n with
  | O => 1
  | S n' => z * Zpow_nat z n'
  end.

(** [x ** n] for an [int] [n >= 0].  [float.__pow__] answers [1.0] for a zero
    exponent, passes NaN, infinities and zeros through, and otherwise calls
    the C [pow], read here as the exact power rounded once; a finite base
    whose power rounds to an infinity raises [OverflowError]. *)
Definition float_pow (x : float) (n : nat) : result float :=
  match n with
  | O => Ok one
  | S _ =>
      match x with
      | S754_nan => Ok S754_nan
      | S754_infinity s => Ok (S754_infinity (s && Nat.odd n))
      | S754_zero s => Ok (S754_zero (s && Nat.odd n))
      | S754_finite s m e =>
          match binary_normalize prec emax
                  (Zpow_nat (cond_Zopp s (Zpos m)) n) (e * Z.of_nat n) false with
          | S754_infinity _ => Raise OverflowError
          | r => Ok r
          end
      end
  end.

(** [a / b] *)
Definition float_div (a b : float) : result float :=
  if eqb b zero then Raise ZeroDivisionError else Ok (div a b).

Fixpoint sum_from (acc : float) (g : list (result float)) : result float :=
  match g with
  | [] => Ok acc
  | item :: g' => x <- item ;; sum_from (add acc x) g'
  end.

Definition sum_gen (g : list (result float)) : result float := sum_from zero g.

(** [phi_weighted] *)
Definition phi_weighted (values : list float) : result float :=
  total <- sum_gen (map (fun iv : nat * float =>
                           p <- float_pow PHI (fst iv) ;; Ok (mul (snd iv) p))
                        (enumerate values)) ;;
  weights <- sum_gen (map (fun i => float_pow PHI i)
                        (seq 0 (List.length values))) ;;
  if ltb zero weights then float_div total weights else Ok zero.

End Binary64.

(** ** The powers of [PHI] in binary64 *)

(** The mantissa of [Binary64.PHI]; its exponent is [-52]. *)
Definition PHI_mantissa : Z := 7286977268806824.

(** The rational that [Binary64.PHI] denotes: [PHI_mantissa / 2^52]. *)
Definition PHI_value : Q := 7286977268806824 # 4503599627370496.

(** The number of binary digits of a mantissa. *)
Definition D (p : positive) : Z := Zpos (digits2_pos p).

(** A normal double that is at least 1, or the positive infinity. *)
Definition normal_ge_1 (x : Binary64.float) : Prop :=
  x = S754_infinity false
  \/ exists m e, x = S754_finite false m e /\ D m = 53%Z /\ (-52 <= e)%Z.

(** The value of [PHI ** i] where it is in range. *)
Definition pw (i : nat) : Binary64.float :=
  match Binary64.float_pow Binary64.PHI i with
  | Ok p => p
  | Raise _ => Binary64.nan
  end.

(** Exponents below [n] are in range, exponent [n] overflows, and the
    weights of up to [n] scores sum to something strictly positive. *)
Definition powers_facts (n : nat) : Prop :=
  (forall j, (j < n)%nat -> Binary64.float_pow Binary64.PHI j = Ok (pw j))
  /\ Binary64.float_pow Binary64.PHI n = Raise OverflowError
  /\ (forall k, (k <= n)%nat ->
       exists wk,
         Binary64.sum_gen (map (fun j => Binary64.float_pow Binary64.PHI j) (seq 0 k))
         = Ok wk
         /\ ((0 < k)%nat -> Binary64.ltb Binary64.zero wk = true)).

(** ** The specification's formulas

    Written from the words of the specification, to be compared with the
    embedded code. *)

(** [Σ] over a list. *)
Fixpoint Qsum (xs : list Q) : Q :=
  match xs with
  | [] => 0
  | x :: xs' => x + Qsum xs'
  end.

(** [Σ f(i)] for [i] in [[0, n)]. *)
Fixpoint big_sum (f : nat -> Q) (n : nat) : Q :=
  match n with
  | O => 0
  | S n' => big_sum f n' + f n'
  end.

(** [derivedWeight = weight × φ] *)
Definition derivedWeight (n : SwarmNode) : Q := weight n * PHI.

(** [Σ(node.coherence × node.derivedWeight)] and [Σ(node.derivedWeight)] *)
Definition coherence_numerator (ns : list SwarmNode) : Q :=
  Qsum (map (fun n => coherence n * derivedWeight n) ns).
Definition coherence_denominator (ns : list SwarmNode) : Q :=
  Qsum (map derivedWeight ns).

(** Ring adjacency, rule 1: position [i-1] if [i > 0], position [i+1] if
    [i < length - 1]. *)
Definition ring_neighbors (n i : nat) : list nat :=
  (if (0 <? i)%nat then [(i - 1)%nat] else [])
  ++ (if (i + 1 <? n)%nat then [(i + 1)%nat] else []).

(** Categorical clique, rule 2: for a quantum node, the positions of all
    other quantum nodes. *)
Definition quantum_clique (ns : list SwarmNode) (i : nat) : list nat :=
  match nth_error ns i with
  | Some n =>
      if NodeLayer_eqb (layer n) QUANTUM then
        filter (fun j =>
                  negb (j =? i)%nat
                  && match nth_error ns j with
                     | Some o => NodeLayer_eqb (layer o) QUANTUM
                     | None => false
                     end)
               (seq 0 (List.length ns))
      else []
  | None => []
  end.

(** A vote's weight: [derivedWeight] for a quantum node, plain [weight]
    otherwise. *)
Definition vote_weight (n : SwarmNode) : Q :=
  match layer n with
  | QUANTUM => derivedWeight n
  | _ => weight n
  end.

(** A dict as [__init__] builds it: distinct keys, each the id of its
    node. *)
Definition well_keyed (d : list (string * SwarmNode)) : Prop :=
  NoDup (keys d) /\ Forall (fun item => fst item = id (snd item)) d.

(** ** Reading the graph *)

(** The entanglement list of the node at position [i] of the engine. *)
Definition entanglement_at (e : FlashSyncEngine.t) (i : nat) : list string :=
  match nth_error (FlashSyncEngine.nodes e) i with
  | Some item => entanglement (snd item)
  | None => []
  end.

(** The identity of the node at position [j] of a matrix. *)
Definition id_at (ns : list SwarmNode) (j : nat) : option string :=
  option_map id (nth_error ns j).

(** The identities that ring adjacency appends for position [i]. *)
Definition ring_ids (node_ids : list string) (i : nat) : list string :=
  (if (0 <? i)%nat then [nth (i - 1) node_ids ""%string] else [])
  ++ (if (i + 1 <? List.length node_ids)%nat
      then [nth (i + 1) node_ids ""%string] else []).

(** [x] is the key of a quantum node of the dict other than [self_id]. *)
Definition quantum_other (items : list (string * SwarmNode))
    (self_id x : string) : Prop :=
  x <> self_id /\ In (x, QUANTUM) (map (fun item => (fst item, layer (snd item))) items).

(** The construction run again on the same matrix: a second engine made
    from the node objects of the first, in the state the first construction
    left them in. *)
Definition rerun (e : FlashSyncEngine.t) : FlashSyncEngine.t :=
  FlashSyncEngine.__init__ (values (FlashSyncEngine.nodes e)).

(** ** The claims that the code does not meet, as they are worded *)




(** Entanglement graph builder: rerunning the construction yields the same
    adjacency sets, and after a construction no node's entanglement holds a
    duplicate. *)
Definition entanglement_contract (ns : list SwarmNode) : Prop :=
  let first := FlashSyncEngine.__init__ ns in
  let second := rerun first in
  (forall i x, In x (entanglement_at second i) <-> In x (entanglement_at first i))
  /\ (forall i, NoDup (entanglement_at first i))
  /\ (forall i, NoDup (entanglement_at second i)).

(** Domain errors: a score sequence holding a NaN or an infinity is
    rejected with an error instead of being aggregated. *)
Definition rejects_nonfinite_contract (v : list Binary64.float) : Prop :=
  Exists (fun x => Binary64.is_nonfinite x = true) v ->
  exists e, Binary64.phi_weighted v = Raise e.

(** Single-writer rule: a second [cascade_sync] started while a first one is
    suspended mid-stage is either rejected (an error comes back and the
    engine is untouched) or serialised (it leaves the nodes alone while
    the first is mid-stage). *)
Definition single_writer_contract (e : FlashSyncEngine.t) (first second : SyncScale)
  : Prop :=
  forall e1 i,
    FlashSyncEngine.resume e (FlashSyncEngine.Called first)
    = (e1, FlashSyncEngine.Sleeping first i) ->
    (exists err,
        FlashSyncEngine.resume e1 (FlashSyncEngine.Called second)
        = (e1, FlashSyncEngine.Returned (Raise err)))
    \/ FlashSyncEngine.nodes
         (fst (FlashSyncEngine.resume e1 (FlashSyncEngine.Called second)))
       = FlashSyncEngine.nodes e1.

(** ** Sample matrices *)

(** Three nodes at coherence 1, 1/2 and 0. *)
Definition matrix_three : list SwarmNode :=
  [new_node "A" "Analyzer" INTELLIGENCE 1;
   set_coherence (new_node "B" "Builder" INFRASTRUCTURE (95 # 100)) (1 # 2);
   set_coherence (new_node "Q" "Quantizer" QUANTUM (1618 # 1000)) 0].


(** Two nodes of weight 1, both at coherence 1/2. *)
Definition matrix_half : list SwarmNode :=
  [set_coherence (new_node "A" "Analyzer" INTELLIGENCE 1) (1 # 2);
   set_coherence (new_node "B" "Builder" INFRASTRUCTURE 1) (1 # 2)].

(** The three-node matrix of the specification's end-to-end example. *)
Definition matrix_example : list SwarmNode :=
  [new_node "A" "A" INFRASTRUCTURE 1;
   new_node "B" "B" QUANTUM 1;
   new_node "C" "C" QUANTUM 1].


(** ** Derived quantities *)


(** ** The Python runtime

    What the analyzer and the pipeline take from the standard library and
    the file system.  Nothing is assumed of these functions: every property
    below holds whatever they answer. *)

Class Runtime : Type := {
  (** [len(re.findall(pattern, content))] *)
  findall : string -> string -> nat;
  (** [re.search(pattern, content, re.IGNORECASE)] found a match *)
  search : string -> string -> bool;
  (** [math.log2] and [math.log] *)
  log2 : Q -> Q;
  log : Q -> Q;
  (** [round(x, 2)] *)
  round2 : Q -> Q;
  (** [list(root.glob(pattern))], each path as [str(file_path)] *)
  glob : string -> string -> list string;
  (** [file_path.read_text(encoding='utf-8', errors='ignore')]; [None] when
      the call raises *)
  read_text : string -> option string
}.

(** [max(a, b)]: the builtin keeps its first argument unless a later one is
    strictly larger. *)
Definition py_max (a b : Q) : Q := if Qltb a b then b else a.

(** [a / b] on two [int]s: true division. *)
Definition int_truediv (a b : Z) : result Q :=
  if (b =? 0)%Z then Raise ZeroDivisionError else Ok (inject_Z a / inject_Z b).

(** [sum] over [int]s. *)
Definition py_sum_int (xs : list Z) : Z := fold_left Z.add xs 0%Z.

(** [content.split('\n')] *)
Fixpoint split_newline (s : string) : list string :=
  match s with
  | EmptyString => [EmptyString]
  | String c s' =>
      if Ascii.eqb c "010"%char then EmptyString :: split_newline s'
      else match split_newline s' with
           | line :: lines => String c line :: lines
           | [] => [String c EmptyString]
           end
  end.

(** [sub in s] on strings. *)
Fixpoint contains (sub s : string) : bool :=
  String.prefix sub s
  || match s with
     | EmptyString => false
     | String _ s' => contains sub s'
     end.

(** The character that delimits a Python string in the two secret patterns. *)
Definition double_quote : string := String (ascii_of_nat 34) EmptyString.

(** ** AnalysisResult *)

(** An entry of [issues]: the dict with the keys severity, type, message. *)
Record issue : Type := mk_issue {
  severity : string;
  type_ : string;
  message : string
}.

Record AnalysisResult : Type := mkAnalysisResult {
  file_path : string;
  score : Z;
  complexity : Z;
  maintainability : Q;
  issues : list issue;
  suggestions : list string
}.

(** ** SWARM_MATRIX *)

Definition SWARM_MATRIX : list SwarmNode :=
  [ new_node "A" "Analyzer" INTELLIGENCE 1;
    new_node "B" "Builder" INFRASTRUCTURE (95 # 100);
    new_node "C" "Coordinator" ORCHESTRATION (11 # 10);
    new_node "D" "Detector" INTELLIGENCE (9 # 10);
    new_node "E" "Executor" INFRASTRUCTURE 1;
    new_node "F" "Formatter" APPLICATION (85 # 100);
    new_node "G" "Generator" APPLICATION (9 # 10);
    new_node "H" "Handler" INFRASTRUCTURE (95 # 100);
    new_node "I" "Indexer" INTELLIGENCE (88 # 100);
    new_node "J" "Joiner" ORCHESTRATION (92 # 100);
    new_node "K" "Keeper" INFRASTRUCTURE (87 # 100);
    new_node "L" "Loader" INFRASTRUCTURE (9 # 10);
    new_node "M" "Monitor" INTELLIGENCE (105 # 100);
    new_node "N" "Normalizer" APPLICATION (82 # 100);
    new_node "O" "Optimizer" INTELLIGENCE (115 # 100);
    new_node "P" "Parser" APPLICATION (95 # 100);
    new_node "Q" "Quantizer" QUANTUM (1618 # 1000);
    new_node "R" "Router" ORCHESTRATION (108 # 100);
    new_node "S" "Scheduler" ORCHESTRATION (102 # 100);
    new_node "T" "Transformer" APPLICATION (98 # 100);
    new_node "U" "Unifier" ORCHESTRATION (96 # 100);
    new_node "V" "Validator" INTELLIGENCE (112 # 100);
    new_node "W" "Watcher" INFRASTRUCTURE (91 # 100);
    new_node "X" "Executor" QUANTUM (125 # 100);
    new_node "Y" "Yielder" APPLICATION (84 # 100);
    new_node "Z" "Zenith" QUANTUM (1618 # 1000) ].

(** ** EPOCH1ASTAnalyzer *)

Module EPOCH1ASTAnalyzer.

Record config_t : Type := mk_config {
  max_file_size : Z;
  analysis_depth : string;
  quality_threshold : Z
}.

Record metrics_t : Type := mk_metrics {
  files_analyzed : Z;
  issues_found : Z;
  quality_score : Z
}.

Record t : Type := mk {
  config : config_t;
  metrics : metrics_t
}.

(** [__init__]; [None] stands for the default argument. *)
Definition __init__ (config : option config_t) : t :=
  {| config :=
       match config with
       | Some c => c
       | None => {| max_file_size := 100000; analysis_depth := "deep";
                    quality_threshold := 70 |}
       end;
     metrics := {| files_analyzed := 0; issues_found := 0;
                   quality_score := 100 |} |}.

(** The list [patterns] of [calculate_complexity]. *)
Definition complexity_patterns : list string :=
  [ "\bif\b"; "\belse\b"; "\bwhile\b"; "\bfor\b";
    "\bswitch\b"; "\bcase\b"; "\bcatch\b"; "\bexcept\b";
    "\?\s*[^:]+\s*:"; "&&"; "\|\|"; "\band\b"; "\bor\b" ]%string.

(** The list [patterns] of [analyze_security]: pattern, severity, message. *)
Definition security_patterns : list (string * string * string) :=
  [ ("eval\s*\(", "critical", "eval() usage detected - security risk");
    ("innerHTML\s*=", "warning", "innerHTML assignment - XSS risk");
    ("document\.write", "warning", "document.write usage - security risk");
    ("exec\s*\(|spawn\s*\(", "warning", "Command execution detected");
    ("password\s*=\s*[" ++ double_quote ++ "\'][^" ++ double_quote
       ++ "\']+[" ++ double_quote ++ "\']",
     "critical", "Hardcoded password detected");
    ("api[_-]?key\s*=\s*[" ++ double_quote ++ "\'][^" ++ double_quote
       ++ "\']+[" ++ double_quote ++ "\']",
     "critical", "Hardcoded API key detected") ]%string.

Section Methods.

Context {runtime : Runtime}.

(** [calculate_complexity]; the method does not read [self]. *)
Definition calculate_complexity (content : string) : Z :=
  fold_left
    (fun complexity pattern => (complexity + Z.of_nat (findall pattern content))%Z)
    complexity_patterns 1%Z.

(** [calculate_maintainability]; the method does not read [self]. *)
Definition calculate_maintainability (content : string) (complexity : Z) : Q :=
  let lines := split_newline content in
  let loc := Z.of_nat (List.length lines) in
  let operators := Z.of_nat (findall "[+\-*/%=<>!&|^~]" content) in
  let operands := Z.of_nat (findall "\b\w+\b" content) in
  let volume :=
    inject_Z (operators + operands)
    * log2 (inject_Z (Z.max 1 (operators + operands))) in
  let mi :=
    171 - (52 # 10) * log (py_max 1 volume) - (23 # 100) * inject_Z complexity
    - (162 # 10) * log (inject_Z (Z.max 1 loc)) in
  py_max 0 (py_min 100 mi).

(** [analyze_security]; the method does not read [self]. *)
Definition analyze_security (content : string) : list issue :=
  fold_left
    (fun issues (entry : string * string * string) =>
       let '(pattern, severity, message) := entry in
       if search pattern content
       then issues ++ [ {| severity := severity; type_ := "security";
                           message := message |} ]
       else issues)
    security_patterns [].

(** [analyze]: the result and the analyzer with its counters advanced. *)
Definition analyze (self : t) (content file_path : string) : AnalysisResult * t :=
  let complexity := calculate_complexity content in
  let maintainability := calculate_maintainability content complexity in
  let security_issues := analyze_security content in
  let score := 100%Z in
  let score := (score - Z.min 20 (Z.max 0 (complexity - 10)))%Z in
  let score :=
    (score
     - Z.of_nat (List.length
                   (filter (fun i => String.eqb (severity i) "critical")
                      security_issues)) * 15)%Z in
  let score :=
    (score
     - Z.of_nat (List.length
                   (filter (fun i => String.eqb (severity i) "warning")
                      security_issues)) * 5)%Z in
  let self :=
    {| config := config self;
       metrics :=
         {| files_analyzed := files_analyzed (metrics self) + 1;
            issues_found :=
              issues_found (metrics self) + Z.of_nat (List.length security_issues);
            quality_score := quality_score (metrics self) |} |} in
  ({| file_path := file_path;
      score := Z.max 0 score;
      complexity := complexity;
      maintainability := round2 maintainability;
      issues := security_issues;
      suggestions := [] |},
   self).

End Methods.

End EPOCH1ASTAnalyzer.

(** ** EPOCH1MasterPack *)

Module EPOCH1MasterPack.

(** An entry of the report's [details]. *)
Module Detail.

Record t : Type := mk {
  file : string;
  score : Z;
  complexity : Z;
  maintainability : Q;
  issues : list issue
}.

End Detail.

(** The report of [generate_report], without the keys that are constants
    or the clock (timestamp, version, quantum_seal, phi_constant,
    resonance_hz) and without the serialised node list. *)
Record sync_section : Type := mk_sync {
  results : list (string * Q);
  final_coherence : Q
}.

Record analysis_section : Type := mk_analysis {
  files_analyzed : Z;
  total_issues : Z;
  average_score : Q;
  details : list Detail.t
}.

Record report : Type := mk_report {
  sync : sync_section;
  analysis : analysis_section;
  node_count : Z
}.

(** The pack's attributes.  [consensus] holds the list [SWARM_MATRIX]
    itself, the node objects of [swarm], and none of its methods is reached
    from [execute] but [phi_weighted], which reads no attribute; it has no
    field of its own here. *)
Record t : Type := mk {
  root : string;
  analyzer : EPOCH1ASTAnalyzer.t;
  swarm : FlashSyncEngine.t;
  initialized : bool
}.

Definition consensus (self : t) : ConsensusEngine.t :=
  {| ConsensusEngine.nodes := values (FlashSyncEngine.nodes (swarm self)) |}.

(** [__init__] *)
Definition __init__ (root_path : string) : t :=
  {| root := root_path;
     analyzer := EPOCH1ASTAnalyzer.__init__ None;
     swarm := FlashSyncEngine.__init__ SWARM_MATRIX;
     initialized := false |}.

(** [initialize]: apart from printing, sets the flag. *)
Definition initialize (self : t) : t :=
  {| root := root self; analyzer := analyzer self; swarm := swarm self;
     initialized := true |}.

Section Pipeline.

Context {runtime : Runtime}.

(** The loop of phase 2 over [target_files], appending to
    [analysis_results].  A file whose [read_text] raises is reported and
    skipped by the [except] clause. *)
Definition analyze_files (a : EPOCH1ASTAnalyzer.t) (target_files : list string)
    (analysis_results : list AnalysisResult)
  : EPOCH1ASTAnalyzer.t * list AnalysisResult :=
  fold_left
    (fun (acc : EPOCH1ASTAnalyzer.t * list AnalysisResult) file_path =>
       let '(a, analysis_results) := acc in
       if contains "__pycache__" file_path || contains "node_modules" file_path
       then acc
       else
         match read_text file_path with
         | Some content =>
             let '(result, a) := EPOCH1ASTAnalyzer.analyze a content file_path in
             (a, analysis_results ++ [result])
         | None => acc
         end)
    target_files (a, analysis_results).

(** Phase 3: the consensus score, when one is computed. *)
Definition consensus_phase (analysis_results : list AnalysisResult)
  : result (option Q) :=
  match analysis_results with
  | [] => Ok None
  | _ :: _ =>
      let scores := map (fun r => inject_Z (score r)) analysis_results in
      consensus_score <- ConsensusEngine.phi_weighted scores ;;
      Ok (Some consensus_score)
  end.

(** [generate_report] *)
Definition generate_report (self : t) (sync_results : list (string * Q))
    (analysis_results : list AnalysisResult) : result report :=
  final_coherence <- FlashSyncEngine.calculate_coherence (swarm self) ;;
  average_score <-
    match analysis_results with
    | [] => Ok 0
    | _ :: _ =>
        int_truediv (py_sum_int (map score analysis_results))
          (Z.of_nat (List.length analysis_results))
    end ;;
  Ok {| sync := {| results := sync_results; final_coherence := final_coherence |};
        analysis :=
          {| files_analyzed := Z.of_nat (List.length analysis_results);
             total_issues :=
               py_sum_int
                 (map (fun r => Z.of_nat (List.length (issues r))) analysis_results);
             average_score := average_score;
             details :=
               map (fun r =>
                      {| Detail.file := file_path r;
                         Detail.score := score r;
                         Detail.complexity := complexity r;
                         Detail.maintainability := maintainability r;
                         Detail.issues := issues r |})
                   analysis_results |};
        node_count := Z.of_nat (List.length SWARM_MATRIX) |}.

(** [execute]: the report and the pack as it is left.  Printing and the
    writing of the report file are left out. *)
Definition execute (self : t) : result (report * t) :=
  let self := if initialized self then self else initialize self in
  r <- FlashSyncEngine.full_flash_sync (swarm self) ;;
  let '(swarm1, sync_results) := r in
  let self :=
    {| root := root self; analyzer := analyzer self; swarm := swarm1;
       initialized := initialized self |} in
  let py_files := glob (root self) "**/*.py" in
  let js_files := glob (root self) "**/*.js" in
  let target_files := firstn 10 (py_files ++ js_files) in
  let '(analyzer1, analysis_results) :=
    analyze_files (analyzer self) target_files [] in
  let self :=
    {| root := root self; analyzer := analyzer1; swarm := swarm self;
       initialized := initialized self |} in
  consensus_score <- consensus_phase analysis_results ;;
  report <- generate_report self sync_results analysis_results ;;
  Ok (report, self).

End Pipeline.

End EPOCH1MasterPack.

(** ** The analyzer's tables, read as data *)

(** The issue a row of [security_patterns] stands for. *)
Definition issue_of (entry : string * string * string) : issue :=
  {| severity := snd (fst entry); type_ := "security"; message := snd entry |}.

Definition is_critical (i : issue) : bool := String.eqb (severity i) "critical".
Definition is_warning (i : issue) : bool := String.eqb (severity i) "warning".

(** The paths phase 2 passes over. *)
Definition skipped (file_path : string) : bool :=
  contains "__pycache__" file_path || contains "node_modules" file_path.


(** A runtime for examples: one source file beside a cached copy of it, the
    regular expressions finding nothing. *)
Definition runtime_example : Runtime :=
  {| findall := fun _ _ => 0%nat;
     search := fun _ _ => false;
     log2 := fun x => x;
     log := fun x => x;
     round2 := fun x => x;
     glob := fun _ pattern =>
               if String.eqb pattern "**/*.py"
               then ["main.py"; "__pycache__/main.py"]%string
               else [];
     read_text := fun _ => Some "x = 1"%string |}.


(** ** Overlapping cascades, node by node *)









(** ** The double range *)

(** A total well inside the binary64 range, [2^1000].  The exact sums of
    this embedding cannot overflow; the float sums of the code cannot either
    when their terms are non-negative and add up to at most this much, and
    statements about sums carry the bound for that reason. *)
Definition safe_total : Q := inject_Z (2 ^ 1000).


(** Ring adjacency and quantum clique, as worded: for a matrix with unique
    identities, after one construction the identities a node is linked to
    are exactly those of its ring neighbours and of its quantum clique. *)
Definition ring_and_clique_contract (ns : list SwarmNode) : Prop :=
  NoDup (map id ns) ->
  forall i x,
    (i < List.length ns)%nat ->
    In x (entanglement_at (FlashSyncEngine.__init__ ns) i)
    <-> exists j,
          (In j (ring_neighbors (List.length ns) i) \/ In j (quantum_clique ns i))
          /\ id_at ns j = Some x.

(** Two nodes with distinct ids, the first of which has been part of
    another engine and still carries the link to a node Z it got there. *)
Definition matrix_reused : list SwarmNode :=
  [set_entanglement (new_node "A" "Analyzer" INTELLIGENCE 1) ["Z"%string];
   new_node "B" "Builder" INFRASTRUCTURE 1].



(** ** FlashSyncEngine over IEEE binary64

    The coherence computation once more, on the floats the interpreter
    holds: every [+], [*] and [/] rounds to nearest even, sums can overflow
    to an infinity and propagate NaN.  Statements that depend on how the
    two sums of [calculate_coherence] are rounded are settled here. *)

Module Binary64Engine.

Import Binary64.

(** A float the interpreter can hold: NaN, an infinity, a zero or a
    canonical finite double. *)
Definition valid (x : float) : Prop := valid_binary prec emax x = true.

Record SwarmNode : Type := mkSwarmNode {
  id : string;
  name : string;
  layer : NodeLayer;
  weight : float;
  coherence : float;
  entanglement : list string;
  state : list (string * string)
}.

(** The [phi_weight] property. *)
Definition phi_weight (n : SwarmNode) : float := mul (weight n) PHI.

Definition set_coherence (n : SwarmNode) (c : float) : SwarmNode :=
  {| id := id n; name := name n; layer := layer n; weight := weight n;
     coherence := c; entanglement := entanglement n; state := state n |}.

(** [SwarmNode(id, name, layer, weight)]: coherence [1.0]. *)
Definition new_node (i nm : string) (l : NodeLayer) (w : float) : SwarmNode :=
  {| id := i; name := nm; layer := l; weight := w;
     coherence := one; entanglement := []; state := [] |}.

(** [sum(xs)]: starts from [0] and adds from the left. *)
Definition py_sum (xs : list float) : float := fold_left add xs zero.

(** [min(a, b)] *)
Definition py_min (a b : float) : float := if ltb b a then b else a.

(** The literal [0.1], that is [0x1.999999999999ap-4]. *)
Definition tenth : float := S754_finite false 7205759403792794 (-56).

(** [scale.value[1]]; [PHI ** 2] and [PHI ** 3] are evaluated when the
    class is defined, to [0x1.4f1bbcdcbfa54p+1] and [0x1.0f1bbcdcbfa54p+2]. *)
Definition SyncScale_multiplier (scale : SyncScale) : float :=
  match scale with
  | MICRO => one
  | MESO => PHI
  | MACRO => S754_finite false 5895288448088660 (-51)
  | META => S754_finite false 4769388541246036 (-50)
  end.

Record t : Type := mk {
  nodes : list (string * SwarmNode);
  coherence_matrix : list (string * float);
  sync_state : string
}.

Definition set_nodes (self : t) (d : list (string * SwarmNode)) : t :=
  {| nodes := d; coherence_matrix := coherence_matrix self;
     sync_state := sync_state self |}.

Definition set_sync_state (self : t) (s : string) : t :=
  {| nodes := nodes self; coherence_matrix := coherence_matrix self;
     sync_state := s |}.

(** The local [total] of [calculate_coherence]. *)
Definition total (self : t) : float :=
  py_sum (map (fun n => mul (coherence n) (phi_weight n)) (values (nodes self))).

(** The local [max_possible] of [calculate_coherence]. *)
Definition max_possible (self : t) : float :=
  py_sum (map phi_weight (values (nodes self))).

(** [calculate_coherence] *)
Definition calculate_coherence (self : t) : result float :=
  if ltb zero (max_possible self)
  then float_div (total self) (max_possible self)
  else Ok zero.

(** The assignment in the loop of [cascade_sync]. *)
Definition sync_node (multiplier : float) (node : SwarmNode) : SwarmNode :=
  set_coherence node
    (py_min one (mul (coherence node) (add one (mul tenth multiplier)))).

(** [cascade_sync], run to completion by a single caller. *)
Definition cascade_sync (self : t) (scale : SyncScale) : result (t * float) :=
  let self := set_sync_state self ("syncing_" ++ fst (SyncScale_value scale)) in
  let self :=
    set_nodes self
      (map (fun item : string * SwarmNode =>
              (fst item, sync_node (SyncScale_multiplier scale) (snd item)))
           (nodes self)) in
  coherence <- calculate_coherence self ;;
  let self := set_sync_state self "idle" in
  Ok (self, coherence).

(** The loop of [full_flash_sync] over the remaining [scales]. *)
Fixpoint sync_scales (self : t) (results : list (string * float))
    (scales : list SyncScale) : result (t * list (string * float)) :=
  match scales with
  | [] => Ok (self, results)
  | scale :: scales' =>
      r <- cascade_sync self scale ;;
      let '(self1, coherence) := r in
      sync_scales self1 (dict_set results (fst (SyncScale_value scale)) coherence)
        scales'
  end.

(** [full_flash_sync] *)
Definition full_flash_sync (self : t) : result (t * list (string * float)) :=
  r <- sync_scales self [] SyncScale_members ;;
  let '(self1, results) := r in
  final_coherence <- calculate_coherence self1 ;;
  Ok (self1, results).

End Binary64Engine.


(** A float engine of two fresh nodes, of weights [1.0] and [PHI]. *)
Definition float_engine_example : Binary64Engine.t :=
  {| Binary64Engine.nodes :=
       [("A"%string,
         Binary64Engine.new_node "A" "Analyzer" INTELLIGENCE Binary64.one);
        ("Q"%string,
         Binary64Engine.new_node "Q" "Quantizer" QUANTUM Binary64.PHI)];
     Binary64Engine.coherence_matrix := [];
     Binary64Engine.sync_state := "idle" |}.

(** A float engine of two fresh nodes of weight [1e308], that is
    [0x1.1ccf385ebc8a0p+1023]. *)
Definition float_engine_huge : Binary64Engine.t :=
  {| Binary64Engine.nodes :=
       [("A"%string,
         Binary64Engine.new_node "A" "Analyzer" INTELLIGENCE
           (S754_finite false 5010420900022432 971));
        ("B"%string,
         Binary64Engine.new_node "B" "Builder" INFRASTRUCTURE
           (S754_finite false 5010420900022432 971))];
     Binary64Engine.coherence_matrix := [];
     Binary64Engine.sync_state := "idle" |}.


(** A float engine in which a gain is lost to rounding: three nodes of
    weight [1.0], at the coherences [1.0], [0.0] and [1e-17], that is
    [0x1.70ef54646d497p-57]. *)
Definition float_engine_absorbing : Binary64Engine.t :=
  {| Binary64Engine.nodes :=
       [("A"%string,
         Binary64Engine.new_node "A" "Analyzer" INTELLIGENCE Binary64.one);
        ("B"%string,
         Binary64Engine.set_coherence
           (Binary64Engine.new_node "B" "Builder" INFRASTRUCTURE Binary64.one)
           Binary64.zero);
        ("C"%string,
         Binary64Engine.set_coherence
           (Binary64Engine.new_node "C" "Coordinator" ORCHESTRATION Binary64.one)
           (S754_finite false 6490371073168535 (-109)))];
     Binary64Engine.coherence_matrix := [];
     Binary64Engine.sync_state := "idle" |}.


(** * Properties *)

(** ** Arithmetic and exceptions *)

Lemma Qltb_lt (a b : Q) : Qltb a b = true <-> a < b.
Proof.
  unfold Qltb. rewrite negb_true_iff.
  split; intro H.
  - apply Qnot_le_lt. intro Hle. apply Qle_bool_iff in Hle. congruence.
  - destruct (Qle_bool b a) eqn:E; [|reflexivity].
    apply Qle_bool_iff in E. exfalso. apply (Qlt_not_le _ _ H E).
Qed.

Lemma Qltb_ge (a b : Q) : Qltb a b = false <-> b <= a.
Proof.
  unfold Qltb. rewrite negb_false_iff. apply Qle_bool_iff.
Qed.

Lemma py_min_lt (a b : Q) : b < a -> py_min a b = b.
Proof. intro H. unfold py_min. apply Qltb_lt in H. now rewrite H. Qed.

Lemma py_min_ge (a b : Q) : a <= b -> py_min a b = a.
Proof. intro H. unfold py_min. apply Qltb_ge in H. now rewrite H. Qed.

Lemma float_div_nonzero (a b : Q) : ~ b == 0 -> float_div a b = Ok (a / b).
Proof.
  intro H. unfold float_div.
  destruct (Qeq_bool b 0) eqn:E; [|reflexivity].
  apply Qeq_bool_iff in E. contradiction.
Qed.

Lemma PHI_pos : 0 < PHI.
Proof. reflexivity. Qed.

Lemma PHI_gt_1 : 1 < PHI.
Proof. reflexivity. Qed.

(** Every scale's multiplier is strictly positive. *)
Lemma multiplier_pos (scale : SyncScale) : 0 < snd (SyncScale_value scale).
Proof. destruct scale; reflexivity. Qed.

(** The multipliers are the powers of [PHI] and increase with the scale. *)
Lemma multipliers_increasing :
  snd (SyncScale_value MICRO) < snd (SyncScale_value MESO)
  /\ snd (SyncScale_value MESO) < snd (SyncScale_value MACRO)
  /\ snd (SyncScale_value MACRO) < snd (SyncScale_value META).
Proof. repeat split. Qed.

(** [sum] from the left agrees with [Σ]. *)
Lemma fold_left_Qplus (xs : list Q) (acc : Q) :
  fold_left Qplus xs acc == acc + Qsum xs.
Proof.
  revert acc. induction xs as [|x xs IH]; intro acc; cbn [fold_left Qsum].
  - lra.
  - rewrite IH. lra.
Qed.

Lemma py_sum_Qsum (xs : list Q) : py_sum xs == Qsum xs.
Proof. unfold py_sum. rewrite fold_left_Qplus. lra. Qed.

Lemma Qsum_app (xs ys : list Q) : Qsum (xs ++ ys) == Qsum xs + Qsum ys.
Proof.
  induction xs as [|x xs IH]; cbn [app Qsum].
  - lra.
  - rewrite IH. lra.
Qed.

Lemma small_total_safe (x : Q) : x <= 128 -> x <= safe_total.
Proof.
  intro H. apply Qle_trans with (y := 128); [exact H|].
  unfold safe_total. change 128 with (inject_Z (2 ^ 7)).
  rewrite <- Zle_Qle. apply Z.pow_le_mono_r; lia.
Qed.

(** ** FlashSyncEngine: coherence and cascade synchronisation *)

Module FlashSyncProperties.

Import FlashSyncEngine.

Lemma values_map_snd (f : SwarmNode -> SwarmNode) (d : list (string * SwarmNode)) :
  values (map (fun item => (fst item, f (snd item))) d) = map f (values d).
Proof.
  unfold values. rewrite !map_map. reflexivity.
Qed.

Lemma keys_map_snd (f : SwarmNode -> SwarmNode) (d : list (string * SwarmNode)) :
  keys (map (fun item => (fst item, f (snd item))) d) = keys d.
Proof.
  unfold keys. rewrite map_map. reflexivity.
Qed.

Lemma phi_weight_sync_node (m : Q) (n : SwarmNode) :
  phi_weight (sync_node m n) = phi_weight n.
Proof. reflexivity. Qed.

(** [calculate_coherence] in terms of the specification's two sums. *)
Lemma calculate_coherence_pos (self : t) :
  0 < coherence_denominator (values (nodes self)) ->
  exists r, calculate_coherence self = Ok r
            /\ r == coherence_numerator (values (nodes self))
                    / coherence_denominator (values (nodes self)).
Proof.
  intro Hpos. unfold calculate_coherence.
  set (ns := values (nodes self)) in *.
  assert (Hden : py_sum (map phi_weight ns) == coherence_denominator ns)
    by apply py_sum_Qsum.
  assert (Hnum : py_sum (map (fun n => coherence n * phi_weight n) ns)
                 == coherence_numerator ns) by apply py_sum_Qsum.
  assert (Hlt : Qltb 0 (py_sum (map phi_weight ns)) = true)
    by (apply Qltb_lt; rewrite Hden; exact Hpos).
  rewrite Hlt, float_div_nonzero.
  - eexists. split; [reflexivity|]. now rewrite Hden, Hnum.
  - rewrite Hden. intro H0. rewrite H0 in Hpos. now apply Qlt_irrefl in Hpos.
Qed.

Lemma calculate_coherence_nonpos (self : t) :
  coherence_denominator (values (nodes self)) <= 0 ->
  calculate_coherence self = Ok 0.
Proof.
  intro Hle. unfold calculate_coherence.
  set (ns := values (nodes self)) in *.
  assert (Hden : py_sum (map phi_weight ns) == coherence_denominator ns)
    by apply py_sum_Qsum.
  assert (Hge : Qltb 0 (py_sum (map phi_weight ns)) = false)
    by (apply Qltb_ge; rewrite Hden; exact Hle).
  now rewrite Hge.
Qed.

(** [calculate_coherence] never raises: the guard keeps a zero divisor away
    from the division. *)
Lemma calculate_coherence_total (self : t) :
  exists r, calculate_coherence self = Ok r.
Proof.
  destruct (Qlt_le_dec 0 (coherence_denominator (values (nodes self)))) as [H|H].
  - destruct (calculate_coherence_pos self H) as [r [Hr _]]. now exists r.
  - exists 0. now apply calculate_coherence_nonpos.
Qed.


Lemma numerator_all_one (ns : list SwarmNode) :
  Forall (fun n => coherence n == 1) ns ->
  coherence_numerator ns == coherence_denominator ns.
Proof.
  unfold coherence_numerator, coherence_denominator.
  induction 1 as [|n ns Hn _ IH]; cbn [map Qsum].
  - reflexivity.
  - rewrite IH, Hn. lra.
Qed.


(** *** One cascade *)

Lemma cascade_sync_value (self : t) (scale : SyncScale) :
  exists self' r,
    cascade_sync self scale = Ok (self', r)
    /\ nodes self'
       = map (fun item => (fst item, sync_node (snd (SyncScale_value scale)) (snd item)))
             (nodes self)
    /\ coherence_matrix self' = coherence_matrix self
    /\ sync_state self' = "idle"%string
    /\ calculate_coherence self' = Ok r.
Proof.
  unfold cascade_sync.
  destruct (SyncScale_value scale) as [scale_name multiplier]; cbn [snd].
  match goal with
  | |- context [calculate_coherence ?e] =>
      destruct (calculate_coherence_total e) as [r Hr]; rewrite Hr
  end.
  cbn [bind]. do 2 eexists. split; [reflexivity|].
  repeat split. exact Hr.
Qed.

(** What the assignment does to a coherence in [[0, 1]]. *)
Lemma sync_node_bounds (m : Q) (n : SwarmNode) :
  0 < m -> 0 <= coherence n <= 1 ->
  coherence n <= coherence (sync_node m n) <= 1
  /\ (0 < coherence n < 1 -> coherence n < coherence (sync_node m n)).
Proof.
  intros Hm [H0 H1]. cbn [sync_node set_coherence coherence].
  set (c := coherence n) in *.
  assert (Hk : 0 < tenth * m) by (unfold tenth; lra).
  assert (Hc : c <= c * (1 + tenth * m)).
  { assert (0 <= c * (tenth * m)) by (apply Qmult_le_0_compat; lra). lra. }
  destruct (Qlt_le_dec (c * (1 + tenth * m)) 1) as [Hlt|Hge].
  - rewrite (py_min_lt _ _ Hlt). split; [lra|].
    intros [Hc0 _].
    assert (0 < c * (tenth * m)) by (apply Qmult_lt_0_compat; lra). lra.
  - rewrite (py_min_ge _ _ Hge). split; lra.
Qed.

(** C1: after one [cascade_sync] at any scale, on nodes whose coherence lies
    in [[0, 1]], every node's coherence is
    [min(1.0, coherence * (1 + 0.1 * multiplier))] with a strictly positive
    multiplier; it has not decreased and it is at most 1. *)
Theorem cascade_sync_coherence_monotone (self : t) (scale : SyncScale) :
  Forall (fun n => 0 <= coherence n <= 1) (values (nodes self)) ->
  exists self' r,
    cascade_sync self scale = Ok (self', r)
    /\ 0 < snd (SyncScale_value scale)
    /\ Forall2
         (fun old new =>
            coherence new
            = py_min 1 (coherence old * (1 + tenth * snd (SyncScale_value scale)))
            /\ coherence old <= coherence new
            /\ coherence new <= 1)
         (values (nodes self)) (values (nodes self')).
Proof.
  intro Hunit.
  destruct (cascade_sync_value self scale) as [self' [r [Hrun [Hnodes _]]]].
  exists self', r. split; [exact Hrun|]. split; [apply multiplier_pos|].
  rewrite Hnodes, values_map_snd.
  induction Hunit as [|n ns Hn _ IH]; cbn [map]; constructor; [|exact IH].
  split; [reflexivity|].
  apply (sync_node_bounds _ n (multiplier_pos scale) Hn).
Qed.

(** C1, witness: [matrix_three] at the meso scale. *)
Lemma cascade_sync_coherence_monotone_witness :
  Forall (fun n => 0 <= coherence n <= 1) (values (nodes (__init__ matrix_three)))
  /\ exists self' r,
      cascade_sync (__init__ matrix_three) MESO = Ok (self', r)
      /\ 0 < snd (SyncScale_value MESO)
      /\ Forall2
           (fun old new =>
              coherence new
              = py_min 1 (coherence old * (1 + tenth * snd (SyncScale_value MESO)))
              /\ coherence old <= coherence new
              /\ coherence new <= 1)
           (values (nodes (__init__ matrix_three))) (values (nodes self')).
Proof.
  assert (H : Forall (fun n => 0 <= coherence n <= 1)
                (values (nodes (__init__ matrix_three))))
    by (repeat constructor; vm_compute; discriminate).
  split; [exact H|].
  exact (cascade_sync_coherence_monotone (__init__ matrix_three) MESO H).
Defined.

(** C10: [cascade_sync] returns, and in the engine it leaves behind only the
    coherence of the nodes may differ: the dict has the same keys in the same
    order, every node keeps its id, name, layer, weight, entanglement list
    and state, and [coherence_matrix] is untouched. *)
Theorem cascade_sync_frame (self : t) (scale : SyncScale) :
  exists self' r,
    cascade_sync self scale = Ok (self', r)
    /\ keys (nodes self') = keys (nodes self)
    /\ coherence_matrix self' = coherence_matrix self
    /\ Forall2
         (fun old new =>
            id new = id old /\ name new = name old /\ layer new = layer old
            /\ weight new = weight old
            /\ entanglement new = entanglement old
            /\ state new = state old)
         (values (nodes self)) (values (nodes self')).
Proof.
  destruct (cascade_sync_value self scale) as [self' [r [Hrun [Hnodes [Hcm _]]]]].
  exists self', r. split; [exact Hrun|].
  rewrite Hnodes, keys_map_snd, values_map_snd.
  split; [reflexivity|]. split; [exact Hcm|].
  induction (values (nodes self)) as [|n ns IH]; cbn [map]; constructor; [|exact IH].
  repeat split.
Qed.

(** *** The four stages *)

Lemma denominator_sync (m : Q) (ns : list SwarmNode) :
  coherence_denominator (map (sync_node m) ns) = coherence_denominator ns.
Proof.
  unfold coherence_denominator. rewrite map_map. reflexivity.
Qed.


Lemma derivedWeight_nonneg (n : SwarmNode) : 0 <= weight n -> 0 <= derivedWeight n.
Proof.
  intro H. unfold derivedWeight. apply Qmult_le_0_compat; [exact H|].
  apply Qlt_le_weak, PHI_pos.
Qed.










End FlashSyncProperties.

(** ** FlashSyncEngine: the entanglement graph *)

Module EntanglementProperties.

Import FlashSyncEngine.

(** *** The dict of nodes *)

Lemma dict_set_fresh {V : Type} (d : list (string * V)) (k : string) (v : V) :
  ~ In k (keys d) -> dict_set d k v = d ++ [(k, v)].
Proof.
  induction d as [|[k' v'] d IH]; cbn [dict_set keys map fst In app]; intro H.
  - reflexivity.
  - destruct (String.eqb_spec k' k) as [->|Hne].
    + exfalso. apply H. now left.
    + f_equal. apply IH. intro Hin. apply H. now right.
Qed.

Lemma dict_set_present {V : Type} (d : list (string * V)) (k : string) (v : V) :
  In k (keys d) -> keys (dict_set d k v) = keys d.
Proof.
  induction d as [|[k' v'] d IH]; cbn [dict_set keys map fst In]; intro H.
  - contradiction.
  - destruct (String.eqb_spec k' k) as [->|Hne]; cbn [map fst].
    + reflexivity.
    + f_equal. apply IH. destruct H as [H|H]; [contradiction|exact H].
Qed.

Lemma dict_set_Forall {V : Type} (P : string * V -> Prop)
    (d : list (string * V)) (k : string) (v : V) :
  Forall P d -> P (k, v) -> Forall P (dict_set d k v).
Proof.
  intros Hd Hv. induction Hd as [|[k' v'] d Hkv Hd IH]; cbn [dict_set].
  - now constructor.
  - destruct (String.eqb_spec k' k) as [->|Hne]; constructor; trivial.
Qed.

Lemma dict_set_well_keyed (d : list (string * SwarmNode)) (n : SwarmNode) :
  well_keyed d -> well_keyed (dict_set d (id n) n).
Proof.
  intros [Hnd Hid]. split.
  - destruct (in_dec string_dec (id n) (keys d)) as [Hin|Hout].
    + now rewrite dict_set_present.
    + rewrite (dict_set_fresh _ _ _ Hout). unfold keys in *.
      rewrite map_app. cbn [map fst].
      apply NoDup_app; [exact Hnd|repeat constructor; intros []|].
      intros x Hx [<-|[]]. contradiction.
  - apply dict_set_Forall; [exact Hid|reflexivity].
Qed.

Lemma fold_dict_set_well_keyed (ns : list SwarmNode) (d : list (string * SwarmNode)) :
  well_keyed d -> well_keyed (fold_left (fun d n => dict_set d (id n) n) ns d).
Proof.
  revert d. induction ns as [|n ns IH]; intros d Hd; cbn [fold_left].
  - exact Hd.
  - apply IH, dict_set_well_keyed, Hd.
Qed.

Lemma nodes_dict_well_keyed (ns : list SwarmNode) : well_keyed (nodes_dict ns).
Proof.
  apply fold_dict_set_well_keyed. split; constructor.
Qed.

Lemma fold_dict_set_Forall (P : SwarmNode -> Prop) (ns : list SwarmNode)
    (d : list (string * SwarmNode)) :
  Forall P ns -> Forall (fun item => P (snd item)) d ->
  Forall (fun item => P (snd item))
    (fold_left (fun d n => dict_set d (id n) n) ns d).
Proof.
  intro Hns. revert d. induction Hns as [|n ns Hn _ IH]; intros d Hd; cbn [fold_left].
  - exact Hd.
  - apply IH, dict_set_Forall; [exact Hd|exact Hn].
Qed.

Lemma nodes_dict_Forall (P : SwarmNode -> Prop) (ns : list SwarmNode) :
  Forall P ns -> Forall (fun item => P (snd item)) (nodes_dict ns).
Proof.
  intro H. apply fold_dict_set_Forall; [exact H|constructor].
Qed.

Lemma fold_dict_set_unique (ns : list SwarmNode) (d : list (string * SwarmNode)) :
  NoDup (keys d ++ map id ns) ->
  fold_left (fun d n => dict_set d (id n) n) ns d
  = d ++ map (fun n => (id n, n)) ns.
Proof.
  revert d. induction ns as [|n ns IH]; intros d Hnd; cbn [fold_left map].
  - now rewrite app_nil_r.
  - assert (Hout : ~ In (id n) (keys d)).
    { intro Hin. cbn [map] in Hnd. apply NoDup_remove_2 in Hnd.
      apply Hnd, in_or_app. now left. }
    rewrite (dict_set_fresh _ _ _ Hout), IH.
    + now rewrite <- app_assoc.
    + unfold keys in *. rewrite map_app. cbn [map fst].
      rewrite <- app_assoc. exact Hnd.
Qed.

(** With unique ids the dict lists the matrix in its order. *)
Lemma nodes_dict_unique (ns : list SwarmNode) :
  NoDup (map id ns) -> nodes_dict ns = map (fun n => (id n, n)) ns.
Proof.
  intro H. unfold nodes_dict. now rewrite fold_dict_set_unique.
Qed.

Lemma well_keyed_keys (d : list (string * SwarmNode)) :
  Forall (fun item => fst item = id (snd item)) d -> map id (values d) = keys d.
Proof.
  unfold keys, values. induction 1 as [|[k n] d Hk _ IH]; cbn [map fst snd].
  - reflexivity.
  - cbn [fst snd] in Hk. now rewrite IH, Hk.
Qed.

(** A dict made again from the values of a dict is that dict. *)
Lemma nodes_dict_values (d : list (string * SwarmNode)) :
  well_keyed d -> nodes_dict (values d) = d.
Proof.
  intros [Hnd Hid]. rewrite nodes_dict_unique.
  - unfold values. rewrite map_map.
    induction Hid as [|[k n] d Hk _ IH]; cbn [map fst snd]; [reflexivity|].
    cbn [fst snd] in Hk. rewrite Hk. f_equal. apply IH.
    cbn [keys map] in Hnd. now inversion Hnd.
  - now rewrite well_keyed_keys.
Qed.

(** *** One iteration of the builder *)

Lemma NodeLayer_eqb_eq (a b : NodeLayer) : NodeLayer_eqb a b = true <-> a = b.
Proof. destruct a, b; cbn; split; congruence. Qed.

Lemma mem_In (x : string) (l : list string) : mem x l = true <-> In x l.
Proof.
  unfold mem. rewrite existsb_exists. split.
  - intros [y [Hy Heq]]. apply String.eqb_eq in Heq. now subst.
  - intro H. exists x. split; [exact H|apply String.eqb_refl].
Qed.

Lemma ring_links_app (node_ids : list string) (i : nat) (ent : list string) :
  ring_links node_ids i ent = ent ++ ring_ids node_ids i.
Proof.
  unfold ring_links, ring_ids.
  destruct (Z.ltb_spec 0 (Z.of_nat i)), (Nat.ltb_spec 0 i); try lia;
    destruct (Z.ltb_spec (Z.of_nat i) (Z.of_nat (List.length node_ids) - 1)),
             (Nat.ltb_spec (i + 1) (List.length node_ids)); try lia;
    cbn [app]; rewrite ?app_nil_r, <- ?app_assoc; reflexivity.
Qed.

(** One step of the inner loop. *)
Lemma clique_step_In (node : SwarmNode) (ent : list string)
    (other_id : string) (other : SwarmNode) (x : string) :
  In x (if NodeLayer_eqb (layer other) QUANTUM && negb (String.eqb other_id (id node))
        then if negb (mem other_id ent) then ent ++ [other_id] else ent
        else ent)
  <-> In x ent \/ (x = other_id /\ layer other = QUANTUM /\ x <> id node).
Proof.
  destruct (NodeLayer_eqb (layer other) QUANTUM) eqn:Hq; cbn [andb].
  - apply NodeLayer_eqb_eq in Hq.
    destruct (String.eqb_spec other_id (id node)) as [Heq|Hne]; cbn [negb].
    + split; [now left|]. intros [H|[-> [_ H]]]; [exact H|contradiction].
    + destruct (mem other_id ent) eqn:Hm; cbn [negb].
      * apply mem_In in Hm. split; [now left|].
        intros [H|[-> _]]; assumption.
      * rewrite in_app_iff. cbn [In]. split.
        -- intros [H|[<-|[]]]; [now left|now right].
        -- intros [H|[-> _]]; [now left|right; now left].
  - split; [now left|]. intros [H|[_ [H _]]]; [exact H|].
    apply NodeLayer_eqb_eq in H. congruence.
Qed.

Lemma clique_links_In (items : list (string * SwarmNode)) (node : SwarmNode)
    (ent : list string) (x : string) :
  In x (clique_links items node ent)
  <-> In x ent \/ quantum_other items (id node) x.
Proof.
  unfold clique_links, quantum_other.
  revert ent. induction items as [|[other_id other] items IH]; intro ent;
    cbn [fold_left map In fst snd].
  - tauto.
  - rewrite IH, clique_step_In. split.
    + intros [[H|[-> [Hq Hne]]]|[Hne H]]; auto.
      right. split; [exact Hne|]. left. now rewrite Hq.
    + intros [H|[Hne [H|H]]]; auto.
      injection H as -> Hq. auto.
Qed.

Lemma clique_links_NoDup (items : list (string * SwarmNode)) (node : SwarmNode)
    (ent : list string) :
  NoDup ent -> NoDup (clique_links items node ent).
Proof.
  unfold clique_links.
  revert ent. induction items as [|[other_id other] items IH]; intros ent Hnd;
    cbn [fold_left].
  - exact Hnd.
  - apply IH.
    destruct (NodeLayer_eqb (layer other) QUANTUM && negb (String.eqb other_id (id node)));
      [|exact Hnd].
    destruct (mem other_id ent) eqn:Hm; cbn [negb]; [exact Hnd|].
    apply NoDup_app; [exact Hnd|repeat constructor; intros []|].
    intros y Hy [<-|[]]. apply mem_In in Hy. congruence.
Qed.

(** What one iteration of the outer loop leaves in the node's list. *)
Lemma entangle_In (items : list (string * SwarmNode)) (node_ids : list string)
    (i : nat) (node : SwarmNode) (x : string) :
  In x (entanglement (entangle items node_ids i node))
  <-> In x (entanglement node)
      \/ In x (ring_ids node_ids i)
      \/ (layer node = QUANTUM /\ quantum_other items (id node) x).
Proof.
  unfold entangle. cbn [entanglement set_entanglement].
  rewrite ring_links_app.
  destruct (NodeLayer_eqb (layer node) QUANTUM) eqn:Hq.
  - apply NodeLayer_eqb_eq in Hq.
    rewrite clique_links_In, in_app_iff. tauto.
  - rewrite in_app_iff. split; [tauto|].
    intros [H|[H|[H _]]]; auto.
    apply NodeLayer_eqb_eq in H. congruence.
Qed.

Lemma entangle_fields (items : list (string * SwarmNode)) (node_ids : list string)
    (i : nat) (node : SwarmNode) :
  id (entangle items node_ids i node) = id node
  /\ layer (entangle items node_ids i node) = layer node.
Proof. split; reflexivity. Qed.

(** *** The whole pass *)

Lemma nth_error_combine_seq {A B : Type} (f : nat * A -> B) (l : list A) (s i : nat) :
  nth_error (map f (combine (seq s (List.length l)) l)) i
  = option_map (fun x => f ((s + i)%nat, x)) (nth_error l i).
Proof.
  revert s i. induction l as [|a l IH]; intros s i; cbn [List.length seq combine map].
  - now destruct i.
  - destruct i as [|i]; cbn [nth_error option_map].
    + now rewrite Nat.add_0_r.
    + rewrite IH. now rewrite Nat.add_succ_comm.
Qed.

Lemma nth_error_map_enumerate {A B : Type} (f : nat * A -> B) (l : list A) (i : nat) :
  nth_error (map f (enumerate l)) i = option_map (fun x => f (i, x)) (nth_error l i).
Proof. unfold enumerate. now rewrite nth_error_combine_seq. Qed.

Lemma map_combine_seq {A B : Type} (f : nat * A -> B) (h : A -> B) (l : list A) (s : nat) :
  (forall i x, f (i, x) = h x) ->
  map f (combine (seq s (List.length l)) l) = map h l.
Proof.
  intro H. revert s. induction l as [|a l IH]; intro s; cbn [List.length seq combine map].
  - reflexivity.
  - now rewrite H, IH.
Qed.

Lemma entanglement_at_build (e : t) (i : nat) :
  entanglement_at (_build_entanglement e) i
  = match nth_error (nodes e) i with
    | Some item => entanglement (entangle (nodes e) (keys (nodes e)) i (snd item))
    | None => []
    end.
Proof.
  unfold entanglement_at, _build_entanglement. cbn [nodes set_nodes].
  rewrite nth_error_map_enumerate.
  destruct (nth_error (nodes e) i) as [[k node]|]; reflexivity.
Qed.

(** The pass changes no key, no id and no layer. *)
Lemma build_keeps_identity (e : t) :
  map (fun item => (fst item, id (snd item), layer (snd item)))
      (nodes (_build_entanglement e))
  = map (fun item => (fst item, id (snd item), layer (snd item))) (nodes e).
Proof.
  unfold _build_entanglement. cbn [nodes set_nodes].
  rewrite map_map. unfold enumerate. apply map_combine_seq.
  intros i [k node]. reflexivity.
Qed.

Lemma build_keys (e : t) : keys (nodes (_build_entanglement e)) = keys (nodes e).
Proof.
  pose proof (build_keeps_identity e) as H.
  apply (f_equal (map (fun p : string * string * NodeLayer => fst (fst p)))) in H.
  rewrite !map_map in H. exact H.
Qed.

Lemma build_layers (e : t) :
  map (fun item => (fst item, layer (snd item))) (nodes (_build_entanglement e))
  = map (fun item => (fst item, layer (snd item))) (nodes e).
Proof.
  pose proof (build_keeps_identity e) as H.
  apply (f_equal (map (fun p : string * string * NodeLayer => (fst (fst p), snd p)))) in H.
  rewrite !map_map in H. exact H.
Qed.

Lemma build_well_keyed (e : t) :
  well_keyed (nodes e) -> well_keyed (nodes (_build_entanglement e)).
Proof.
  intros [Hnd Hid]. split.
  - now rewrite build_keys.
  - pose proof (build_keeps_identity e) as H.
    apply (f_equal (map (fun p : string * string * NodeLayer => (fst (fst p), snd (fst p))))) in H.
    rewrite !map_map in H. cbn [fst snd] in H.
    rewrite Forall_forall in *. intros item Hin.
    apply (in_map (fun x => (fst x, id (snd x)))) in Hin.
    rewrite H in Hin. apply in_map_iff in Hin. destruct Hin as [item0 [Heq Hin0]].
    specialize (Hid item0 Hin0). injection Heq as Hk Hi. congruence.
Qed.

Lemma nth_error_build (e : t) (i : nat) :
  nth_error (nodes (_build_entanglement e)) i
  = option_map
      (fun item => (fst item, entangle (nodes e) (keys (nodes e)) i (snd item)))
      (nth_error (nodes e) i).
Proof.
  unfold _build_entanglement. cbn [nodes set_nodes].
  rewrite nth_error_map_enumerate.
  destruct (nth_error (nodes e) i) as [[k node]|]; reflexivity.
Qed.

Lemma quantum_other_build (e : t) (self_id x : string) :
  quantum_other (nodes (_build_entanglement e)) self_id x
  <-> quantum_other (nodes e) self_id x.
Proof. unfold quantum_other. now rewrite build_layers. Qed.

Lemma ring_ids_NoDup (node_ids : list string) (i : nat) :
  NoDup node_ids -> NoDup (ring_ids node_ids i).
Proof.
  intro Hnd. unfold ring_ids.
  destruct (Nat.ltb_spec 0 i), (Nat.ltb_spec (i + 1) (List.length node_ids));
    cbn [app].
  - constructor; [|repeat constructor; intros []].
    intros [Heq|[]].
    apply (proj1 (NoDup_nth node_ids ""%string) Hnd) in Heq; lia.
  - repeat constructor. intros [].
  - repeat constructor. intros [].
  - constructor.
Qed.

(** A second pass over an engine adds to no node's set of links. *)
Lemma second_pass_same_sets (e : t) (i : nat) (x : string) :
  In x (entanglement_at (_build_entanglement (_build_entanglement e)) i)
  <-> In x (entanglement_at (_build_entanglement e) i).
Proof.
  rewrite (entanglement_at_build (_build_entanglement e)).
  unfold entanglement_at at 1.
  rewrite nth_error_build.
  destruct (nth_error (nodes e) i) as [item0|]; cbn [option_map snd]; [|tauto].
  rewrite entangle_In, build_keys, quantum_other_build.
  rewrite entangle_In. cbn [id layer entangle set_entanglement]. tauto.
Qed.

(** The engine a second [__init__] over the same node objects builds. *)
Lemma rerun_init (ns : list SwarmNode) :
  rerun (__init__ ns)
  = _build_entanglement
      {| nodes := nodes (__init__ ns); coherence_matrix := [];
         sync_state := "idle" |}.
Proof.
  unfold rerun. unfold __init__ at 1. rewrite nodes_dict_values; [reflexivity|].
  unfold __init__. apply build_well_keyed. cbn [nodes]. apply nodes_dict_well_keyed.
Qed.

Lemma entanglement_at_nodes (e e' : t) (i : nat) :
  nodes e = nodes e' ->
  entanglement_at (_build_entanglement e) i = entanglement_at (_build_entanglement e') i.
Proof. intro H. rewrite !entanglement_at_build. now rewrite H. Qed.

(** C6, as amended: for a matrix whose nodes come with empty entanglement
    lists, the construction leaves no duplicate in any node's list, and
    running the construction again on the same matrix keeps the keys and
    gives every node the same set of linked identities.  The lists
    themselves are not kept: the second run appends the ring neighbours
    again. *)
Theorem build_entanglement_rerun (ns : list SwarmNode) :
  Forall (fun n => entanglement n = []) ns ->
  keys (nodes (rerun (__init__ ns))) = keys (nodes (__init__ ns))
  /\ (forall i x,
        In x (entanglement_at (rerun (__init__ ns)) i)
        <-> In x (entanglement_at (__init__ ns) i))
  /\ (forall i, NoDup (entanglement_at (__init__ ns) i)).
Proof.
  intro Hfresh. rewrite rerun_init. split; [|split].
  - now rewrite build_keys.
  - intros i x.
    rewrite (entanglement_at_nodes _ (__init__ ns) i) by reflexivity.
    unfold __init__. apply second_pass_same_sets.
  - intro i. unfold __init__. rewrite entanglement_at_build. cbn [nodes].
    destruct (nth_error (nodes_dict ns) i) as [item|] eqn:Hi; [|constructor].
    pose proof (nodes_dict_Forall _ ns Hfresh) as Hall.
    rewrite Forall_forall in Hall.
    specialize (Hall item (nth_error_In _ _ Hi)). cbn beta in Hall.
    unfold entangle. cbn [entanglement set_entanglement].
    rewrite ring_links_app, Hall. cbn [app].
    assert (Hring : NoDup (ring_ids (keys (nodes_dict ns)) i))
      by apply ring_ids_NoDup, nodes_dict_well_keyed.
    destruct (NodeLayer_eqb (layer (snd item)) QUANTUM);
      [now apply clique_links_NoDup|exact Hring].
Qed.

(** C6, witness: the matrix of the specification's example. *)
Lemma build_entanglement_rerun_witness :
  Forall (fun n => entanglement n = []) matrix_example
  /\ keys (nodes (rerun (__init__ matrix_example)))
     = keys (nodes (__init__ matrix_example))
  /\ (forall i x,
        In x (entanglement_at (rerun (__init__ matrix_example)) i)
        <-> In x (entanglement_at (__init__ matrix_example) i))
  /\ (forall i, NoDup (entanglement_at (__init__ matrix_example) i)).
Proof.
  assert (H : Forall (fun n => entanglement n = []) matrix_example)
    by (repeat constructor).
  split; [exact H|].
  exact (build_entanglement_rerun matrix_example H).
Defined.

(** C6, counterexample: the matrix of the specification's example.  The
    first construction gives node A the list [["B"]]; the second appends
    A's ring neighbour again, without a membership test, and leaves
    [["B"; "B"]]. *)
Lemma entanglement_contract_duplicate_on_rerun :
  ~ entanglement_contract matrix_example.
Proof.
  intros [_ [_ H]]. specialize (H 0%nat).
  assert (Hlist : entanglement_at (rerun (__init__ matrix_example)) 0
                  = ["B"%string; "B"%string]) by reflexivity.
  rewrite Hlist in H. inversion H as [|? ? Hnotin _]; subst.
  apply Hnotin. now left.
Qed.

(** *** Positions and identities *)

Lemma id_at_map (ns : list SwarmNode) (j : nat) :
  id_at ns j = nth_error (map id ns) j.
Proof. unfold id_at. now rewrite nth_error_map. Qed.

Lemma id_at_nth (ns : list SwarmNode) (j : nat) :
  (j < List.length ns)%nat -> id_at ns j = Some (nth j (map id ns) ""%string).
Proof.
  intro H. rewrite id_at_map. apply nth_error_nth'. now rewrite length_map.
Qed.

Lemma ring_ids_positions (ns : list SwarmNode) (i : nat) (x : string) :
  (i < List.length ns)%nat ->
  In x (ring_ids (map id ns) i)
  <-> exists j, In j (ring_neighbors (List.length ns) i) /\ id_at ns j = Some x.
Proof.
  intro Hi. unfold ring_ids, ring_neighbors. rewrite length_map.
  destruct (Nat.ltb_spec 0 i) as [H0|H0];
    destruct (Nat.ltb_spec (i + 1) (List.length ns)) as [H1|H1]; cbn [app In].
  - split.
    + intros [<-|[<-|[]]].
      * exists (i - 1)%nat. split; [now left|apply id_at_nth; lia].
      * exists (i + 1)%nat. split; [right; now left|apply id_at_nth; lia].
    + intros [j [[<-|[<-|[]]] Hj]].
      * rewrite id_at_nth in Hj by lia. injection Hj as <-. now left.
      * rewrite id_at_nth in Hj by lia. injection Hj as <-. right. now left.
  - split.
    + intros [<-|[]]. exists (i - 1)%nat. split; [now left|apply id_at_nth; lia].
    + intros [j [[<-|[]] Hj]].
      rewrite id_at_nth in Hj by lia. injection Hj as <-. now left.
  - split.
    + intros [<-|[]]. exists (i + 1)%nat. split; [now left|apply id_at_nth; lia].
    + intros [j [[<-|[]] Hj]].
      rewrite id_at_nth in Hj by lia. injection Hj as <-. now left.
  - split; [intros []|intros [j [[] _]]].
Qed.

Lemma quantum_clique_In (ns : list SwarmNode) (i j : nat) (ni : SwarmNode) :
  nth_error ns i = Some ni ->
  In j (quantum_clique ns i)
  <-> layer ni = QUANTUM /\ j <> i
      /\ exists o, nth_error ns j = Some o /\ layer o = QUANTUM.
Proof.
  intro Hi. unfold quantum_clique. rewrite Hi.
  destruct (NodeLayer_eqb (layer ni) QUANTUM) eqn:Hq.
  - apply NodeLayer_eqb_eq in Hq.
    rewrite filter_In, in_seq, andb_true_iff, negb_true_iff, Nat.eqb_neq.
    split.
    + intros [_ [Hne Ho]]. repeat split; trivial.
      destruct (nth_error ns j) as [o|]; [|discriminate].
      exists o. split; [reflexivity|now apply NodeLayer_eqb_eq].
    + intros [_ [Hne [o [Ho Hl]]]]. split; [|split; [exact Hne|]].
      * assert (j < List.length ns)%nat
          by (apply nth_error_Some; congruence). lia.
      * rewrite Ho. now apply NodeLayer_eqb_eq.
  - cbn [In]. split; [intros []|].
    intros [H _]. apply NodeLayer_eqb_eq in H. congruence.
Qed.

Lemma quantum_other_positions (ns : list SwarmNode) (i : nat) (ni : SwarmNode)
    (x : string) :
  NoDup (map id ns) ->
  nth_error ns i = Some ni ->
  layer ni = QUANTUM /\ quantum_other (map (fun n => (id n, n)) ns) (id ni) x
  <-> exists j, In j (quantum_clique ns i) /\ id_at ns j = Some x.
Proof.
  intros Hnd Hi. unfold quantum_other. rewrite map_map. cbn [fst snd]. split.
  - intros [Hq [Hne Hin]].
    apply in_map_iff in Hin. destruct Hin as [o [Heq Ho]].
    injection Heq as Hid Hl.
    apply In_nth_error in Ho. destruct Ho as [j Hj].
    exists j. split.
    + apply (quantum_clique_In ns i j ni Hi). split; [exact Hq|]. split.
      * intros ->. rewrite Hi in Hj. injection Hj as ->. congruence.
      * now exists o.
    + unfold id_at. rewrite Hj. cbn [option_map]. now rewrite Hid.
  - intros [j [Hj Hx]].
    apply (quantum_clique_In ns i j ni Hi) in Hj.
    destruct Hj as [Hq [Hne [o [Ho Hl]]]].
    unfold id_at in Hx. rewrite Ho in Hx. cbn [option_map] in Hx.
    injection Hx as <-.
    split; [exact Hq|]. split.
    + intro Heq. apply Hne.
      apply (proj1 (NoDup_nth_error (map id ns)) Hnd).
      * rewrite length_map. apply nth_error_Some. congruence.
      * rewrite !nth_error_map, Ho, Hi. cbn [option_map]. now rewrite Heq.
    + apply in_map_iff. exists o. split; [now rewrite Hl|].
      eapply nth_error_In, Ho.
Qed.

(** The links of the node at position [i] after one construction. *)
Lemma entanglement_at_init (ns : list SwarmNode) (i : nat) (x : string) :
  NoDup (map id ns) ->
  Forall (fun n => entanglement n = []) ns ->
  (i < List.length ns)%nat ->
  In x (entanglement_at (__init__ ns) i)
  <-> exists j,
        (In j (ring_neighbors (List.length ns) i) \/ In j (quantum_clique ns i))
        /\ id_at ns j = Some x.
Proof.
  intros Hnd Hfresh Hi.
  unfold __init__. rewrite entanglement_at_build. cbn [nodes].
  rewrite (nodes_dict_unique ns Hnd), nth_error_map.
  destruct (nth_error ns i) as [ni|] eqn:Hni;
    [|apply nth_error_None in Hni; lia].
  cbn [option_map snd].
  rewrite entangle_In. unfold keys. rewrite map_map. cbn [fst].
  rewrite Forall_forall in Hfresh.
  rewrite (Hfresh ni (nth_error_In _ _ Hni)). cbn [In].
  rewrite (ring_ids_positions ns i x Hi).
  rewrite (quantum_other_positions ns i ni x Hnd Hni).
  split.
  - intros [[]|[[j [Hj Hx]]|[j [Hj Hx]]]]; exists j; auto.
  - intros [j [[Hj|Hj] Hx]]; [right; left|right; right]; now exists j.
Qed.

(** C5, as amended: for a matrix with unique identities whose nodes come
    with empty entanglement lists, after one construction the identities linked to the
    node at position [i] are exactly those of its ring neighbours and of its
    quantum clique.  For length at least 2 the ring neighbours of position 0
    are position 1 alone, those of the last position are the one before it
    alone, and those of an interior position are the two positions next to
    it.  Any two distinct quantum nodes are linked to each other. *)
Theorem build_entanglement_ring_and_clique (ns : list SwarmNode) :
  NoDup (map id ns) ->
  Forall (fun n => entanglement n = []) ns ->
  keys (nodes (__init__ ns)) = map id ns
  /\ (forall i x,
        (i < List.length ns)%nat ->
        In x (entanglement_at (__init__ ns) i)
        <-> exists j,
              (In j (ring_neighbors (List.length ns) i)
               \/ In j (quantum_clique ns i))
              /\ id_at ns j = Some x)
  /\ ((2 <= List.length ns)%nat ->
      ring_neighbors (List.length ns) 0 = [1%nat]
      /\ ring_neighbors (List.length ns) (List.length ns - 1)
         = [(List.length ns - 2)%nat]
      /\ forall i, (0 < i < List.length ns - 1)%nat ->
                   ring_neighbors (List.length ns) i = [(i - 1)%nat; (i + 1)%nat])
  /\ (forall i j ni nj,
        i <> j ->
        nth_error ns i = Some ni -> nth_error ns j = Some nj ->
        layer ni = QUANTUM -> layer nj = QUANTUM ->
        In (id nj) (entanglement_at (__init__ ns) i)
        /\ In (id ni) (entanglement_at (__init__ ns) j)).
Proof.
  intros Hnd Hfresh. split; [|split; [|split]].
  - unfold __init__. rewrite build_keys. cbn [nodes].
    rewrite (nodes_dict_unique ns Hnd). unfold keys. now rewrite map_map.
  - intros i x Hi. now apply entanglement_at_init.
  - intro Hlen. unfold ring_neighbors. split; [|split].
    + destruct (Nat.ltb_spec (0 + 1) (List.length ns)); [reflexivity|lia].
    + destruct (Nat.ltb_spec 0 (List.length ns - 1)); [|lia].
      destruct (Nat.ltb_spec (List.length ns - 1 + 1) (List.length ns)); [lia|].
      cbn [app]. f_equal. lia.
    + intros i Hi.
      destruct (Nat.ltb_spec 0 i); [|lia].
      destruct (Nat.ltb_spec (i + 1) (List.length ns)); [reflexivity|lia].
  - intros i j ni nj Hne Hi Hj Hqi Hqj.
    assert (Hli : (i < List.length ns)%nat) by (apply nth_error_Some; congruence).
    assert (Hlj : (j < List.length ns)%nat) by (apply nth_error_Some; congruence).
    split.
    + apply (entanglement_at_init ns i _ Hnd Hfresh Hli).
      exists j. split.
      * right. apply (quantum_clique_In ns i j ni Hi). repeat split; eauto.
      * unfold id_at. now rewrite Hj.
    + apply (entanglement_at_init ns j _ Hnd Hfresh Hlj).
      exists i. split.
      * right. apply (quantum_clique_In ns j i nj Hj). repeat split; eauto.
      * unfold id_at. now rewrite Hi.
Qed.

(** C5, witness: the matrix of the specification's example. *)
Lemma build_entanglement_ring_and_clique_witness :
  NoDup (map id matrix_example)
  /\ Forall (fun n => entanglement n = []) matrix_example
  /\ keys (nodes (__init__ matrix_example)) = map id matrix_example
  /\ (forall i x,
        (i < List.length matrix_example)%nat ->
        In x (entanglement_at (__init__ matrix_example) i)
        <-> exists j,
              (In j (ring_neighbors (List.length matrix_example) i)
               \/ In j (quantum_clique matrix_example i))
              /\ id_at matrix_example j = Some x)
  /\ ((2 <= List.length matrix_example)%nat ->
      ring_neighbors (List.length matrix_example) 0 = [1%nat]
      /\ ring_neighbors (List.length matrix_example)
           (List.length matrix_example - 1)
         = [(List.length matrix_example - 2)%nat]
      /\ forall i, (0 < i < List.length matrix_example - 1)%nat ->
                   ring_neighbors (List.length matrix_example) i
                   = [(i - 1)%nat; (i + 1)%nat])
  /\ (forall i j ni nj,
        i <> j ->
        nth_error matrix_example i = Some ni ->
        nth_error matrix_example j = Some nj ->
        layer ni = QUANTUM -> layer nj = QUANTUM ->
        In (id nj) (entanglement_at (__init__ matrix_example) i)
        /\ In (id ni) (entanglement_at (__init__ matrix_example) j)).
Proof.
  assert (Hnd : NoDup (map id matrix_example)).
  { cbn. repeat constructor; cbn; intuition discriminate. }
  assert (Hfresh : Forall (fun n => entanglement n = []) matrix_example)
    by (repeat constructor).
  split; [exact Hnd|]. split; [exact Hfresh|].
  exact (build_entanglement_ring_and_clique matrix_example Hnd Hfresh).
Defined.

(** The lists of the specification's example: A has B, B has A and C, C
    has B. *)
Example entanglement_example :
  map (fun item => (fst item, entanglement (snd item)))
      (nodes (__init__ matrix_example))
  = [("A", ["B"]); ("B", ["A"; "C"]); ("C", ["B"])]%string.
Proof. reflexivity. Qed.

(** C5, counterexample: [matrix_reused].  The construction appends to the
    list a node arrives with: node A ends with the links Z and B, and Z is
    neither a ring neighbour of A nor in its clique; it is not even a node
    of the matrix. *)
Lemma ring_and_clique_contract_reused_node :
  ~ ring_and_clique_contract matrix_reused.
Proof.
  intro H.
  assert (Hnd : NoDup (map id matrix_reused))
    by (repeat constructor; cbn; intuition discriminate).
  assert (Hin : In "Z"%string (entanglement_at (__init__ matrix_reused) 0))
    by (vm_compute; now left).
  apply (H Hnd 0%nat "Z"%string ltac:(cbn; lia)) in Hin.
  destruct Hin as [j [Hj Hid]].
  vm_compute in Hj. destruct Hj as [[<-|[]]|[]].
  vm_compute in Hid. discriminate.
Qed.

End EntanglementProperties.

(** ** ConsensusEngine *)

Module ConsensusProperties.

Import ConsensusEngine.

(** *** Weighted vote *)

Lemma cast_votes_yes (hash : string -> Z) (self : t) (proposal : string) :
  map snd (filter (fun vw => fst vw) (cast_votes hash self proposal))
  = map vote_weight
      (filter (fun n => (hash (proposal ++ id n)%string mod 2 =? 0)%Z) (nodes self)).
Proof.
  unfold cast_votes.
  induction (nodes self) as [|n ns IH]; cbn [map filter fst]; [reflexivity|].
  destruct (hash (proposal ++ id n)%string mod 2 =? 0)%Z; cbn [map snd]; [|exact IH].
  rewrite IH. f_equal. unfold vote_weight. now destruct (layer n).
Qed.

Lemma cast_votes_no (hash : string -> Z) (self : t) (proposal : string) :
  map snd (filter (fun vw => negb (fst vw)) (cast_votes hash self proposal))
  = map vote_weight
      (filter (fun n => negb (hash (proposal ++ id n)%string mod 2 =? 0)%Z) (nodes self)).
Proof.
  unfold cast_votes.
  induction (nodes self) as [|n ns IH]; cbn [map filter fst]; [reflexivity|].
  destruct (hash (proposal ++ id n)%string mod 2 =? 0)%Z; cbn [map snd negb]; [exact IH|].
  rewrite IH. f_equal. unfold vote_weight. now destruct (layer n).
Qed.

(** C4: whatever the hash, a node votes yes when the hash of the proposal
    string followed by its id is even; the yes-weight and the no-weight are
    the sums, over the yes and the no voters, of [derivedWeight] for a
    quantum node and of the plain weight otherwise; [approved] holds exactly
    when the yes-weight is strictly greater, so a tie is not approved. *)
Theorem quantum_vote_weighted (hash : string -> Z) (self : t) (proposal : string) :
  yes_weight (quantum_vote hash self proposal)
  == Qsum (map vote_weight
             (filter (fun n => (hash (proposal ++ id n)%string mod 2 =? 0)%Z) (nodes self)))
  /\ no_weight (quantum_vote hash self proposal)
     == Qsum (map vote_weight
                (filter (fun n => negb (hash (proposal ++ id n)%string mod 2 =? 0)%Z)
                        (nodes self)))
  /\ (approved (quantum_vote hash self proposal) = true
      <-> no_weight (quantum_vote hash self proposal)
          < yes_weight (quantum_vote hash self proposal))
  /\ (yes_weight (quantum_vote hash self proposal)
      == no_weight (quantum_vote hash self proposal) ->
      approved (quantum_vote hash self proposal) = false)
  /\ algorithm (quantum_vote hash self proposal) = "quantum_vote"%string.
Proof.
  unfold quantum_vote. cbn [yes_weight no_weight approved algorithm].
  split; [|split; [|split; [|split]]].
  - now rewrite py_sum_Qsum, cast_votes_yes.
  - now rewrite py_sum_Qsum, cast_votes_no.
  - apply Qltb_lt.
  - intro Htie. apply Qltb_ge. rewrite Htie. apply Qle_refl.
  - reflexivity.
Qed.

(** A tie: two plain nodes of equal weight, one voting each way. *)
Example quantum_vote_tie :
  approved
    (quantum_vote (fun s => if String.eqb s "pA" then 0%Z else 1%Z)
       {| nodes := [new_node "A" "Analyzer" INTELLIGENCE 1;
                    new_node "B" "Builder" INFRASTRUCTURE 1] |}
       "p")
  = false.
Proof. reflexivity. Qed.

(** *** The range of [PHI ** i] *)

Lemma Qpower_base_le (a b : Q) (n : nat) :
  0 <= a -> a <= b -> a ^ Z.of_nat n <= b ^ Z.of_nat n.
Proof.
  intros Ha Hab. induction n as [|n IH].
  - apply Qle_refl.
  - rewrite Nat2Z.inj_succ, <- Z.add_1_r.
    rewrite !Qpower_plus' by lia. rewrite !Qpower_1_r.
    apply Qmult_le_compat_nonneg; split; trivial.
    apply Qpower_0_le, Ha.
Qed.

Lemma PHI_pow_67_upper :
  PHI ^ 67 <= 1853922687740663324361622600309240 # 18446744073709551616.
Proof. vm_compute. discriminate. Qed.

Lemma PHI_pow_59_lower :
  39463036324576517918996558907850 # 18446744073709551616 <= PHI ^ 59.
Proof. vm_compute. discriminate. Qed.

(** [PHI ** 1474] is within the binary64 range. *)
Lemma PHI_pow_1474_below : PHI ^ 1474 < overflow_threshold.
Proof.
  change 1474%Z with (67 * Z.of_nat 22)%Z. rewrite Qpower_mult.
  eapply Qle_lt_trans.
  - apply Qpower_base_le; [|apply PHI_pow_67_upper].
    apply Qpower_0_le. apply Qlt_le_weak, PHI_pos.
  - vm_compute. reflexivity.
Qed.

(** [PHI ** 1475] is not. *)
Lemma PHI_pow_1475_above : overflow_threshold <= PHI ^ 1475.
Proof.
  change 1475%Z with (59 * Z.of_nat 25)%Z. rewrite Qpower_mult.
  eapply Qle_trans.
  2: { apply Qpower_base_le; [|apply PHI_pow_59_lower]. vm_compute. discriminate. }
  vm_compute. discriminate.
Qed.

Lemma float_pow_PHI_ok (i : nat) :
  (i <= 1474)%nat -> float_pow PHI i = Ok (PHI ^ Z.of_nat i).
Proof.
  intro Hi. unfold float_pow.
  assert (Hpos : 0 <= PHI ^ Z.of_nat i)
    by (apply Qpower_0_le, Qlt_le_weak, PHI_pos).
  assert (Hlt : Qabs (PHI ^ Z.of_nat i) < overflow_threshold).
  { rewrite (Qabs_pos _ Hpos).
    eapply Qle_lt_trans; [|apply PHI_pow_1474_below].
    apply Qpower_le_compat_l; [lia|apply Qlt_le_weak, PHI_gt_1]. }
  destruct (Qle_bool overflow_threshold (Qabs (PHI ^ Z.of_nat i))) eqn:E;
    [|reflexivity].
  apply Qle_bool_iff in E. exfalso. apply (Qlt_not_le _ _ Hlt E).
Qed.

Lemma float_pow_PHI_overflow : float_pow PHI 1475 = Raise OverflowError.
Proof.
  unfold float_pow.
  assert (Hpos : 0 <= PHI ^ Z.of_nat 1475)
    by (apply Qpower_0_le, Qlt_le_weak, PHI_pos).
  assert (Hge : overflow_threshold <= Qabs (PHI ^ Z.of_nat 1475)).
  { rewrite (Qabs_pos _ Hpos). apply PHI_pow_1475_above. }
  apply Qle_bool_iff in Hge. now rewrite Hge.
Qed.

(** *** Sums over generators *)

Lemma sum_from_ok {A : Type} (f : A -> result Q) (g : A -> Q) (l : list A) (acc : Q) :
  (forall x, In x l -> f x = Ok (g x)) ->
  sum_from acc (map f l) = Ok (fold_left Qplus (map g l) acc).
Proof.
  revert acc. induction l as [|a l IH]; intros acc H; cbn [map sum_from fold_left].
  - reflexivity.
  - rewrite (H a) by now left. cbn [bind].
    apply IH. intros x Hx. apply H. now right.
Qed.

Lemma sum_from_raise {A : Type} (f : A -> result Q) (g : A -> Q)
    (l : list A) (a : A) (l' : list A) (e : exn) (acc : Q) :
  (forall x, In x l -> f x = Ok (g x)) ->
  f a = Raise e ->
  sum_from acc (map f (l ++ a :: l')) = Raise e.
Proof.
  revert acc. induction l as [|b l IH]; intros acc H Ha; cbn [app map sum_from].
  - now rewrite Ha.
  - rewrite (H b) by now left. cbn [bind].
    apply IH; [|exact Ha]. intros x Hx. apply H. now right.
Qed.

Lemma enumerate_seq {A : Type} (d : A) (l : list A) (s : nat) :
  combine (seq s (List.length l)) l
  = map (fun i => (i, nth (i - s) l d)) (seq s (List.length l)).
Proof.
  revert s. induction l as [|a l IH]; intro s; cbn [List.length seq combine map].
  - reflexivity.
  - rewrite Nat.sub_diag. cbn [nth]. f_equal.
    rewrite IH. apply map_ext_in. intros i Hi. apply in_seq in Hi.
    replace (i - s)%nat with (S (i - S s)) by lia. reflexivity.
Qed.

Lemma enumerate_nth {A : Type} (d : A) (l : list A) :
  enumerate l = map (fun i => (i, nth i l d)) (seq 0 (List.length l)).
Proof.
  unfold enumerate. rewrite (enumerate_seq d).
  apply map_ext. intro i. now rewrite Nat.sub_0_r.
Qed.

Lemma Qsum_seq (f : nat -> Q) (n : nat) :
  Qsum (map f (seq 0 n)) == big_sum f n.
Proof.
  induction n as [|n IH]; cbn [big_sum].
  - reflexivity.
  - rewrite seq_S, map_app, Qsum_app, IH. cbn [map Qsum Nat.add]. lra.
Qed.

Lemma big_sum_pos (f : nat -> Q) (n : nat) :
  (forall i, 0 < f i) -> (0 < n)%nat -> 0 < big_sum f n.
Proof.
  intros Hf Hn. induction n as [|n IH]; [lia|]. cbn [big_sum].
  destruct n as [|n].
  - cbn [big_sum]. pose proof (Hf 0%nat). lra.
  - pose proof (Hf (S n)). assert (0 < big_sum f (S n)) by (apply IH; lia). lra.
Qed.

(** *** Scale-weighted average *)

Lemma phi_weighted_total_ok (values : list Q) :
  (List.length values <= 1475)%nat ->
  sum_gen (map (fun iv : nat * Q => p <- float_pow PHI (fst iv) ;; Ok (snd iv * p))
             (enumerate values))
  = Ok (fold_left Qplus
          (map (fun iv : nat * Q => snd iv * PHI ^ Z.of_nat (fst iv))
             (enumerate values)) 0).
Proof.
  intro Hlen. unfold sum_gen. apply sum_from_ok.
  intros [i v] Hin. cbn [fst snd].
  apply in_combine_l, in_seq in Hin.
  rewrite float_pow_PHI_ok by lia. reflexivity.
Qed.

Lemma phi_weighted_weights_ok (n : nat) :
  (n <= 1475)%nat ->
  sum_gen (map (fun i => float_pow PHI i) (seq 0 n))
  = Ok (fold_left Qplus (map (fun i => PHI ^ Z.of_nat i) (seq 0 n)) 0).
Proof.
  intro Hlen. unfold sum_gen. apply sum_from_ok.
  intros i Hin. apply in_seq in Hin. apply float_pow_PHI_ok. lia.
Qed.

Lemma total_big_sum (values : list Q) :
  fold_left Qplus
    (map (fun iv : nat * Q => snd iv * PHI ^ Z.of_nat (fst iv)) (enumerate values)) 0
  == big_sum (fun i => nth i values 0 * PHI ^ Z.of_nat i) (List.length values).
Proof.
  rewrite fold_left_Qplus, (enumerate_nth 0), map_map. cbn [fst snd].
  rewrite Qsum_seq. lra.
Qed.

Lemma weights_big_sum (n : nat) :
  fold_left Qplus (map (fun i => PHI ^ Z.of_nat i) (seq 0 n)) 0
  == big_sum (fun i => PHI ^ Z.of_nat i) n.
Proof. rewrite fold_left_Qplus, Qsum_seq. lra. Qed.

End ConsensusProperties.

(** ** FlashSyncEngine: calls that overlap *)

Module SchedulingProperties.

Import FlashSyncEngine.

Lemma update_at_middle (f : SwarmNode -> SwarmNode)
    (prefix : list (string * SwarmNode)) (item : string * SwarmNode)
    (suffix : list (string * SwarmNode)) :
  update_at (List.length prefix) f (prefix ++ item :: suffix)
  = prefix ++ (fst item, f (snd item)) :: suffix.
Proof.
  induction prefix as [|p prefix IH]; cbn [List.length app update_at].
  - now destruct item.
  - destruct p. now rewrite IH.
Qed.

(** A call left alone goes through the rest of the dict and returns. *)
Lemma run_alone_from (scale : SyncScale) (suffix : list (string * SwarmNode)) :
  forall (e : t) (prefix : list (string * SwarmNode)),
    nodes e = prefix ++ suffix ->
    exists r,
      calculate_coherence
        (set_nodes e
           (prefix ++ map (fun item =>
                             (fst item, sync_node (snd (SyncScale_value scale)) (snd item)))
                        suffix))
      = Ok r
      /\ run_alone (S (List.length suffix)) e (Sleeping scale (List.length prefix))
         = (set_sync_state
              (set_nodes e
                 (prefix ++ map (fun item =>
                                   (fst item,
                                    sync_node (snd (SyncScale_value scale)) (snd item)))
                              suffix))
              "idle",
            Returned (Ok r)).
Proof.
  induction suffix as [|item suffix IH]; intros e prefix Hnodes.
  - destruct (FlashSyncProperties.calculate_coherence_total e) as [r Hr].
    exists r. cbn [map]. rewrite app_nil_r in *.
    assert (He : set_nodes e prefix = e)
      by (destruct e; cbn in *; now subst).
    rewrite He. split; [exact Hr|].
    cbn [run_alone resume List.length]. unfold loop_from.
    rewrite Hnodes, Nat.ltb_irrefl, Hr. reflexivity.
  - set (f := sync_node (snd (SyncScale_value scale))).
    set (e1 := set_nodes e (update_at (List.length prefix) f (nodes e))).
    assert (Hpre : nodes e1 = (prefix ++ [(fst item, f (snd item))]) ++ suffix).
    { unfold e1. cbn [nodes set_nodes].
      now rewrite Hnodes, update_at_middle, <- app_assoc. }
    destruct (IH e1 _ Hpre) as [r [Hr Hrun]]. fold f in Hr, Hrun.
    rewrite <- app_assoc in Hr, Hrun.
    rewrite length_app, Nat.add_1_r in Hrun.
    exists r. split; [exact Hr|].
    assert (Hlt : (List.length prefix <? List.length (nodes e))%nat = true).
    { apply Nat.ltb_lt. rewrite Hnodes, length_app. cbn [List.length]. lia. }
    cbn [List.length].
    change (run_alone (S (S (List.length suffix))) e
              (Sleeping scale (List.length prefix)))
      with (let '(e2, k2) := loop_from e scale (List.length prefix) in
            run_alone (S (List.length suffix)) e2 k2).
    unfold loop_from at 1. rewrite Hlt. exact Hrun.
Qed.

(** Run by a single caller, the coroutine is [cascade_sync]. *)
Lemma run_alone_cascade_sync (e : t) (scale : SyncScale) :
  exists e' r,
    cascade_sync e scale = Ok (e', r)
    /\ run_alone (S (List.length (nodes e))) e (Called scale) = (e', Returned (Ok r)).
Proof.
  destruct (run_alone_from scale (nodes e)
              (set_sync_state e ("syncing_" ++ fst (SyncScale_value scale))) []
              eq_refl) as [r [Hr Hrun]].
  cbn [app List.length] in Hr, Hrun.
  exists (set_sync_state
            (set_nodes (set_sync_state e ("syncing_" ++ fst (SyncScale_value scale)))
               (map (fun item =>
                       (fst item, sync_node (snd (SyncScale_value scale)) (snd item)))
                    (nodes e)))
            "idle"), r.
  split; [|exact Hrun].
  unfold cascade_sync.
  destruct (SyncScale_value scale) as [scale_name multiplier].
  cbn [fst snd] in *. cbn [nodes set_sync_state] in *.
  rewrite Hr. reflexivity.
Qed.

(** C9, as amended: the engine has no guard.  [cascade_sync] writes
    [sync_state] and never reads it: a call is accepted whatever the state
    says, and on an engine with a first node it updates that node and
    suspends, before any other call has a chance to finish.  Calls are
    serialised only by their caller: a call that is resumed alone until it
    returns does what the sequential [cascade_sync] does. *)
Theorem cascade_sync_unguarded (e : t) (scale : SyncScale)
    (item : string * SwarmNode) (rest : list (string * SwarmNode)) :
  (forall st, resume (set_sync_state e st) (Called scale) = resume e (Called scale))
  /\ resume (set_nodes e (item :: rest)) (Called scale)
     = (set_sync_state
          (set_nodes e
             ((fst item, sync_node (snd (SyncScale_value scale)) (snd item)) :: rest))
          ("syncing_" ++ fst (SyncScale_value scale)),
        Sleeping scale 1)
  /\ exists e' r,
       cascade_sync e scale = Ok (e', r)
       /\ run_alone (S (List.length (nodes e))) e (Called scale)
          = (e', Returned (Ok r)).
Proof.
  split; [|split].
  - intro st. reflexivity.
  - destruct item as [k n]. reflexivity.
  - apply run_alone_cascade_sync.
Qed.

(** C9, counterexample: [matrix_half], a micro call and then a meso call.
    The micro call has updated node A and is suspended; the meso call, started
    now, is not turned away and does not wait: it multiplies A's coherence
    again and overwrites [sync_state]. *)
Lemma single_writer_contract_overlap :
  ~ single_writer_contract (__init__ matrix_half) MICRO MESO.
Proof.
  intro H. specialize (H _ _ eq_refl).
  destruct H as [[err H]|H].
  - vm_compute in H. discriminate.
  - vm_compute in H. discriminate.
Qed.

(** The two calls resumed in turn.  The micro call returns the coherence of
    nodes that the meso call has already multiplied (a single caller would
    get 11/20), and it sets [sync_state] to idle while the meso call is
    still suspended. *)
Example overlapping_calls :
  let '(e, first, second) :=
    run_pair [false; true; false; true; false]
      (__init__ matrix_half) (Called MICRO) (Called MESO) in
  (exists r, first = Returned (Ok r) /\ ~ r == 11 # 20)
  /\ second = Sleeping MESO 2
  /\ sync_state e = "idle"%string.
Proof.
  vm_compute. split; [|split; reflexivity].
  eexists. split; [reflexivity|]. vm_compute. discriminate.
Qed.

Example single_caller_micro :
  exists e r, cascade_sync (__init__ matrix_half) MICRO = Ok (e, r) /\ r == 11 # 20.
Proof. vm_compute. do 2 eexists. split; reflexivity. Qed.

End SchedulingProperties.

(** ** Binary64: rounding and the range of the powers of [PHI] *)

Module RoundingProperties.

Import Binary64.

(** *** The magnitude of [PHI_mantissa ** i] *)

Lemma PHI_value_ge_1 : 1 <= PHI_value.
Proof. vm_compute. discriminate. Qed.

Lemma PHI_value_pow_67_upper :
  PHI_value ^ 67 <= 1853922687740655841482434602530001 # 18446744073709551616.
Proof. vm_compute. discriminate. Qed.

Lemma PHI_value_pow_59_lower :
  39463036324576377655448494658709 # 18446744073709551616 <= PHI_value ^ 59.
Proof. vm_compute. discriminate. Qed.

(** [PHI ** 1474] is below the largest double, [(2^53 - 1) * 2^971]. *)
Lemma PHI_value_pow_1474 : PHI_value ^ 1474 < inject_Z ((2 ^ 53 - 1) * 2 ^ 971).
Proof.
  change 1474%Z with (67 * Z.of_nat 22)%Z. rewrite Qpower_mult.
  eapply Qle_lt_trans.
  - apply ConsensusProperties.Qpower_base_le; [|apply PHI_value_pow_67_upper].
    apply Qpower_0_le. vm_compute. discriminate.
  - vm_compute. reflexivity.
Qed.

(** [PHI ** 1475] is at least [2^1024]. *)
Lemma PHI_value_pow_1475 : inject_Z (2 ^ 1024) <= PHI_value ^ 1475.
Proof.
  change 1475%Z with (59 * Z.of_nat 25)%Z. rewrite Qpower_mult.
  eapply Qle_trans.
  2: { apply ConsensusProperties.Qpower_base_le; [|apply PHI_value_pow_59_lower].
       vm_compute. discriminate. }
  vm_compute. discriminate.
Qed.

(** The integer power is the rational power scaled by [2^(52 i)]. *)
Lemma Zpow_nat_value (i : nat) :
  inject_Z (Zpow_nat PHI_mantissa i)
  == PHI_value ^ Z.of_nat i * inject_Z (2 ^ (52 * Z.of_nat i)).
Proof.
  induction i as [|i IH].
  - reflexivity.
  - cbn [Zpow_nat]. rewrite inject_Z_mult, IH.
    rewrite Nat2Z.inj_succ, <- Z.add_1_r.
    rewrite Qpower_plus' by lia. rewrite Qpower_1_r.
    replace (52 * (Z.of_nat i + 1))%Z with (52 * Z.of_nat i + 52)%Z by lia.
    rewrite Z.pow_add_r by lia. rewrite inject_Z_mult.
    assert (H : inject_Z PHI_mantissa == PHI_value * inject_Z (2 ^ 52))
      by (vm_compute; reflexivity).
    rewrite H. ring.
Qed.

Lemma pow2_pos_Q (k : Z) : (0 <= k)%Z -> 0 < inject_Z (2 ^ k).
Proof.
  intro H. rewrite <- (Zlt_Qlt 0). apply Z.pow_pos_nonneg; lia.
Qed.

Lemma Zpow_nat_lower (i : nat) :
  (2 ^ (52 * Z.of_nat i) <= Zpow_nat PHI_mantissa i)%Z.
Proof.
  rewrite Zle_Qle, Zpow_nat_value.
  rewrite <- (Qmult_1_l (inject_Z (2 ^ (52 * Z.of_nat i)))) at 1.
  apply Qmult_le_compat_r; [|apply Qlt_le_weak, pow2_pos_Q; lia].
  rewrite <- (Qpower_1 (Z.of_nat i)).
  apply ConsensusProperties.Qpower_base_le; [lra|apply PHI_value_ge_1].
Qed.

Lemma Zpow_nat_upper (i : nat) :
  (i <= 1474)%nat ->
  (Zpow_nat PHI_mantissa i < (2 ^ 53 - 1) * 2 ^ 971 * 2 ^ (52 * Z.of_nat i))%Z.
Proof.
  intro Hi. rewrite Zlt_Qlt, Zpow_nat_value, inject_Z_mult.
  apply Qmult_lt_compat_r; [apply pow2_pos_Q; lia|].
  eapply Qle_lt_trans; [|apply PHI_value_pow_1474].
  apply Qpower_le_compat_l; [lia|apply PHI_value_ge_1].
Qed.

Lemma Zpow_nat_1475 :
  (2 ^ 1024 * 2 ^ (52 * Z.of_nat 1475) <= Zpow_nat PHI_mantissa 1475)%Z.
Proof.
  rewrite Zle_Qle, Zpow_nat_value, inject_Z_mult.
  apply Qmult_le_compat_r; [|apply Qlt_le_weak, pow2_pos_Q; lia].
  apply PHI_value_pow_1475.
Qed.

Local Open Scope Z_scope.

(** *** Rounding a long mantissa to 53 digits *)

Lemma digits2_size (p : positive) : digits2_pos p = Pos.size p.
Proof. induction p; cbn; congruence. Qed.

Lemma D_bounds (p : positive) : 2 ^ (D p - 1) <= Zpos p < 2 ^ D p.
Proof.
  unfold D. rewrite digits2_size. split.
  - pose proof (Pos.size_le p) as H.
    apply Pos2Z.pos_le_pos in H. rewrite Pos2Z.inj_pow in H.
    change (Zpos p~0) with (2 * Zpos p) in H.
    replace (Zpos (Pos.size p)) with (Zpos (Pos.size p) - 1 + 1) in H by lia.
    rewrite Z.pow_add_r, Z.pow_1_r in H by lia. lia.
  - pose proof (Pos.size_gt p) as H.
    apply Pos2Z.pos_lt_pos in H. now rewrite Pos2Z.inj_pow in H.
Qed.

Lemma D_pos (p : positive) : 1 <= D p.
Proof. unfold D. lia. Qed.

Lemma D_le (p : positive) (k : Z) : Zpos p < 2 ^ k -> D p <= k.
Proof.
  intro H. destruct (Z.le_gt_cases (D p) k) as [Hle|Hgt]; [exact Hle|].
  pose proof (D_bounds p) as [Hlo _]. pose proof (D_pos p).
  assert (0 <= k) by (destruct (Z.le_gt_cases 0 k); [assumption|];
                      rewrite Z.pow_neg_r in H by lia; lia).
  assert (2 ^ k <= 2 ^ (D p - 1)) by (apply Z.pow_le_mono_r; lia). lia.
Qed.

Lemma D_ge (p : positive) (k : Z) : 0 <= k -> 2 ^ k <= Zpos p -> k + 1 <= D p.
Proof.
  intros Hk H. destruct (Z.le_gt_cases (k + 1) (D p)) as [Hle|Hgt]; [exact Hle|].
  pose proof (D_bounds p) as [_ Hhi]. pose proof (D_pos p).
  assert (2 ^ D p <= 2 ^ k) by (apply Z.pow_le_mono_r; lia). lia.
Qed.

Lemma shr_1_pos (z : positive) (r s : bool) :
  1 < D z ->
  exists z' r' s',
    shr_1 (Build_shr_record (Zpos z) r s) = Build_shr_record (Zpos z') r' s'
    /\ D z' = D z - 1 /\ Zpos z' = Zpos z / 2.
Proof.
  intro H. destruct z as [p|p|]; cbn [shr_1].
  - exists p, true, (r || s)%bool. split; [reflexivity|]. split.
    + unfold D. cbn [digits2_pos]. lia.
    + rewrite Pos2Z.inj_xI. apply Z.div_unique with (r := 1); lia.
  - exists p, false, (r || s)%bool. split; [reflexivity|]. split.
    + unfold D. cbn [digits2_pos]. lia.
    + rewrite Pos2Z.inj_xO. apply Z.div_unique with (r := 0); lia.
  - unfold D in H. cbn in H. lia.
Qed.

Lemma iter_shr (n : positive) :
  forall (mrs : shr_record) (z : positive),
    shr_m mrs = Zpos z -> Zpos n < D z ->
    exists z',
      shr_m (iter_pos shr_1 n mrs) = Zpos z'
      /\ D z' = D z - Zpos n /\ Zpos z' = Zpos z / 2 ^ Zpos n.
Proof.
  assert (Hstep : forall (mrs : shr_record) (z : positive),
             shr_m mrs = Zpos z -> 1 < D z ->
             exists z', shr_m (shr_1 mrs) = Zpos z'
                        /\ D z' = D z - 1 /\ Zpos z' = Zpos z / 2 ^ 1).
  { intros [m r s] z Hm Hz. cbn [shr_m] in Hm. subst m.
    destruct (shr_1_pos z r s Hz) as [z' [r' [s' [Heq [Hd Hv]]]]].
    exists z'. rewrite Heq. cbn [shr_m]. rewrite Z.pow_1_r. auto. }
  assert (Hcomp : forall (f g : shr_record -> shr_record) (a b : Z),
             0 < a -> 0 < b ->
             (forall mrs z, shr_m mrs = Zpos z -> a < D z ->
                            exists z', shr_m (f mrs) = Zpos z'
                                       /\ D z' = D z - a /\ Zpos z' = Zpos z / 2 ^ a) ->
             (forall mrs z, shr_m mrs = Zpos z -> b < D z ->
                            exists z', shr_m (g mrs) = Zpos z'
                                       /\ D z' = D z - b /\ Zpos z' = Zpos z / 2 ^ b) ->
             forall mrs z, shr_m mrs = Zpos z -> a + b < D z ->
                           exists z', shr_m (g (f mrs)) = Zpos z'
                                      /\ D z' = D z - (a + b)
                                      /\ Zpos z' = Zpos z / 2 ^ (a + b)).
  { intros f g a b Ha Hb Hf Hg mrs z Hm Hz.
    destruct (Hf mrs z Hm ltac:(lia)) as [z1 [Hm1 [Hd1 Hv1]]].
    destruct (Hg (f mrs) z1 Hm1 ltac:(lia)) as [z2 [Hm2 [Hd2 Hv2]]].
    exists z2. split; [exact Hm2|]. split; [lia|].
    rewrite Hv2, Hv1, Z.pow_add_r by lia.
    assert (0 < 2 ^ a) by (apply Z.pow_pos_nonneg; lia).
    assert (0 < 2 ^ b) by (apply Z.pow_pos_nonneg; lia).
    apply Z.div_div; lia. }
  induction n as [n IH|n IH|].
  - intros mrs z Hm Hz. cbn [iter_pos].
    rewrite Pos2Z.inj_xI in *.
    replace (2 * Zpos n + 1) with ((1 + Zpos n) + Zpos n) in * by lia.
    apply (Hcomp (fun x => iter_pos shr_1 n (shr_1 x)) (iter_pos shr_1 n)
             (1 + Zpos n) (Zpos n)); try lia; trivial.
    apply (Hcomp shr_1 (iter_pos shr_1 n) 1 (Zpos n)); try lia; trivial.
  - intros mrs z Hm Hz. cbn [iter_pos].
    rewrite Pos2Z.inj_xO in *.
    replace (2 * Zpos n) with (Zpos n + Zpos n) in * by lia.
    apply (Hcomp (iter_pos shr_1 n) (iter_pos shr_1 n) (Zpos n) (Zpos n));
      try lia; trivial.
  - intros mrs z Hm Hz. cbn [iter_pos]. now apply Hstep.
Qed.

Lemma fexp_normal (x : Z) : -1074 <= x - 53 -> fexp 53 1024 x = x - 53.
Proof. intro H. unfold fexp, emin. lia. Qed.

(** Shifting a mantissa of at least 53 digits down to 53. *)
Lemma first_pass (z : positive) (e : Z) :
  53 <= D z -> -1074 <= D z + e - 53 ->
  exists mrs m1,
    shr_fexp 53 1024 (Zpos z) e loc_Exact = (mrs, D z + e - 53)
    /\ shr_m mrs = Zpos m1 /\ D m1 = 53
    /\ Zpos m1 = Zpos z / 2 ^ (D z - 53).
Proof.
  intros Hd Hr. unfold shr_fexp. cbn [Zdigits2 shr_record_of_loc].
  fold (D z). rewrite fexp_normal by lia.
  replace (D z + e - 53 - e) with (D z - 53) by lia.
  unfold shr. destruct (D z - 53) as [|n|n] eqn:Hn; try lia.
  - exists (Build_shr_record (Zpos z) false false), z. cbn [shr_m].
    repeat split; [f_equal; lia|lia|].
    now rewrite Z.pow_0_r, Z.div_1_r.
  - destruct (iter_shr n (Build_shr_record (Zpos z) false false) z eq_refl ltac:(lia))
      as [m1 [Hm [Hd1 Hv]]].
    exists (iter_pos shr_1 n (Build_shr_record (Zpos z) false false)), m1.
    repeat split; trivial; [f_equal; lia|lia].
Qed.

Lemma round_cases (m : positive) (l : location) :
  round_nearest_even (Zpos m) l = Zpos m \/ round_nearest_even (Zpos m) l = Zpos (m + 1).
Proof.
  destruct l as [|[| |]]; cbn [round_nearest_even]; auto.
  destruct (Z.even (Zpos m)); auto.
Qed.

(** A mantissa of 53 or 54 digits brought back to 53. *)
Lemma second_pass (m : positive) (e : Z) :
  53 <= D m <= 54 -> -1074 <= e ->
  exists mrs m',
    shr_fexp 53 1024 (Zpos m) e loc_Exact = (mrs, e + (D m - 53))
    /\ shr_m mrs = Zpos m' /\ D m' = 53.
Proof.
  intros Hd He.
  destruct (first_pass m e ltac:(lia) ltac:(lia)) as [mrs [m1 [H1 [H2 [H3 _]]]]].
  exists mrs, m1. repeat split; trivial. rewrite H1. f_equal. lia.
Qed.

Lemma normalize_pos (z : positive) (e : Z) :
  53 <= D z -> -1074 <= D z + e - 53 ->
  exists m' e',
    D m' = 53
    /\ D z + e - 53 <= e' <= D z + e - 52
    /\ (Zpos z < (2 ^ 53 - 1) * 2 ^ (D z - 53) -> e' = D z + e - 53)
    /\ binary_normalize 53 1024 (Zpos z) e false
       = if e' <=? 971 then S754_finite false m' e' else S754_infinity false.
Proof.
  intros Hd Hr.
  unfold binary_normalize, binary_round. fold (D z).
  rewrite fexp_normal by lia.
  assert (Halign : shl_align z e (D z + e - 53) = (z, e)).
  { unfold shl_align. destruct (D z + e - 53 - e) eqn:E; try reflexivity. lia. }
  rewrite Halign. unfold binary_round_aux.
  destruct (first_pass z e Hd Hr) as [mrs [m1 [H1 [Hm1 [Hd1 Hv1]]]]].
  rewrite H1, Hm1.
  assert (Hm1lt : Zpos m1 < 2 ^ 53) by (pose proof (D_bounds m1); rewrite Hd1 in *; lia).
  destruct (round_cases m1 (loc_of_shr_record mrs)) as [Hround|Hround]; rewrite Hround.
  - destruct (second_pass m1 (D z + e - 53) ltac:(lia) Hr) as [mrs2 [m2 [H2 [Hm2 Hd2]]]].
    rewrite H2, Hm2. exists m2, (D z + e - 53 + (D m1 - 53)).
    rewrite Hd1. split; [exact Hd2|]. split; [lia|]. split; [lia|]. reflexivity.
  - assert (Hd1' : 53 <= D (m1 + 1) <= 54).
    { split.
      - pose proof (D_ge (m1 + 1) 52 ltac:(lia)) as H.
        pose proof (D_bounds m1) as [Hlo _]. rewrite Hd1 in Hlo.
        change (53 - 1) with 52 in Hlo. lia.
      - apply D_le. change (2 ^ 54) with (2 * 2 ^ 53). lia. }
    destruct (second_pass (m1 + 1) (D z + e - 53) Hd1' Hr) as [mrs2 [m2 [H2 [Hm2 Hd2]]]].
    rewrite H2, Hm2. exists m2, (D z + e - 53 + (D (m1 + 1) - 53)).
    split; [exact Hd2|]. split; [lia|]. split; [|reflexivity].
    intro Hno.
    assert (Zpos m1 < 2 ^ 53 - 1).
    { rewrite Hv1. apply Z.div_lt_upper_bound; [apply Z.pow_pos_nonneg; lia|lia]. }
    assert (D (m1 + 1) <= 53) by (apply D_le; lia). lia.
Qed.

(** *** What the powers and the sums look like *)

Lemma Zpow_nat_Zpos (i : nat) : exists p, Zpow_nat PHI_mantissa i = Zpos p.
Proof.
  pose proof (Zpow_nat_lower i) as H.
  assert (0 < 2 ^ (52 * Z.of_nat i)) by (apply Z.pow_pos_nonneg; lia).
  destruct (Zpow_nat PHI_mantissa i) as [|p|p]; try lia. now exists p.
Qed.

(** Exponents 1 to 1474: a normal double, at least 1. *)
Lemma float_pow_PHI_normal (i : nat) :
  (1 <= i <= 1474)%nat ->
  exists m e,
    float_pow PHI i = Ok (S754_finite false m e) /\ D m = 53 /\ -52 <= e <= 971.
Proof.
  intro Hi. destruct i as [|j]; [lia|].
  unfold float_pow, PHI. cbn [cond_Zopp].
  change (Zpos 7286977268806824) with PHI_mantissa.
  destruct (Zpow_nat_Zpos (S j)) as [p Hp]. rewrite Hp.
  pose proof (Zpow_nat_lower (S j)) as Hlo.
  pose proof (Zpow_nat_upper (S j) ltac:(lia)) as Hhi.
  rewrite Hp in Hlo, Hhi.
  remember (Z.of_nat (S j)) as n eqn:Hn.
  assert (Hn1 : 1 <= n <= 1474) by lia. clear Hn Hp Hi.
  assert (HX : 0 < 2 ^ (52 * n)) by (apply Z.pow_pos_nonneg; lia).
  assert (Hd1 : 52 * n + 1 <= D p) by (apply D_ge; [lia|exact Hlo]).
  assert (Hsplit : 2 ^ (971 + 52 * n) = 2 ^ 971 * 2 ^ (52 * n))
    by (apply Z.pow_add_r; lia).
  assert (Hd2 : D p <= 1024 + 52 * n).
  { apply D_le. replace (1024 + 52 * n) with (53 + (971 + 52 * n)) by lia.
    rewrite Z.pow_add_r, Hsplit by lia.
    rewrite <- Z.mul_assoc in Hhi.
    assert (0 < 2 ^ 971 * 2 ^ (52 * n)) by (apply Z.mul_pos_pos; lia).
    set (X := 2 ^ 971 * 2 ^ (52 * n)) in *.
    change (2 ^ 53) with 9007199254740992 in *. lia. }
  destruct (normalize_pos p (-52 * n) ltac:(lia) ltac:(lia))
    as [m' [e' [Hm' [He' [Hno Heq]]]]].
  unfold prec, emax. rewrite Heq.
  assert (Hle : e' <= 971).
  { destruct (Z.le_gt_cases (D p + -52 * n) 1023) as [H|H]; [lia|].
    assert (Hd : D p - 53 = 971 + 52 * n) by lia.
    rewrite Hd, Hsplit, Z.mul_assoc in Hno. specialize (Hno Hhi). lia. }
  apply Z.leb_le in Hle. rewrite Hle.
  exists m', e'. split; [reflexivity|]. split; [exact Hm'|].
  apply Z.leb_le in Hle. lia.
Qed.

(** An exponent whose power reaches [2^1024]: [OverflowError]. *)
Lemma float_pow_PHI_raises (n : nat) :
  (1 <= n)%nat ->
  2 ^ 1024 * 2 ^ (52 * Z.of_nat n) <= Zpow_nat PHI_mantissa n ->
  float_pow PHI n = Raise OverflowError.
Proof.
  intros Hn Hlo. destruct n as [|j]; [lia|].
  unfold float_pow, PHI. cbn [cond_Zopp].
  change (Zpos 7286977268806824) with PHI_mantissa.
  destruct (Zpow_nat_Zpos (S j)) as [p Hp]. rewrite Hp in *.
  remember (Z.of_nat (S j)) as k eqn:Hk.
  assert (Hk1 : 1 <= k) by lia. clear Hk Hp Hn.
  rewrite <- Z.pow_add_r in Hlo by lia.
  assert (Hd : 1024 + 52 * k + 1 <= D p) by (apply D_ge; [lia|exact Hlo]).
  destruct (normalize_pos p (-52 * k) ltac:(lia) ltac:(lia))
    as [m' [e' [_ [He' [_ Heq]]]]].
  unfold prec, emax. rewrite Heq.
  assert (Hgt : (e' <=? 971) = false) by (apply Z.leb_gt; lia).
  now rewrite Hgt.
Qed.

Lemma iter_xO_ge (d x : positive) : (x <= Pos.iter xO x d)%positive.
Proof.
  induction d as [|d IH] using Pos.peano_ind.
  - cbn. lia.
  - rewrite Pos.iter_succ. lia.
Qed.

Lemma shl_align_ge (mx : positive) (ex ez : Z) :
  Zpos mx <= Zpos (fst (shl_align mx ex ez)).
Proof.
  unfold shl_align. destruct (ez - ex); cbn [fst]; try lia.
  pose proof (iter_xO_ge p mx). lia.
Qed.

(** Adding two doubles that are at least 1 gives a double that is at least
    1, or the positive infinity. *)
Lemma add_normal_ge_1 (x y : float) :
  normal_ge_1 x -> normal_ge_1 y -> normal_ge_1 (add x y).
Proof.
  intros [->|[mx [ex [-> [Hdx Hex]]]]] [->|[my [ey [-> [Hdy Hey]]]]];
    try (left; reflexivity).
  unfold add, SFadd. cbn [cond_Zopp].
  pose proof (shl_align_ge mx ex (Z.min ex ey)) as Ha.
  pose proof (shl_align_ge my ey (Z.min ex ey)) as Hb.
  set (a := fst (shl_align mx ex (Z.min ex ey))) in *.
  set (b := fst (shl_align my ey (Z.min ex ey))) in *.
  change (Zpos a + Zpos b) with (Zpos (a + b)).
  pose proof (D_bounds mx) as [Hmx _]. rewrite Hdx in Hmx.
  change (2 ^ (53 - 1)) with 4503599627370496 in Hmx.
  assert (Hd : 53 <= D (a + b))
    by (apply (D_ge (a + b) 52); [lia|change (2 ^ 52) with 4503599627370496; lia]).
  destruct (normalize_pos (a + b) (Z.min ex ey) Hd ltac:(lia))
    as [m' [e' [Hm' [He' [_ Heq]]]]].
  unfold prec, emax. rewrite Heq.
  destruct (e' <=? 971); [|now left].
  right. exists m', e'. split; [reflexivity|]. split; [exact Hm'|lia].
Qed.

Lemma normal_ge_1_positive (w : float) : normal_ge_1 w -> ltb zero w = true.
Proof. intros [->|[m [e [-> _]]]]; reflexivity. Qed.

Lemma float_pow_PHI_ge_1 (i : nat) :
  (i <= 1474)%nat -> exists p, float_pow PHI i = Ok p /\ normal_ge_1 p.
Proof.
  intro Hi. destruct i as [|j].
  - exists one. split; [reflexivity|]. right. exists 4503599627370496%positive, (-52).
    split; [reflexivity|]. split; [reflexivity|lia].
  - destruct (float_pow_PHI_normal (S j) ltac:(lia)) as [m [e [Hp [Hm He]]]].
    exists (S754_finite false m e). split; [exact Hp|].
    right. exists m, e. split; [reflexivity|]. split; [exact Hm|lia].
Qed.

Lemma weights_from (k : nat) :
  forall (i : nat) (w : float),
    (i + k <= 1475)%nat -> normal_ge_1 w ->
    exists w',
      sum_from w (map (fun j => float_pow PHI j) (seq i k)) = Ok w'
      /\ normal_ge_1 w'.
Proof.
  induction k as [|k IH]; intros i w Hik Hw; cbn [seq map sum_from].
  - now exists w.
  - destruct (float_pow_PHI_ge_1 i ltac:(lia)) as [p [Hp Hp1]].
    rewrite Hp. cbn [bind].
    apply IH; [lia|]. now apply add_normal_ge_1.
Qed.

(** Exponents 0 to 1474 are in range, exponent 1475 makes [float.__pow__]
    raise, and the weights of up to 1475 scores sum to something strictly
    positive. *)
Lemma PHI_powers : powers_facts 1475.
Proof.
  split; [|split].
  - intros j Hj. destruct (float_pow_PHI_ge_1 j ltac:(lia)) as [p [Hp _]].
    unfold pw. now rewrite Hp.
  - apply float_pow_PHI_raises; [lia|apply Zpow_nat_1475].
  - intros k Hk. destruct k as [|k].
    + exists zero. split; [reflexivity|lia].
    + unfold sum_gen. cbn [seq map sum_from bind float_pow].
      destruct (weights_from k 1 (add zero one) ltac:(lia)) as [w [Hw Hw1]].
      * right. exists 4503599627370496%positive, (-52).
        split; [reflexivity|]. split; [reflexivity|lia].
      * exists w. split; [exact Hw|]. intros _. now apply normal_ge_1_positive.
Qed.

End RoundingProperties.

(** ** The binary64 view *)

Module Binary64Properties.

Import Binary64.
Import RoundingProperties.

(** *** The range of [PHI ** i] *)

Lemma float_pow_PHI_in_range (i : nat) :
  (i < 1475)%nat -> float_pow PHI i = Ok (pw i).
Proof. apply PHI_powers. Qed.

(** *** NaN and the infinities under the arithmetic *)

Lemma mul_nonfinite (x y : float) :
  is_nonfinite x = true -> is_nonfinite (mul x y) = true.
Proof. destruct x, y; cbn; congruence. Qed.

Lemma add_nonfinite_l (x y : float) :
  is_nonfinite x = true -> is_nonfinite (add x y) = true.
Proof. destruct x as [| [|] | |], y as [| [|] | |]; cbn; congruence. Qed.

Lemma add_nonfinite_r (x y : float) :
  is_nonfinite y = true -> is_nonfinite (add x y) = true.
Proof. destruct x as [| [|] | |], y as [| [|] | |]; cbn; congruence. Qed.

Lemma div_nonfinite (x w : float) :
  is_nonfinite x = true -> ltb zero w = true -> is_nonfinite (div x w) = true.
Proof.
  unfold ltb, SFltb.
  destruct x as [s|s| |s m e], w as [t|t| |t m' e']; try destruct t; cbn; congruence.
Qed.

Lemma mul_nan (y : float) : mul nan y = nan.
Proof. reflexivity. Qed.

Lemma add_nan_l (y : float) : add nan y = nan.
Proof. reflexivity. Qed.

Lemma add_nan_r (x : float) : add x nan = nan.
Proof. now destruct x. Qed.

Lemma div_nan (w : float) : div nan w = nan.
Proof. reflexivity. Qed.

Lemma positive_not_zero (w : float) : ltb zero w = true -> eqb w zero = false.
Proof.
  unfold ltb, eqb, SFltb, SFeqb.
  destruct w as [s|s| |s m e]; try destruct s; cbn; congruence.
Qed.

Lemma fold_add_nonfinite (xs : list float) (acc : float) :
  is_nonfinite acc = true \/ Exists (fun x => is_nonfinite x = true) xs ->
  is_nonfinite (fold_left add xs acc) = true.
Proof.
  revert acc. induction xs as [|x xs IH]; intros acc H; cbn [fold_left].
  - destruct H as [H|H]; [exact H|inversion H].
  - apply IH. destruct H as [H|H].
    + left. now apply add_nonfinite_l.
    + inversion H; subst; [left; now apply add_nonfinite_r|now right].
Qed.

Lemma fold_add_nan (xs : list float) (acc : float) :
  acc = nan \/ In nan xs -> fold_left add xs acc = nan.
Proof.
  revert acc. induction xs as [|x xs IH]; intros acc H; cbn [fold_left].
  - destruct H as [H|[]]. exact H.
  - apply IH. destruct H as [->|[->|H]].
    + left. apply add_nan_l.
    + left. apply add_nan_r.
    + now right.
Qed.

(** *** Sums over generators *)

Lemma sum_from_all_ok {A : Type} (f : A -> result float) (g : A -> float)
    (l : list A) (acc : float) :
  (forall x, In x l -> f x = Ok (g x)) ->
  sum_from acc (map f l) = Ok (fold_left add (map g l) acc).
Proof.
  revert acc. induction l as [|a l IH]; intros acc H; cbn [map sum_from fold_left].
  - reflexivity.
  - rewrite (H a) by now left. cbn [bind].
    apply IH. intros x Hx. apply H. now right.
Qed.

Lemma sum_from_first_raise {A : Type} (f : A -> result float) (g : A -> float)
    (l : list A) (a : A) (l' : list A) (e : exn) (acc : float) :
  (forall x, In x l -> f x = Ok (g x)) ->
  f a = Raise e ->
  sum_from acc (map f (l ++ a :: l')) = Raise e.
Proof.
  revert acc. induction l as [|b l IH]; intros acc H Ha; cbn [app map sum_from].
  - now rewrite Ha.
  - rewrite (H b) by now left. cbn [bind].
    apply IH; [|exact Ha]. intros x Hx. apply H. now right.
Qed.

Lemma total_in_range (values : list float) :
  (List.length values <= 1475)%nat ->
  sum_gen (map (fun iv : nat * float => p <- float_pow PHI (fst iv) ;; Ok (mul (snd iv) p))
             (enumerate values))
  = Ok (fold_left add
          (map (fun i => mul (nth i values zero) (pw i)) (seq 0 (List.length values)))
          zero).
Proof.
  intro Hlen. unfold sum_gen.
  rewrite (ConsensusProperties.enumerate_nth zero), map_map. cbn [fst snd].
  apply sum_from_all_ok. intros i Hi. apply in_seq in Hi.
  rewrite float_pow_PHI_in_range by lia. reflexivity.
Qed.

(** C7, as amended: [phi_weighted] does not validate its scores.  For a
    sequence of at most 1475 scores one of which is a NaN or an infinity it
    reports no error: it returns a value, and that value is not finite; when
    a score is NaN the value is NaN. *)
Theorem phi_weighted_propagates_nonfinite (values : list float) :
  (List.length values <= 1475)%nat ->
  Exists (fun x => is_nonfinite x = true) values ->
  exists r,
    phi_weighted values = Ok r
    /\ is_nonfinite r = true
    /\ (In nan values -> r = nan).
Proof.
  intros Hlen Hex.
  assert (Hn : (0 < List.length values)%nat)
    by (destruct values; [inversion Hex|cbn; lia]).
  unfold phi_weighted. rewrite (total_in_range values Hlen).
  destruct PHI_powers as [_ [_ Hsums]].
  destruct (Hsums _ Hlen) as [w [Hw Hpos]]. rewrite Hw. cbn [bind].
  rewrite (Hpos Hn). unfold float_div. rewrite (positive_not_zero w (Hpos Hn)).
  eexists. split; [reflexivity|]. split.
  - apply div_nonfinite; [|exact (Hpos Hn)].
    apply fold_add_nonfinite. right.
    apply Exists_exists in Hex. destruct Hex as [x [Hin Hx]].
    destruct (In_nth _ _ zero Hin) as [i [Hi Hnth]].
    apply Exists_exists. exists (mul x (pw i)). split.
    + apply in_map_iff. exists i. split; [now rewrite Hnth|].
      apply in_seq. lia.
    + now apply mul_nonfinite.
  - intro Hin. rewrite fold_add_nan; [apply div_nan|]. right.
    destruct (In_nth _ _ zero Hin) as [i [Hi Hnth]].
    apply in_map_iff. exists i. split; [now rewrite Hnth|].
    apply in_seq. lia.
Qed.

(** C7, witness: a NaN between two ordinary scores. *)
Lemma phi_weighted_propagates_nonfinite_witness :
  (List.length [one; nan; one] <= 1475)%nat
  /\ Exists (fun x => is_nonfinite x = true) [one; nan; one]
  /\ exists r,
      phi_weighted [one; nan; one] = Ok r
      /\ is_nonfinite r = true
      /\ (In nan [one; nan; one] -> r = nan).
Proof.
  assert (H1 : (List.length [one; nan; one] <= 1475)%nat) by (cbn; lia).
  assert (H2 : Exists (fun x => is_nonfinite x = true) [one; nan; one])
    by (apply Exists_cons_tl, Exists_cons_hd; reflexivity).
  split; [exact H1|]. split; [exact H2|].
  exact (phi_weighted_propagates_nonfinite [one; nan; one] H1 H2).
Defined.

(** C7, counterexample: the single score NaN.  [nan * 1.0] is NaN, [0 + nan]
    is NaN, the weight sum is [1.0], and [nan / 1.0] is returned as an
    ordinary result. *)
Lemma rejects_nonfinite_contract_nan : ~ rejects_nonfinite_contract [nan].
Proof.
  intro H. destruct H as [e He].
  - apply Exists_cons_hd. reflexivity.
  - assert (Hrun : phi_weighted [nan] = Ok nan) by reflexivity.
    rewrite Hrun in He. discriminate.
Qed.

(** The same call with an infinity returns the infinity. *)
Example phi_weighted_infinity : phi_weighted [infinity] = Ok infinity.
Proof. reflexivity. Qed.

(** In binary64 too a sequence of 1476 scores or more ends in
    [OverflowError]. *)
Lemma phi_weighted_overflow_binary64 (values : list float) :
  (1476 <= List.length values)%nat -> phi_weighted values = Raise OverflowError.
Proof.
  intro Hlen. unfold phi_weighted, sum_gen.
  rewrite (ConsensusProperties.enumerate_nth zero), map_map. cbn [fst snd].
  remember (List.length values - 1476)%nat as k eqn:Hk.
  assert (Hn : List.length values = (1475 + S k)%nat) by lia.
  rewrite Hn, seq_app.
  change (seq (0 + 1475) (S k)) with (1475%nat :: seq 1476 k).
  rewrite (sum_from_first_raise _ (fun i => mul (nth i values zero) (pw i))
             _ _ _ OverflowError).
  - reflexivity.
  - intros i Hi. apply in_seq in Hi. rewrite float_pow_PHI_in_range by lia.
    reflexivity.
  - destruct PHI_powers as [_ [Hover _]]. cbv beta. rewrite Hover. reflexivity.
Qed.

(** C3, the failing input: 1476 scores of 1.0.  Their scale-weighted
    average is 1.0; the call evaluates [PHI ** 1475], which is outside the
    double range, and ends in [OverflowError] instead of returning it. *)
Theorem phi_weighted_1476_scores :
  phi_weighted (repeat one 1476) = Raise OverflowError.
Proof.
  apply phi_weighted_overflow_binary64. rewrite repeat_length. apply le_n.
Qed.

End Binary64Properties.

(** ** FlashSyncEngine: further properties *)

Module FlashSyncExtras.

Import FlashSyncEngine.
Import FlashSyncProperties.




(** *** Cascades composed *)



Lemma py_min_nonneg (x : Q) : 0 <= x -> 0 <= py_min 1 x.
Proof.
  intro H. destruct (Qlt_le_dec x 1) as [Hlt|Hge].
  - now rewrite (py_min_lt 1 x Hlt).
  - rewrite (py_min_ge 1 x Hge). lra.
Qed.

Lemma factor_ge_1 (scale : SyncScale) : 1 <= 1 + tenth * snd (SyncScale_value scale).
Proof. destruct scale; vm_compute; discriminate. Qed.

(** The four stages, one after the other. *)
Lemma full_flash_sync_stages (self : t) :
  exists e1 e2 e3 e4 r1 r2 r3 r4,
    cascade_sync self MICRO = Ok (e1, r1)
    /\ cascade_sync e1 MESO = Ok (e2, r2)
    /\ cascade_sync e2 MACRO = Ok (e3, r3)
    /\ cascade_sync e3 META = Ok (e4, r4)
    /\ full_flash_sync self
       = Ok (e4, [("micro"%string, r1); ("meso"%string, r2);
                  ("macro"%string, r3); ("meta"%string, r4)]).
Proof.
  destruct (cascade_sync_value self MICRO) as [e1 [r1 [Hs1 _]]].
  destruct (cascade_sync_value e1 MESO) as [e2 [r2 [Hs2 _]]].
  destruct (cascade_sync_value e2 MACRO) as [e3 [r3 [Hs3 _]]].
  destruct (cascade_sync_value e3 META) as [e4 [r4 [Hs4 [_ [_ [_ Hc4]]]]]].
  exists e1, e2, e3, e4, r1, r2, r3, r4.
  repeat (split; [assumption|]).
  unfold full_flash_sync, SyncScale_members.
  cbn [sync_scales]. rewrite Hs1. cbn [bind]. rewrite Hs2. cbn [bind].
  rewrite Hs3. cbn [bind]. rewrite Hs4. cbn [bind]. rewrite Hc4. reflexivity.
Qed.

Lemma cascade_sync_nodes (e e' : t) (scale : SyncScale) (r : Q) :
  cascade_sync e scale = Ok (e', r) ->
  values (nodes e') = map (sync_node (snd (SyncScale_value scale))) (values (nodes e))
  /\ keys (nodes e') = keys (nodes e)
  /\ coherence_matrix e' = coherence_matrix e
  /\ sync_state e' = "idle"%string
  /\ calculate_coherence e' = Ok r.
Proof.
  intro H. destruct (cascade_sync_value e scale) as [e0 [r0 [H0 [Hn [Hcm [Hst Hc]]]]]].
  rewrite H0 in H. injection H as <- <-.
  rewrite Hn, values_map_snd, keys_map_snd. auto.
Qed.



(** *** What a full synchronisation leaves alone *)

(** X3: [full_flash_sync] always returns.  The dict it returns has the four
    scale names as keys, in the order of the stages, and its last value is
    the swarm coherence of the engine as it is left.  The engine is back at
    idle; its keys, [coherence_matrix] and every node's id, name, layer,
    weight, entanglement list and state are as before. *)
Theorem full_flash_sync_frame (self : t) :
  exists e' results,
    full_flash_sync self = Ok (e', results)
    /\ keys results = ["micro"; "meso"; "macro"; "meta"]%string
    /\ option_map snd (nth_error results 3) = Some
         match calculate_coherence e' with Ok r => r | Raise _ => 0 end
    /\ (exists r, calculate_coherence e' = Ok r)
    /\ sync_state e' = "idle"%string
    /\ coherence_matrix e' = coherence_matrix self
    /\ keys (nodes e') = keys (nodes self)
    /\ Forall2
         (fun old new =>
            id new = id old /\ name new = name old /\ layer new = layer old
            /\ weight new = weight old
            /\ entanglement new = entanglement old
            /\ state new = state old)
         (values (nodes self)) (values (nodes e')).
Proof.
  destruct (full_flash_sync_stages self)
    as [e1 [e2 [e3 [e4 [r1 [r2 [r3 [r4 [H1 [H2 [H3 [H4 Hfull]]]]]]]]]]]].
  exists e4. eexists. split; [exact Hfull|].
  apply cascade_sync_nodes in H1, H2, H3, H4.
  destruct H1 as [N1 [K1 [C1 _]]], H2 as [N2 [K2 [C2 _]]],
           H3 as [N3 [K3 [C3 _]]], H4 as [N4 [K4 [C4 [S4 R4]]]].
  split; [reflexivity|]. split; [cbn; now rewrite R4|].
  split; [now exists r4|]. split; [exact S4|].
  split; [congruence|]. split; [congruence|].
  rewrite N4, N3, N2, N1, !map_map.
  generalize (values (nodes self)) as ns. clear.
  induction ns as [|n ns IH]; cbn [map]; constructor; [|exact IH].
  repeat split.
Qed.

(** *** The ceiling *)

Lemma sync_node_at_ceiling (scale : SyncScale) (ns : list SwarmNode) :
  Forall (fun n => coherence n == 1) ns ->
  Forall (fun n => coherence n == 1)
    (map (sync_node (snd (SyncScale_value scale))) ns).
Proof.
  induction 1 as [|n ns Hn _ IH]; cbn [map]; constructor; [|exact IH].
  cbn [sync_node set_coherence coherence].
  pose proof (factor_ge_1 scale) as Hk.
  rewrite py_min_ge; [reflexivity|].
  rewrite Hn. lra.
Qed.

Lemma coherence_at_ceiling (e : t) (r : Q) :
  Forall (fun n => coherence n == 1) (values (nodes e)) ->
  0 < coherence_denominator (values (nodes e)) ->
  calculate_coherence e = Ok r -> r == 1.
Proof.
  intros Hall Hpos Hr.
  destruct (calculate_coherence_pos e Hpos) as [q [Hq Hv]].
  rewrite Hq in Hr. injection Hr as <-.
  rewrite Hv, (numerator_all_one _ Hall). field.
  intro H0. rewrite H0 in Hpos. now apply Qlt_irrefl in Hpos.
Qed.

(** A matrix at the ceiling stays there through the four stages, which all
    report 1. *)
Lemma full_flash_sync_ceiling (self : t) :
  Forall (fun n => coherence n == 1) (values (nodes self)) ->
  0 < coherence_denominator (values (nodes self)) ->
  exists e' r1 r2 r3 r4,
    full_flash_sync self
    = Ok (e', [("micro"%string, r1); ("meso"%string, r2);
               ("macro"%string, r3); ("meta"%string, r4)])
    /\ r1 == 1 /\ r2 == 1 /\ r3 == 1 /\ r4 == 1
    /\ Forall (fun n => coherence n == 1) (values (nodes e'))
    /\ 0 < coherence_denominator (values (nodes e')).
Proof.
  intros Hall Hpos.
  destruct (full_flash_sync_stages self)
    as [e1 [e2 [e3 [e4 [r1 [r2 [r3 [r4 [H1 [H2 [H3 [H4 Hfull]]]]]]]]]]]].
  exists e4, r1, r2, r3, r4. split; [exact Hfull|].
  apply cascade_sync_nodes in H1, H2, H3, H4.
  destruct H1 as [N1 [_ [_ [_ R1]]]], H2 as [N2 [_ [_ [_ R2]]]],
           H3 as [N3 [_ [_ [_ R3]]]], H4 as [N4 [_ [_ [_ R4]]]].
  assert (A1 : Forall (fun n => coherence n == 1) (values (nodes e1)))
    by (rewrite N1; now apply sync_node_at_ceiling).
  assert (A2 : Forall (fun n => coherence n == 1) (values (nodes e2)))
    by (rewrite N2; now apply sync_node_at_ceiling).
  assert (A3 : Forall (fun n => coherence n == 1) (values (nodes e3)))
    by (rewrite N3; now apply sync_node_at_ceiling).
  assert (A4 : Forall (fun n => coherence n == 1) (values (nodes e4)))
    by (rewrite N4; now apply sync_node_at_ceiling).
  assert (P1 : 0 < coherence_denominator (values (nodes e1)))
    by (rewrite N1, denominator_sync; exact Hpos).
  assert (P2 : 0 < coherence_denominator (values (nodes e2)))
    by (rewrite N2, denominator_sync; exact P1).
  assert (P3 : 0 < coherence_denominator (values (nodes e3)))
    by (rewrite N3, denominator_sync; exact P2).
  assert (P4 : 0 < coherence_denominator (values (nodes e4)))
    by (rewrite N4, denominator_sync; exact P3).
  split; [exact (coherence_at_ceiling e1 r1 A1 P1 R1)|].
  split; [exact (coherence_at_ceiling e2 r2 A2 P2 R2)|].
  split; [exact (coherence_at_ceiling e3 r3 A3 P3 R3)|].
  split; [exact (coherence_at_ceiling e4 r4 A4 P4 R4)|]. split; [exact A4|exact P4].
Qed.

(** *** Two cascades in either order *)





End FlashSyncExtras.

(** ** FlashSyncEngine: further properties of the graph *)

Module EntanglementExtras.

Import FlashSyncEngine.
Import EntanglementProperties.

Lemma ring_neighbors_In (n i j : nat) :
  In j (ring_neighbors n i)
  <-> ((0 < i)%nat /\ j = (i - 1)%nat) \/ ((i + 1 < n)%nat /\ j = (i + 1)%nat).
Proof.
  unfold ring_neighbors. rewrite in_app_iff.
  destruct (Nat.ltb_spec 0 i), (Nat.ltb_spec (i + 1) n); cbn [In]; intuition lia.
Qed.

Lemma id_at_inj (ns : list SwarmNode) (i j : nat) (x : string) :
  NoDup (map id ns) -> id_at ns i = Some x -> id_at ns j = Some x -> i = j.
Proof.
  intros Hnd Hi Hj. rewrite id_at_map in Hi, Hj.
  apply (proj1 (NoDup_nth_error (map id ns)) Hnd).
  - apply nth_error_Some. congruence.
  - congruence.
Qed.

(** The positions linked to position [i]: ring neighbours and clique. *)
Lemma linked_positions (ns : list SwarmNode) (i j : nat) (ni nj : SwarmNode) :
  NoDup (map id ns) ->
  Forall (fun n => entanglement n = []) ns ->
  nth_error ns i = Some ni -> nth_error ns j = Some nj ->
  In (id nj) (entanglement_at (__init__ ns) i)
  <-> In j (ring_neighbors (List.length ns) i) \/ In j (quantum_clique ns i).
Proof.
  intros Hnd Hfresh Hi Hj.
  assert (Hli : (i < List.length ns)%nat) by (apply nth_error_Some; congruence).
  assert (Hidj : id_at ns j = Some (id nj)) by (unfold id_at; now rewrite Hj).
  rewrite (entanglement_at_init ns i (id nj) Hnd Hfresh Hli). split.
  - intros [j' [Hj' Hid]].
    now rewrite (id_at_inj ns j j' (id nj) Hnd Hidj Hid).
  - intro H. now exists j.
Qed.

(** X6: after one construction over unique ids no node is linked to itself. *)
Theorem build_entanglement_no_self_link (ns : list SwarmNode) (i : nat) (ni : SwarmNode) :
  NoDup (map id ns) ->
  Forall (fun n => entanglement n = []) ns ->
  nth_error ns i = Some ni ->
  ~ In (id ni) (entanglement_at (__init__ ns) i).
Proof.
  intros Hnd Hfresh Hi Hin.
  apply (linked_positions ns i i ni ni Hnd Hfresh Hi Hi) in Hin.
  destruct Hin as [Hring|Hclique].
  - apply ring_neighbors_In in Hring. lia.
  - apply (quantum_clique_In ns i i ni Hi) in Hclique.
    destruct Hclique as [_ [Hne _]]. now apply Hne.
Qed.

(** X6, witness: the quantum node B of the example matrix. *)
Lemma build_entanglement_no_self_link_witness :
  NoDup (map id matrix_example)
  /\ Forall (fun n => entanglement n = []) matrix_example
  /\ nth_error matrix_example 1 = Some (new_node "B" "B" QUANTUM 1)
  /\ ~ In (id (new_node "B" "B" QUANTUM 1))
         (entanglement_at (__init__ matrix_example) 1).
Proof.
  assert (Hnd : NoDup (map id matrix_example)).
  { cbn. repeat constructor; cbn; intuition discriminate. }
  assert (Hfresh : Forall (fun n => entanglement n = []) matrix_example)
    by (repeat constructor).
  split; [exact Hnd|]. split; [exact Hfresh|]. split; [reflexivity|].
  exact (build_entanglement_no_self_link matrix_example 1 _ Hnd Hfresh eq_refl).
Defined.

(** X7: after one construction over unique ids the links go both ways: when
    the node at position [i] lists the node at position [j], the node at
    [j] lists the node at [i], at the ends of the matrix too. *)
Theorem build_entanglement_symmetric (ns : list SwarmNode) (i j : nat)
    (ni nj : SwarmNode) :
  NoDup (map id ns) ->
  Forall (fun n => entanglement n = []) ns ->
  nth_error ns i = Some ni -> nth_error ns j = Some nj ->
  In (id nj) (entanglement_at (__init__ ns) i) ->
  In (id ni) (entanglement_at (__init__ ns) j).
Proof.
  intros Hnd Hfresh Hi Hj Hin.
  assert (Hli : (i < List.length ns)%nat) by (apply nth_error_Some; congruence).
  assert (Hlj : (j < List.length ns)%nat) by (apply nth_error_Some; congruence).
  apply (linked_positions ns i j ni nj Hnd Hfresh Hi Hj) in Hin.
  apply (linked_positions ns j i nj ni Hnd Hfresh Hj Hi).
  destruct Hin as [Hring|Hclique].
  - left. apply ring_neighbors_In in Hring. apply ring_neighbors_In. lia.
  - right. apply (quantum_clique_In ns i j ni Hi) in Hclique.
    destruct Hclique as [Hqi [Hne [o [Ho Hqo]]]].
    apply (quantum_clique_In ns j i nj Hj).
    rewrite Hj in Ho. injection Ho as <-.
    split; [exact Hqo|]. split; [congruence|]. now exists ni.
Qed.

(** X7, witness: the ring neighbours A and B of the example matrix. *)
Lemma build_entanglement_symmetric_witness :
  NoDup (map id matrix_example)
  /\ Forall (fun n => entanglement n = []) matrix_example
  /\ nth_error matrix_example 0 = Some (new_node "A" "A" INFRASTRUCTURE 1)
  /\ nth_error matrix_example 1 = Some (new_node "B" "B" QUANTUM 1)
  /\ In (id (new_node "B" "B" QUANTUM 1)) (entanglement_at (__init__ matrix_example) 0)
  /\ In (id (new_node "A" "A" INFRASTRUCTURE 1))
       (entanglement_at (__init__ matrix_example) 1).
Proof.
  assert (Hnd : NoDup (map id matrix_example)).
  { cbn. repeat constructor; cbn; intuition discriminate. }
  assert (Hfresh : Forall (fun n => entanglement n = []) matrix_example)
    by (repeat constructor).
  assert (Hin : In (id (new_node "B" "B" QUANTUM 1))
                  (entanglement_at (__init__ matrix_example) 0))
    by (left; reflexivity).
  split; [exact Hnd|]. split; [exact Hfresh|].
  split; [reflexivity|]. split; [reflexivity|]. split; [exact Hin|].
  exact (build_entanglement_symmetric matrix_example 0 1 _ _ Hnd Hfresh
           eq_refl eq_refl Hin).
Defined.

(** *** What the construction leaves alone *)

Lemma ring_then_clique_prefix (items : list (string * SwarmNode)) (node : SwarmNode)
    (ent : list string) :
  exists extra, clique_links items node ent = ent ++ extra.
Proof.
  unfold clique_links. revert ent.
  induction items as [|[other_id other] items IH]; intro ent; cbn [fold_left].
  - exists []. now rewrite app_nil_r.
  - destruct (NodeLayer_eqb (layer other) QUANTUM && negb (String.eqb other_id (id node)));
      [|apply IH].
    destruct (negb (mem other_id ent)); [|apply IH].
    destruct (IH (ent ++ [other_id])) as [extra Hextra].
    exists (other_id :: extra). rewrite Hextra, <- app_assoc. reflexivity.
Qed.

Lemma entangle_prefix (items : list (string * SwarmNode)) (node_ids : list string)
    (i : nat) (node : SwarmNode) :
  exists extra,
    entanglement (entangle items node_ids i node) = entanglement node ++ extra.
Proof.
  unfold entangle. cbn [entanglement set_entanglement]. rewrite ring_links_app.
  destruct (NodeLayer_eqb (layer node) QUANTUM).
  - destruct (ring_then_clique_prefix items node
                (entanglement node ++ ring_ids node_ids i)) as [extra H].
    exists (ring_ids node_ids i ++ extra). now rewrite H, <- app_assoc.
  - now exists (ring_ids node_ids i).
Qed.

Lemma Forall2_combine_seq {A B : Type} (R : A -> B -> Prop) (f : nat * A -> B)
    (l : list A) (s : nat) :
  (forall i x, R x (f (i, x))) ->
  Forall2 R l (map f (combine (seq s (List.length l)) l)).
Proof.
  intro H. revert s. induction l as [|a l IH]; intro s; cbn [List.length seq combine map];
    constructor; auto.
Qed.

(** X8: [_build_entanglement] only appends links.  It keeps the keys and their
    order, [sync_state] and [coherence_matrix]; every node keeps its id,
    name, layer, weight, coherence and state; and every node's old list is
    a prefix of its new one. *)
Theorem build_entanglement_frame (e : t) :
  keys (nodes (_build_entanglement e)) = keys (nodes e)
  /\ sync_state (_build_entanglement e) = sync_state e
  /\ coherence_matrix (_build_entanglement e) = coherence_matrix e
  /\ Forall2
       (fun old new =>
          id new = id old /\ name new = name old /\ layer new = layer old
          /\ weight new = weight old /\ coherence new = coherence old
          /\ state new = state old
          /\ exists extra, entanglement new = entanglement old ++ extra)
       (values (nodes e)) (values (nodes (_build_entanglement e))).
Proof.
  split; [apply build_keys|]. split; [reflexivity|]. split; [reflexivity|].
  unfold _build_entanglement, values. cbn [nodes set_nodes].
  rewrite map_map. unfold enumerate.
  apply Forall2_flip.
  assert (H : forall (l : list (string * SwarmNode)) (s : nat),
             Forall2
               (fun new old =>
                  id new = id old /\ name new = name old /\ layer new = layer old
                  /\ weight new = weight old /\ coherence new = coherence old
                  /\ state new = state old
                  /\ exists extra, entanglement new = entanglement old ++ extra)
               (map (fun p : nat * (string * SwarmNode) =>
                       snd (let '(i, (k, node)) := p in
                            (k, entangle (nodes e) (keys (nodes e)) i node)))
                    (combine (seq s (List.length l)) l))
               (map snd l)).
  { induction l as [|[k node] l IH]; intro s;
      cbn [List.length seq combine map snd]; constructor; [|apply IH].
    repeat split. apply entangle_prefix. }
  apply H.
Qed.

End EntanglementExtras.
(** ** The node dict with repeated ids *)

Module DictExtras.

Import FlashSyncEngine.
Import EntanglementProperties.

Lemma dict_set_In {V : Type} (d : list (string * V)) (k : string) (v : V)
    (k' : string) (v' : V) :
  NoDup (keys d) ->
  In (k', v') (dict_set d k v)
  <-> (k' = k /\ v' = v) \/ (k' <> k /\ In (k', v') d).
Proof.
  induction d as [|[k0 v0] d IH]; cbn [dict_set keys map fst]; intro Hnd.
  - cbn [In]. split.
    + intros [H|[]]. injection H as <- <-. now left.
    + intros [[-> ->]|[_ []]]. now left.
  - inversion Hnd as [|? ? Hout Hnd']; subst.
    destruct (String.eqb_spec k0 k) as [->|Hne]; cbn [In].
    + split.
      * intros [H|H].
        -- injection H as <- <-. now left.
        -- right. split; [|now right].
           intros ->. apply Hout. apply (in_map fst) in H. exact H.
      * intros [[-> ->]|[Hne [H|H]]].
        -- now left.
        -- injection H as <- _. contradiction.
        -- now right.
    + rewrite (IH Hnd'). split.
      * intros [H|[H|[Hk H]]].
        -- injection H as <- <-. right. split; [congruence|now left].
        -- now left.
        -- right. split; [exact Hk|now right].
      * intros [H|[Hk [H|H]]].
        -- right. now left.
        -- now left.
        -- right. right. now split.
Qed.

Lemma dict_set_keys_In {V : Type} (d : list (string * V)) (k : string) (v : V)
    (k' : string) :
  In k' (keys (dict_set d k v)) <-> k' = k \/ In k' (keys d).
Proof.
  induction d as [|[k0 v0] d IH]; cbn [dict_set keys map fst In].
  - intuition.
  - destruct (String.eqb_spec k0 k) as [->|Hne]; cbn [map fst In].
    + intuition.
    + fold (keys (dict_set d k v)). fold (keys d). rewrite IH. intuition.
Qed.

Lemma nodes_dict_snoc (ns : list SwarmNode) (m : SwarmNode) :
  nodes_dict (ns ++ [m]) = dict_set (nodes_dict ns) (id m) m.
Proof. unfold nodes_dict. now rewrite fold_left_app. Qed.

(** X9: the dict [{n.id: n for n in nodes}] on any list of nodes, repeated ids
    included: its keys are distinct and are exactly the ids that occur; the
    node stored under a key is the last node of the list with that id, so
    a node whose id comes again later in the list is not in the engine. *)
Theorem nodes_dict_last_wins (ns : list SwarmNode) :
  NoDup (keys (nodes_dict ns))
  /\ (forall k, In k (keys (nodes_dict ns)) <-> In k (map id ns))
  /\ (forall k n,
        In (k, n) (nodes_dict ns)
        <-> exists l1 l2,
              ns = l1 ++ n :: l2 /\ id n = k /\ Forall (fun m => id m <> k) l2).
Proof.
  split; [apply nodes_dict_well_keyed|]. split.
  - induction ns as [|m ns IH] using rev_ind; intro k.
    + cbn. tauto.
    + rewrite nodes_dict_snoc, dict_set_keys_In, IH, map_app, in_app_iff.
      cbn [map In]. intuition.
  - induction ns as [|m ns IH] using rev_ind; intros k n.
    + cbn [nodes_dict fold_left In]. split; [intros []|].
      intros [l1 [l2 [H _]]]. now destruct l1.
    + rewrite nodes_dict_snoc.
      rewrite (dict_set_In _ _ _ _ _ (proj1 (nodes_dict_well_keyed ns))). split.
      * intros [[-> ->]|[Hne Hin]].
        -- exists ns, []. repeat split. constructor.
        -- apply IH in Hin. destruct Hin as [l1 [l2 [-> [Hid Hall]]]].
           exists l1, (l2 ++ [m]). split; [now rewrite <- app_assoc|].
           split; [exact Hid|]. apply Forall_app. split; [exact Hall|].
           constructor; [congruence|constructor].
      * intros [l1 [l2 [Heq [Hid Hall]]]].
        destruct l2 as [|x l2] using rev_ind.
        -- apply app_inj_tail in Heq. destruct Heq as [-> ->]. left. now split.
        -- clear IHl2. rewrite app_comm_cons, app_assoc in Heq.
           apply app_inj_tail in Heq. destruct Heq as [-> ->].
           apply Forall_app in Hall. destruct Hall as [Hall Hx].
           inversion Hx; subst. right. split; [congruence|].
           apply IH. now exists l1, l2.
Qed.

(** Two nodes with the id "A": the engine holds the second one only. *)
Example nodes_dict_shadowing :
  values (nodes_dict [new_node "A" "first" INTELLIGENCE 1;
                      new_node "B" "other" QUANTUM 1;
                      new_node "A" "second" APPLICATION 2])
  = [new_node "A" "second" APPLICATION 2; new_node "B" "other" QUANTUM 1].
Proof. reflexivity. Qed.

End DictExtras.

(** ** ConsensusEngine: further properties *)

Module ConsensusExtras.

Import ConsensusEngine.
Import ConsensusProperties.

Lemma vote_weight_nonneg (n : SwarmNode) : 0 <= weight n -> 0 <= vote_weight n.
Proof.
  intro H. unfold vote_weight.
  destruct (layer n); trivial.
  now apply FlashSyncProperties.derivedWeight_nonneg.
Qed.

Lemma Qsum_nonneg (xs : list Q) : Forall (fun x => 0 <= x) xs -> 0 <= Qsum xs.
Proof. induction 1; cbn [Qsum]; lra. Qed.

Lemma Qsum_pos_exists {A : Type} (f : A -> Q) (l : list A) :
  0 < Qsum (map f l) -> Exists (fun a => 0 < f a) l.
Proof.
  induction l as [|a l IH]; cbn [map Qsum]; intro H.
  - lra.
  - destruct (Qlt_le_dec 0 (f a)) as [Ha|Ha]; [now left|].
    right. apply IH. lra.
Qed.

(** X11: with non-negative weights both tallies are non-negative, and a proposal
    is approved only if some node of strictly positive weight voted yes. *)
Theorem quantum_vote_needs_yes (hash : string -> Z) (self : t) (proposal : string) :
  Forall (fun n => 0 <= weight n) (nodes self) ->
  0 <= yes_weight (quantum_vote hash self proposal)
  /\ 0 <= no_weight (quantum_vote hash self proposal)
  /\ (approved (quantum_vote hash self proposal) = true ->
      Exists (fun n => (hash (proposal ++ id n)%string mod 2 =? 0)%Z = true
                       /\ 0 < weight n)
        (nodes self)).
Proof.
  intro Hall. unfold quantum_vote. cbn [yes_weight no_weight approved].
  assert (Hsub : forall p : SwarmNode -> bool,
             0 <= Qsum (map vote_weight (filter p (nodes self)))).
  { intro p. apply Qsum_nonneg. apply Forall_map.
    rewrite Forall_forall in *. intros n Hn. apply filter_In in Hn.
    apply vote_weight_nonneg, Hall, Hn. }
  split; [rewrite py_sum_Qsum, cast_votes_yes; apply Hsub|].
  split; [rewrite py_sum_Qsum, cast_votes_no; apply Hsub|].
  intro Happ. apply Qltb_lt in Happ.
  rewrite !py_sum_Qsum, cast_votes_yes, cast_votes_no in Happ.
  assert (Hyes : 0 < Qsum (map vote_weight
                            (filter (fun n => (hash (proposal ++ id n)%string mod 2 =? 0)%Z)
                                    (nodes self)))).
  { eapply Qle_lt_trans; [|exact Happ]. apply Hsub. }
  apply Qsum_pos_exists in Hyes.
  rewrite Exists_exists in *. destruct Hyes as [n [Hin Hpos]].
  apply filter_In in Hin. destruct Hin as [Hin Hvote].
  exists n. split; [exact Hin|]. split; [exact Hvote|].
  destruct (Qlt_le_dec 0 (weight n)) as [Hw|Hw]; [exact Hw|].
  exfalso. rewrite Forall_forall in Hall. pose proof (Hall n Hin) as H0.
  assert (Hz : weight n == 0) by lra.
  unfold vote_weight, derivedWeight in Hpos.
  destruct (layer n); rewrite Hz in Hpos; lra.
Qed.

(** X11, witness: the example matrix, every node voting yes. *)
Lemma quantum_vote_needs_yes_witness :
  Forall (fun n => 0 <= weight n) (nodes {| nodes := matrix_example |})
  /\ 0 <= yes_weight (quantum_vote (fun _ => 0%Z) {| nodes := matrix_example |} "p")
  /\ 0 <= no_weight (quantum_vote (fun _ => 0%Z) {| nodes := matrix_example |} "p")
  /\ (approved (quantum_vote (fun _ => 0%Z) {| nodes := matrix_example |} "p") = true ->
      Exists (fun n => ((fun _ => 0%Z) ("p" ++ id n)%string mod 2 =? 0)%Z = true
                       /\ 0 < weight n)
        (nodes {| nodes := matrix_example |})).
Proof.
  assert (H : Forall (fun n => 0 <= weight n) (nodes {| nodes := matrix_example |}))
    by (repeat constructor; vm_compute; discriminate).
  split; [exact H|].
  exact (quantum_vote_needs_yes (fun _ => 0%Z) {| nodes := matrix_example |} "p" H).
Defined.

(** *** The average stays within the scores *)

Lemma big_sum_le (f g : nat -> Q) (n : nat) :
  (forall i, (i < n)%nat -> f i <= g i) -> big_sum f n <= big_sum g n.
Proof.
  induction n as [|n IH]; intro H; cbn [big_sum]; [lra|].
  assert (big_sum f n <= big_sum g n) by (apply IH; intros; apply H; lia).
  pose proof (H n ltac:(lia)). lra.
Qed.

Lemma big_sum_scale (c : Q) (f : nat -> Q) (n : nat) :
  big_sum (fun i => c * f i) n == c * big_sum f n.
Proof.
  induction n as [|n IH]; cbn [big_sum]; [ring|]. rewrite IH. ring.
Qed.

(** The value [phi_weighted] returns on 1 to 1475 scores. *)
Lemma phi_weighted_value (values : list Q) :
  values <> [] -> (List.length values <= 1475)%nat ->
  exists r,
    phi_weighted values = Ok r
    /\ 0 < big_sum (fun i => PHI ^ Z.of_nat i) (List.length values)
    /\ r == big_sum (fun i => nth i values 0 * PHI ^ Z.of_nat i) (List.length values)
            / big_sum (fun i => PHI ^ Z.of_nat i) (List.length values).
Proof.
  intros Hne Hlen. unfold phi_weighted.
  rewrite (phi_weighted_total_ok values Hlen), (phi_weighted_weights_ok _ Hlen).
  cbn [bind].
  assert (Hw : 0 < big_sum (fun i => PHI ^ Z.of_nat i) (List.length values)).
  { apply big_sum_pos.
    - intro i. apply Qpower_0_lt, PHI_pos.
    - destruct values; [contradiction|cbn [List.length]; lia]. }
  pose proof (weights_big_sum (List.length values)) as HW.
  pose proof (total_big_sum values) as HT.
  assert (Hlt : Qltb 0 (fold_left Qplus
                          (map (fun i => PHI ^ Z.of_nat i)
                             (seq 0 (List.length values))) 0) = true)
    by (apply Qltb_lt; rewrite HW; exact Hw).
  rewrite Hlt, float_div_nonzero.
  - eexists. split; [reflexivity|]. split; [exact Hw|]. now rewrite HT, HW.
  - rewrite HW. intro H0. rewrite H0 in Hw. now apply Qlt_irrefl in Hw.
Qed.

Lemma weighted_sum_between (values : list Q) (lo hi : Q) :
  Forall (fun v => lo <= v <= hi) values ->
  lo * big_sum (fun i => PHI ^ Z.of_nat i) (List.length values)
  <= big_sum (fun i => nth i values 0 * PHI ^ Z.of_nat i) (List.length values)
  /\ big_sum (fun i => nth i values 0 * PHI ^ Z.of_nat i) (List.length values)
     <= hi * big_sum (fun i => PHI ^ Z.of_nat i) (List.length values).
Proof.
  intro Hall.
  assert (Hterm : forall i, (i < List.length values)%nat ->
                            lo <= nth i values 0 <= hi).
  { intros i Hi. rewrite Forall_forall in Hall. apply Hall, nth_In, Hi. }
  split.
  - rewrite <- big_sum_scale. apply big_sum_le. intros i Hi.
    apply Qmult_le_compat_r; [apply Hterm, Hi|].
    apply Qpower_0_le, Qlt_le_weak, PHI_pos.
  - rewrite <- big_sum_scale. apply big_sum_le. intros i Hi.
    apply Qmult_le_compat_r; [apply Hterm, Hi|].
    apply Qpower_0_le, Qlt_le_weak, PHI_pos.
Qed.

(** The scores of the pipeline are averaged within their range. *)
Lemma phi_weighted_between (values : list Q) (lo hi : Q) :
  values <> [] -> (List.length values <= 1475)%nat ->
  Forall (fun v => lo <= v <= hi) values ->
  exists r, phi_weighted values = Ok r /\ lo <= r <= hi.
Proof.
  intros Hne Hlen Hall.
  destruct (phi_weighted_value values Hne Hlen) as [r [Hr [Hw Hv]]].
  destruct (weighted_sum_between values lo hi Hall) as [Hlo Hhi].
  exists r. split; [exact Hr|]. rewrite Hv. split.
  - now apply Qle_shift_div_l.
  - now apply Qle_shift_div_r.
Qed.

End ConsensusExtras.

(** ** EPOCH1ASTAnalyzer: scores and issues *)

Module AnalyzerProperties.

Import EPOCH1ASTAnalyzer.

Section WithRuntime.

Context {runtime : Runtime}.

Lemma fold_left_count (g : string -> nat) (l : list string) (init : Z) :
  (init <= fold_left (fun c p => c + Z.of_nat (g p)) l init)%Z.
Proof.
  revert init. induction l as [|p l IH]; intro init; cbn [fold_left]; [lia|].
  specialize (IH (init + Z.of_nat (g p))%Z). lia.
Qed.

Lemma calculate_complexity_ge_1 (content : string) :
  (1 <= calculate_complexity content)%Z.
Proof. unfold calculate_complexity. apply fold_left_count. Qed.

(** The loop of [analyze_security] keeps, in the order of the table, the
    rows whose pattern is found. *)
Lemma analyze_security_filter (content : string) :
  analyze_security content
  = map issue_of
      (filter (fun e => search (fst (fst e)) content) security_patterns).
Proof.
  unfold analyze_security.
  assert (H : forall l init,
             fold_left
               (fun issues (entry : string * string * string) =>
                  let '(pattern, severity, message) := entry in
                  if search pattern content
                  then issues ++ [ {| severity := severity; type_ := "security";
                                      message := message |} ]
                  else issues)
               l init
             = init ++ map issue_of (filter (fun e => search (fst (fst e)) content) l)).
  { induction l as [|[[p s] m] l IH]; intro init; cbn [fold_left filter fst snd].
    - now rewrite app_nil_r.
    - rewrite IH. destruct (search p content); [|reflexivity].
      cbn [map]. now rewrite <- app_assoc. }
  apply H.
Qed.

Lemma NoDup_map_filter {A B : Type} (f : A -> B) (c : A -> bool) (l : list A) :
  NoDup (map f l) -> NoDup (map f (filter c l)).
Proof.
  induction l as [|a l IH]; cbn [map filter]; intro H; [constructor|].
  inversion H as [|? ? Hnotin Hnd]; subst.
  destruct (c a); [|now apply IH].
  cbn [map]. constructor; [|now apply IH].
  intro Hin. apply Hnotin. apply in_map_iff in Hin.
  destruct Hin as [x [Hx Hin]]. apply filter_In in Hin.
  apply in_map_iff. exists x. tauto.
Qed.

Lemma count_map_filter {A B : Type} (f : A -> B) (c : A -> bool) (p : B -> bool)
    (l : list A) :
  (List.length (filter p (map f (filter c l)))
   <= List.length (filter p (map f l)))%nat.
Proof.
  induction l as [|a l IH]; cbn [map filter]; [lia|].
  destruct (c a); cbn [map filter]; destruct (p (f a)); cbn [List.length]; lia.
Qed.

Lemma no_count_nil {A : Type} (p q : A -> bool) (l : list A) :
  Forall (fun x => p x = true \/ q x = true) l ->
  List.length (filter p l) = 0%nat -> List.length (filter q l) = 0%nat -> l = [].
Proof.
  destruct 1 as [|x l [Hx|Hx] _]; [reflexivity| |]; cbn [filter]; rewrite Hx;
    cbn [List.length]; intros; lia.
Qed.

Lemma issues_critical_or_warning (content : string) :
  Forall (fun i => type_ i = "security"%string
                   /\ (is_critical i = true \/ is_warning i = true))
    (analyze_security content).
Proof.
  rewrite analyze_security_filter. apply Forall_map, Forall_forall.
  intros e He. apply filter_In in He. destruct He as [He _].
  revert e He. apply Forall_forall. unfold security_patterns.
  repeat (apply Forall_cons;
          [split; [reflexivity|first [left; reflexivity|right; reflexivity]]|]).
  apply Forall_nil.
Qed.

Lemma critical_at_most_3 (content : string) :
  (List.length (filter is_critical (analyze_security content)) <= 3)%nat.
Proof. rewrite analyze_security_filter. apply count_map_filter. Qed.

Lemma warning_at_most_3 (content : string) :
  (List.length (filter is_warning (analyze_security content)) <= 3)%nat.
Proof. rewrite analyze_security_filter. apply count_map_filter. Qed.

(** The score [analyze] returns, written with the counts. *)
Lemma analyze_score (self : t) (content file_path : string) :
  score (fst (analyze self content file_path))
  = Z.max 0
      (100 - Z.min 20 (Z.max 0 (calculate_complexity content - 10))
       - Z.of_nat (List.length (filter is_critical (analyze_security content))) * 15
       - Z.of_nat (List.length (filter is_warning (analyze_security content))) * 5)%Z.
Proof. reflexivity. Qed.

Lemma analyze_score_in_range (self : t) (content file_path : string) :
  (20 <= score (fst (analyze self content file_path)) <= 100)%Z.
Proof.
  rewrite analyze_score.
  pose proof (critical_at_most_3 content). pose proof (warning_at_most_3 content).
  lia.
Qed.

(** X13: what [analyze_security] reports.  An issue is reported exactly when
    the pattern of its row is found; the issues come in the order of the
    table, each at most once, so there are at most six; every one has the
    type security and the severity critical or warning. *)
Theorem analyze_security_reports (content : string) :
  (forall s m,
      In {| severity := s; type_ := "security"; message := m |}
         (analyze_security content)
      <-> exists p, In (p, s, m) security_patterns /\ search p content = true)
  /\ Forall (fun i => type_ i = "security"%string
                      /\ (severity i = "critical"%string
                          \/ severity i = "warning"%string))
       (analyze_security content)
  /\ NoDup (map message (analyze_security content))
  /\ (List.length (analyze_security content) <= 6)%nat.
Proof.
  split; [|split; [|split]].
  - intros s m. rewrite analyze_security_filter, in_map_iff. split.
    + intros [[[p s'] m'] [Heq Hin]]. apply filter_In in Hin.
      unfold issue_of in Heq. cbn [fst snd] in *. injection Heq as -> ->.
      exists p. exact Hin.
    + intros [p [Hin Hs]]. exists (p, s, m). split; [reflexivity|].
      apply filter_In. now split.
  - eapply Forall_impl; [|apply issues_critical_or_warning].
    intros i [Ht [Hc|Hw]]; (split; [exact Ht|]).
    + left. now apply String.eqb_eq.
    + right. now apply String.eqb_eq.
  - rewrite analyze_security_filter, map_map. apply NoDup_map_filter.
    unfold security_patterns. cbn [map issue_of message snd].
    repeat constructor; cbn [In]; intuition discriminate.
  - rewrite analyze_security_filter, length_map.
    etransitivity; [apply filter_length_le|]. reflexivity.
Qed.

(** X14: the score of [analyze].  The complexity is at least 1.  The score is
    100 minus the complexity penalty (at most 20), 15 per critical issue and
    5 per warning; since the table holds three critical rows and three
    warnings it never falls below 20, so the final [max(0, score)] changes
    nothing.  The score is 100 exactly when the complexity is at most 10 and
    no issue is found. *)
Theorem analyze_score_bounds (self : t) (content file_path : string) :
  (1 <= complexity (fst (analyze self content file_path)))%Z
  /\ score (fst (analyze self content file_path))
     = (100
        - Z.min 20 (Z.max 0 (complexity (fst (analyze self content file_path)) - 10))
        - 15 * Z.of_nat (List.length
                           (filter is_critical
                              (issues (fst (analyze self content file_path)))))
        - 5 * Z.of_nat (List.length
                          (filter is_warning
                             (issues (fst (analyze self content file_path))))))%Z
  /\ (20 <= score (fst (analyze self content file_path)) <= 100)%Z
  /\ (score (fst (analyze self content file_path)) = 100%Z
      <-> (complexity (fst (analyze self content file_path)) <= 10)%Z
          /\ issues (fst (analyze self content file_path)) = []).
Proof.
  rewrite analyze_score.
  change (complexity (fst (analyze self content file_path)))
    with (calculate_complexity content).
  change (issues (fst (analyze self content file_path)))
    with (analyze_security content).
  pose proof (calculate_complexity_ge_1 content) as Hc.
  pose proof (critical_at_most_3 content) as H3.
  pose proof (warning_at_most_3 content) as H3'.
  split; [exact Hc|]. split; [lia|]. split; [lia|]. split.
  - intro H. split; [lia|].
    apply (no_count_nil is_critical is_warning).
    + eapply Forall_impl; [|apply issues_critical_or_warning]. now intros i [_ Hi].
    + lia.
    + lia.
  - intros [Hle Hnil]. rewrite Hnil. cbn [filter List.length]. lia.
Qed.


End WithRuntime.

End AnalyzerProperties.

(** ** EPOCH1MasterPack: the pipeline *)

Module PipelineProperties.

Import EPOCH1MasterPack.
Import AnalyzerProperties.

Section WithRuntime.

Context {runtime : Runtime}.

Lemma fold_left_Zadd (l : list Z) (a : Z) :
  fold_left Z.add l a = (a + py_sum_int l)%Z.
Proof.
  unfold py_sum_int. revert a.
  induction l as [|x l IH]; intro a; cbn [fold_left]; [lia|].
  rewrite IH, (IH (0 + x)%Z). lia.
Qed.

Lemma py_sum_int_cons (x : Z) (l : list Z) :
  py_sum_int (x :: l) = (x + py_sum_int l)%Z.
Proof. unfold py_sum_int at 1. cbn [fold_left]. rewrite fold_left_Zadd. lia. Qed.

Lemma py_sum_int_bounds (lo hi : Z) (l : list Z) :
  Forall (fun x => (lo <= x <= hi)%Z) l ->
  (lo * Z.of_nat (List.length l) <= py_sum_int l <= hi * Z.of_nat (List.length l))%Z.
Proof.
  induction 1 as [|x l Hx _ IH].
  - cbn. lia.
  - rewrite py_sum_int_cons. cbn [List.length]. lia.
Qed.

(** The loop of phase 2, with what it had collected before: it appends one
    result per file that is neither passed over nor unreadable, in the
    order of the files, and advances the two counters by what it appends. *)
Lemma analyze_files_acc (files : list string) (a0 : EPOCH1ASTAnalyzer.t) :
  forall (a : EPOCH1ASTAnalyzer.t) (rs : list AnalysisResult),
  exists a' new,
    analyze_files a files rs = (a', rs ++ new)
    /\ map file_path new
       = filter (fun f => negb (skipped f)
                          && match read_text f with Some _ => true | None => false end)
           files
    /\ Forall (fun r => exists content,
                   read_text (file_path r) = Some content
                   /\ r = fst (EPOCH1ASTAnalyzer.analyze a0 content (file_path r)))
         new
    /\ EPOCH1ASTAnalyzer.config a' = EPOCH1ASTAnalyzer.config a
    /\ EPOCH1ASTAnalyzer.files_analyzed (EPOCH1ASTAnalyzer.metrics a')
       = (EPOCH1ASTAnalyzer.files_analyzed (EPOCH1ASTAnalyzer.metrics a)
          + Z.of_nat (List.length new))%Z
    /\ EPOCH1ASTAnalyzer.issues_found (EPOCH1ASTAnalyzer.metrics a')
       = (EPOCH1ASTAnalyzer.issues_found (EPOCH1ASTAnalyzer.metrics a)
          + py_sum_int (map (fun r => Z.of_nat (List.length (issues r))) new))%Z
    /\ EPOCH1ASTAnalyzer.quality_score (EPOCH1ASTAnalyzer.metrics a')
       = EPOCH1ASTAnalyzer.quality_score (EPOCH1ASTAnalyzer.metrics a).
Proof.
  unfold analyze_files.
  induction files as [|f files IH]; intros a rs; cbn [fold_left filter].
  - exists a, []. rewrite app_nil_r. cbn. repeat split; try constructor; lia.
  - fold (skipped f). destruct (skipped f) eqn:Hs; cbn [negb andb].
    + apply IH.
    + destruct (read_text f) as [content|] eqn:Hr; [|apply IH].
      destruct (EPOCH1ASTAnalyzer.analyze a content f) as [r1 a1] eqn:Ha.
      assert (Hr1 : r1 = fst (EPOCH1ASTAnalyzer.analyze a0 content f))
        by (change r1 with (fst (r1, a1)); rewrite <- Ha; reflexivity).
      assert (Ha1 : a1 = snd (EPOCH1ASTAnalyzer.analyze a content f))
        by (now rewrite Ha).
      destruct (IH a1 (rs ++ [r1])) as [a' [new [Hrun [Hmap [Hall [Hc [Hf [Hi Hq]]]]]]]].
      exists a', (r1 :: new). split; [|split; [|split; [|split; [|split; [|split]]]]].
      * rewrite Hrun, <- app_assoc. reflexivity.
      * cbn [map]. rewrite Hmap. f_equal. now rewrite Hr1.
      * constructor; [|exact Hall]. exists content.
        assert (Hfp : file_path r1 = f) by now rewrite Hr1.
        rewrite Hfp. now split.
      * rewrite Hc, Ha1. reflexivity.
      * rewrite Hf, Ha1. cbn [List.length]. unfold EPOCH1ASTAnalyzer.analyze.
        cbn [snd EPOCH1ASTAnalyzer.metrics EPOCH1ASTAnalyzer.files_analyzed]. lia.
      * rewrite Hi, Ha1. cbn [map]. rewrite py_sum_int_cons, Hr1.
        unfold EPOCH1ASTAnalyzer.analyze.
        cbn [fst snd issues EPOCH1ASTAnalyzer.metrics EPOCH1ASTAnalyzer.issues_found].
        lia.
      * rewrite Hq, Ha1. reflexivity.
Qed.

Lemma results_in_range (a0 : EPOCH1ASTAnalyzer.t) (rs : list AnalysisResult) :
  Forall (fun r => exists content,
              read_text (file_path r) = Some content
              /\ r = fst (EPOCH1ASTAnalyzer.analyze a0 content (file_path r)))
    rs ->
  Forall (fun r => (20 <= score r <= 100)%Z
                   /\ (List.length (issues r) <= 6)%nat) rs.
Proof.
  apply Forall_impl. intros r [content [_ Hr]]. rewrite Hr. split.
  - apply analyze_score_in_range.
  - change (issues (fst (EPOCH1ASTAnalyzer.analyze a0 content (file_path r))))
      with (EPOCH1ASTAnalyzer.analyze_security content).
    rewrite analyze_security_filter, length_map. apply filter_length_le.
Qed.

Lemma scores_as_floats (rs : list AnalysisResult) :
  Forall (fun r => (20 <= score r <= 100)%Z) rs ->
  Forall (fun v => 20 <= v <= 100) (map (fun r => inject_Z (score r)) rs).
Proof.
  intro H. apply Forall_map. eapply Forall_impl; [|exact H].
  intros r [Hlo Hhi]. cbv beta. split.
  - change 20 with (inject_Z 20). now rewrite <- Zle_Qle.
  - change 100 with (inject_Z 100). now rewrite <- Zle_Qle.
Qed.

Lemma consensus_phase_ok (rs : list AnalysisResult) :
  (List.length rs <= 1475)%nat ->
  Forall (fun r => (20 <= score r <= 100)%Z) rs ->
  exists c,
    consensus_phase rs = Ok c
    /\ (rs = [] -> c = None)
    /\ (rs <> [] -> exists q, c = Some q /\ 20 <= q <= 100).
Proof.
  intros Hlen Hall. destruct rs as [|r rs].
  - exists None. cbn. split; [reflexivity|]. split; [reflexivity|]. now intros [].
  - destruct (ConsensusExtras.phi_weighted_between
                (map (fun r => inject_Z (score r)) (r :: rs)) 20 100)
      as [q [Hq Hrange]].
    + discriminate.
    + now rewrite length_map.
    + now apply scores_as_floats.
    + exists (Some q). unfold consensus_phase. rewrite Hq. cbn [bind].
      split; [reflexivity|]. split; [discriminate|]. intros _. now exists q.
Qed.

Lemma average_in_range (rs : list AnalysisResult) :
  rs <> [] ->
  Forall (fun r => (20 <= score r <= 100)%Z) rs ->
  exists avg,
    int_truediv (py_sum_int (map score rs)) (Z.of_nat (List.length rs)) = Ok avg
    /\ 20 <= avg <= 100.
Proof.
  intros Hne Hall.
  assert (Hn : (0 < Z.of_nat (List.length rs))%Z)
    by (destruct rs; [contradiction|cbn [List.length]; lia]).
  unfold int_truediv. destruct (Z.eqb_spec (Z.of_nat (List.length rs)) 0); [lia|].
  eexists. split; [reflexivity|].
  assert (Hb := py_sum_int_bounds 20 100 (map score rs)).
  rewrite length_map in Hb. specialize (Hb (proj2 (Forall_map _ _ _) Hall)).
  assert (HnQ : 0 < inject_Z (Z.of_nat (List.length rs)))
    by (change 0 with (inject_Z 0); now rewrite <- Zlt_Qlt).
  split.
  - apply Qle_shift_div_l; [exact HnQ|].
    change 20 with (inject_Z 20). rewrite <- inject_Z_mult, <- Zle_Qle. lia.
  - apply Qle_shift_div_r; [exact HnQ|].
    change 100 with (inject_Z 100). rewrite <- inject_Z_mult, <- Zle_Qle. lia.
Qed.

Lemma target_files_results (a : EPOCH1ASTAnalyzer.t) (files : list string) :
  exists a' rs,
    analyze_files a (firstn 10 files) [] = (a', rs)
    /\ (List.length rs <= 10)%nat
    /\ Forall (fun r => (20 <= score r <= 100)%Z
                        /\ (List.length (issues r) <= 6)%nat) rs
    /\ EPOCH1ASTAnalyzer.config a' = EPOCH1ASTAnalyzer.config a
    /\ EPOCH1ASTAnalyzer.files_analyzed (EPOCH1ASTAnalyzer.metrics a')
       = (EPOCH1ASTAnalyzer.files_analyzed (EPOCH1ASTAnalyzer.metrics a)
          + Z.of_nat (List.length rs))%Z
    /\ EPOCH1ASTAnalyzer.issues_found (EPOCH1ASTAnalyzer.metrics a')
       = (EPOCH1ASTAnalyzer.issues_found (EPOCH1ASTAnalyzer.metrics a)
          + py_sum_int (map (fun r => Z.of_nat (List.length (issues r))) rs))%Z
    /\ EPOCH1ASTAnalyzer.quality_score (EPOCH1ASTAnalyzer.metrics a')
       = EPOCH1ASTAnalyzer.quality_score (EPOCH1ASTAnalyzer.metrics a).
Proof.
  destruct (analyze_files_acc (firstn 10 files) a a [])
    as [a' [rs [Hrun [Hmap [Hall [Hc [Hf [Hi Hq]]]]]]]].
  exists a', rs. cbn [app] in Hrun. split; [exact Hrun|]. split.
  - rewrite <- (length_map file_path), Hmap.
    etransitivity; [apply filter_length_le|]. apply firstn_le_length.
  - split; [now apply (results_in_range a)|]. tauto.
Qed.

(** [execute], phase by phase. *)
Lemma execute_phases (self : t) :
  exists swarm1 sync_results analyzer1 rs rep self',
    FlashSyncEngine.full_flash_sync (swarm self) = Ok (swarm1, sync_results)
    /\ analyze_files (analyzer self)
         (firstn 10 (glob (root self) "**/*.py" ++ glob (root self) "**/*.js")) []
       = (analyzer1, rs)
    /\ execute self = Ok (rep, self')
    /\ self' = {| root := root self; analyzer := analyzer1; swarm := swarm1;
                  initialized := true |}
    /\ results (sync rep) = sync_results
    /\ FlashSyncEngine.calculate_coherence swarm1 = Ok (final_coherence (sync rep))
    /\ files_analyzed (analysis rep) = Z.of_nat (List.length rs)
    /\ total_issues (analysis rep)
       = py_sum_int (map (fun r => Z.of_nat (List.length (issues r))) rs)
    /\ (rs = [] -> average_score (analysis rep) = 0)
    /\ (rs <> [] ->
        int_truediv (py_sum_int (map score rs)) (Z.of_nat (List.length rs))
        = Ok (average_score (analysis rep)))
    /\ map Detail.score (details (analysis rep)) = map score rs
    /\ map Detail.file (details (analysis rep)) = map file_path rs
    /\ node_count rep = 26%Z.
Proof.
  destruct (FlashSyncExtras.full_flash_sync_stages (swarm self))
    as [e1 [e2 [e3 [e4 [r1 [r2 [r3 [r4 [_ [_ [_ [_ Hfull]]]]]]]]]]]].
  destruct (target_files_results (analyzer self)
              (glob (root self) "**/*.py" ++ glob (root self) "**/*.js"))
    as [a' [rs [Hrun [Hlen [Hall _]]]]].
  assert (Hscores : Forall (fun r => (20 <= score r <= 100)%Z) rs)
    by (eapply Forall_impl; [|exact Hall]; now intros r [H _]).
  destruct (consensus_phase_ok rs ltac:(lia) Hscores) as [c [Hc _]].
  destruct (FlashSyncProperties.calculate_coherence_total e4) as [fc Hfc].
  assert (Hexec : forall self0,
             root self0 = root self -> analyzer self0 = analyzer self ->
             swarm self0 = swarm self -> initialized self0 = true ->
             exists rep,
               (r <- FlashSyncEngine.full_flash_sync (swarm self0) ;;
                let '(swarm1, sync_results) := r in
                let self1 :=
                  {| root := root self0; analyzer := analyzer self0; swarm := swarm1;
                     initialized := initialized self0 |} in
                let py_files := glob (root self1) "**/*.py" in
                let js_files := glob (root self1) "**/*.js" in
                let target_files := firstn 10 (py_files ++ js_files) in
                let '(analyzer1, analysis_results) :=
                  analyze_files (analyzer self1) target_files [] in
                let self2 :=
                  {| root := root self1; analyzer := analyzer1; swarm := swarm self1;
                     initialized := initialized self1 |} in
                consensus_score <- consensus_phase analysis_results ;;
                report <- generate_report self2 sync_results analysis_results ;;
                Ok (report, self2))
               = Ok (rep, {| root := root self; analyzer := a'; swarm := e4;
                             initialized := true |})
               /\ results (sync rep)
                  = [("micro"%string, r1); ("meso"%string, r2);
                     ("macro"%string, r3); ("meta"%string, r4)]
               /\ FlashSyncEngine.calculate_coherence e4 = Ok (final_coherence (sync rep))
               /\ files_analyzed (analysis rep) = Z.of_nat (List.length rs)
               /\ total_issues (analysis rep)
                  = py_sum_int (map (fun r => Z.of_nat (List.length (issues r))) rs)
               /\ (rs = [] -> average_score (analysis rep) = 0)
               /\ (rs <> [] ->
                   int_truediv (py_sum_int (map score rs)) (Z.of_nat (List.length rs))
                   = Ok (average_score (analysis rep)))
               /\ map Detail.score (details (analysis rep)) = map score rs
               /\ map Detail.file (details (analysis rep)) = map file_path rs
               /\ node_count rep = 26%Z).
  { intros self0 Hroot Han Hsw Hinit.
    rewrite Hsw, Hfull. cbn [bind root analyzer swarm initialized].
    rewrite Hroot, Han, Hrun, Hc, Hinit. cbn [bind].
    unfold generate_report. cbn [swarm]. rewrite Hfc. cbn [bind].
    destruct rs as [|r rs'].
    - cbn [bind]. eexists. split; [reflexivity|].
      cbn [sync analysis results final_coherence files_analyzed total_issues
           average_score details node_count map].
      repeat split; try reflexivity. now intros [].
    - destruct (average_in_range (r :: rs') ltac:(discriminate) Hscores)
        as [avg [Havg _]].
      rewrite Havg. cbn [bind]. eexists. split; [reflexivity|].
      cbn [sync analysis results final_coherence files_analyzed total_issues
           average_score details node_count].
      rewrite !map_map. cbn [Detail.score Detail.file].
      repeat split; try reflexivity. discriminate. }
  unfold execute.
  destruct (initialized self) eqn:Hi.
  - destruct (Hexec self eq_refl eq_refl eq_refl Hi) as [rep Hrep].
    exists e4, [("micro"%string, r1); ("meso"%string, r2);
                ("macro"%string, r3); ("meta"%string, r4)], a', rs, rep.
    eexists. split; [exact Hfull|]. split; [exact Hrun|].
    split; [exact (proj1 Hrep)|]. split; [reflexivity|]. exact (proj2 Hrep).
  - destruct (Hexec (initialize self) eq_refl eq_refl eq_refl eq_refl) as [rep Hrep].
    exists e4, [("micro"%string, r1); ("meso"%string, r2);
                ("macro"%string, r3); ("meta"%string, r4)], a', rs, rep.
    eexists. split; [exact Hfull|]. split; [exact Hrun|].
    split; [exact (proj1 Hrep)|]. split; [reflexivity|]. exact (proj2 Hrep).
Qed.

(** X16: which files phase 2 analyses.  The results stand, in the order of
    the files, for exactly the files whose path contains neither
    __pycache__ nor node_modules and whose text can be read; each result
    is the analysis of that file's text under that file's path. *)
Theorem analyze_files_selects (a : EPOCH1ASTAnalyzer.t) (files : list string) :
  map file_path (snd (analyze_files a files []))
  = filter (fun f => negb (skipped f)
                     && match read_text f with Some _ => true | None => false end)
      files
  /\ Forall (fun r => exists content,
                 read_text (file_path r) = Some content
                 /\ r = fst (EPOCH1ASTAnalyzer.analyze a content (file_path r)))
       (snd (analyze_files a files [])).
Proof.
  destruct (analyze_files_acc files a a []) as [a' [rs [Hrun [Hmap [Hall _]]]]].
  rewrite Hrun. cbn [snd app]. now split.
Qed.

(** X17: the analyzer's counters after phase 2.  [files_analyzed] has grown
    by the number of results and [issues_found] by the number of issues in
    them, which is at most six per result; [quality_score] and the
    configuration are as before. *)
Theorem analyze_files_counters (a : EPOCH1ASTAnalyzer.t) (files : list string) :
  EPOCH1ASTAnalyzer.files_analyzed
    (EPOCH1ASTAnalyzer.metrics (fst (analyze_files a files [])))
  = (EPOCH1ASTAnalyzer.files_analyzed (EPOCH1ASTAnalyzer.metrics a)
     + Z.of_nat (List.length (snd (analyze_files a files []))))%Z
  /\ EPOCH1ASTAnalyzer.issues_found
       (EPOCH1ASTAnalyzer.metrics (fst (analyze_files a files [])))
     = (EPOCH1ASTAnalyzer.issues_found (EPOCH1ASTAnalyzer.metrics a)
        + py_sum_int (map (fun r => Z.of_nat (List.length (issues r)))
                        (snd (analyze_files a files []))))%Z
  /\ (0 <= py_sum_int (map (fun r => Z.of_nat (List.length (issues r)))
                         (snd (analyze_files a files [])))
      <= 6 * Z.of_nat (List.length (snd (analyze_files a files []))))%Z
  /\ EPOCH1ASTAnalyzer.quality_score
       (EPOCH1ASTAnalyzer.metrics (fst (analyze_files a files [])))
     = EPOCH1ASTAnalyzer.quality_score (EPOCH1ASTAnalyzer.metrics a)
  /\ EPOCH1ASTAnalyzer.config (fst (analyze_files a files []))
     = EPOCH1ASTAnalyzer.config a.
Proof.
  destruct (analyze_files_acc files a a [])
    as [a' [rs [Hrun [_ [Hall [Hc [Hf [Hi Hq]]]]]]]].
  rewrite Hrun. cbn [fst snd app].
  split; [exact Hf|]. split; [exact Hi|]. split; [|now split].
  apply results_in_range in Hall.
  pose proof (py_sum_int_bounds 0 6
                (map (fun r => Z.of_nat (List.length (issues r))) rs)) as Hb.
  rewrite length_map in Hb. apply Hb. apply Forall_map.
  eapply Forall_impl; [|exact Hall]. intros r [_ H6]. cbv beta. lia.
Qed.

(** X18: phase 3 cannot fail.  On the results of at most ten target files
    the consensus call returns, whatever the analyzer found: no score is
    computed when there is no result, and a score is computed otherwise.
    The [OverflowError] of [phi_weighted] needs 1476 scores and is out of
    reach behind the slice of ten files. *)
Theorem consensus_phase_returns (a : EPOCH1ASTAnalyzer.t) (files : list string) :
  (List.length (snd (analyze_files a (firstn 10 files) [])) <= 10)%nat
  /\ exists c,
       consensus_phase (snd (analyze_files a (firstn 10 files) [])) = Ok c
       /\ (snd (analyze_files a (firstn 10 files) []) = [] <-> c = None).
Proof.
  destruct (target_files_results a files) as [a' [rs [Hrun [Hlen [Hall _]]]]].
  rewrite Hrun. cbn [snd]. split; [exact Hlen|].
  destruct (consensus_phase_ok rs) as [c [Hc [Hnil Hcons]]]; [lia| |].
  - eapply Forall_impl; [|exact Hall]. now intros r [H _].
  - exists c. split; [exact Hc|]. split; [exact Hnil|].
    intros ->. destruct rs as [|r rs]; [reflexivity|].
    destruct Hcons as [q [Hq _]]; [discriminate|discriminate Hq].
Qed.

(** X19: [execute] always returns a report, whatever the pack, the files
    and the regular expressions.  The pack is left initialised with its
    root unchanged; the report's sync results are those of the full flash
    sync of the swarm, its final coherence is the coherence of the swarm as
    left, and it counts the 26 nodes of the matrix. *)
Theorem execute_returns (self : t) :
  exists rep self',
    execute self = Ok (rep, self')
    /\ initialized self' = true
    /\ root self' = root self
    /\ FlashSyncEngine.full_flash_sync (swarm self)
       = Ok (swarm self', results (sync rep))
    /\ FlashSyncEngine.calculate_coherence (swarm self')
       = Ok (final_coherence (sync rep))
    /\ node_count rep = 26%Z.
Proof.
  destruct (execute_phases self)
    as [swarm1 [sync_results [analyzer1 [rs [rep [self' H]]]]]].
  destruct H as [Hfull [_ [Hexec [Hself [Hres [Hfc [_ [_ [_ [_ [_ [_ Hn]]]]]]]]]]]].
  exists rep, self'. split; [exact Hexec|]. subst self'.
  cbn [initialized root swarm]. rewrite Hres. now repeat split.
Qed.

(** X20: the report agrees with the analyzer's counters.  At most ten files
    are analysed; the report's [files_analyzed] is the number of its
    details and the growth of the analyzer's [files_analyzed]; its
    [total_issues] is the growth of [issues_found] and at most six per
    file. *)
Theorem execute_report_counts (self : t) :
  exists rep self',
    execute self = Ok (rep, self')
    /\ (0 <= files_analyzed (analysis rep) <= 10)%Z
    /\ files_analyzed (analysis rep)
       = Z.of_nat (List.length (details (analysis rep)))
    /\ (0 <= total_issues (analysis rep) <= 6 * files_analyzed (analysis rep))%Z
    /\ EPOCH1ASTAnalyzer.files_analyzed (EPOCH1ASTAnalyzer.metrics (analyzer self'))
       = (EPOCH1ASTAnalyzer.files_analyzed (EPOCH1ASTAnalyzer.metrics (analyzer self))
          + files_analyzed (analysis rep))%Z
    /\ EPOCH1ASTAnalyzer.issues_found (EPOCH1ASTAnalyzer.metrics (analyzer self'))
       = (EPOCH1ASTAnalyzer.issues_found (EPOCH1ASTAnalyzer.metrics (analyzer self))
          + total_issues (analysis rep))%Z.
Proof.
  destruct (execute_phases self)
    as [swarm1 [sync_results [analyzer1 [rs [rep [self' H]]]]]].
  destruct H as [_ [Hrun [Hexec [Hself [_ [_ [Hn [Hti [_ [_ [Hds _]]]]]]]]]]].
  destruct (target_files_results (analyzer self)
              (glob (root self) "**/*.py" ++ glob (root self) "**/*.js"))
    as [a' [rs' [Hrun' [Hlen [Hall [_ [Hf [Hi _]]]]]]]].
  rewrite Hrun in Hrun'. injection Hrun' as <- <-.
  exists rep, self'. split; [exact Hexec|]. subst self'. cbn [analyzer].
  rewrite Hn, Hti.
  assert (Hd : List.length (details (analysis rep)) = List.length rs)
    by (rewrite <- (length_map Detail.score), Hds; apply length_map).
  rewrite Hd. split; [lia|]. split; [reflexivity|]. split; [|now split].
  pose proof (py_sum_int_bounds 0 6
                (map (fun r => Z.of_nat (List.length (issues r))) rs)) as Hb.
  rewrite length_map in Hb. apply Hb. apply Forall_map.
  eapply Forall_impl; [|exact Hall]. intros r [_ H6]. cbv beta. lia.
Qed.

(** X21: the scores of the report.  Every detail's score lies between 20
    and 100; [average_score] is 0 when nothing was analysed and otherwise
    the mean of the scores, between 20 and 100: the division is never by
    zero. *)
Theorem execute_report_scores (self : t) :
  exists rep self',
    execute self = Ok (rep, self')
    /\ Forall (fun d => (20 <= Detail.score d <= 100)%Z) (details (analysis rep))
    /\ (details (analysis rep) = [] -> average_score (analysis rep) = 0)
    /\ (details (analysis rep) <> [] ->
        average_score (analysis rep)
        = inject_Z (py_sum_int (map Detail.score (details (analysis rep))))
          / inject_Z (Z.of_nat (List.length (details (analysis rep))))
        /\ 20 <= average_score (analysis rep) <= 100).
Proof.
  destruct (execute_phases self)
    as [swarm1 [sync_results [analyzer1 [rs [rep [self' H]]]]]].
  destruct H as [_ [Hrun [Hexec [_ [_ [_ [_ [_ [Hnil [Hcons [Hds _]]]]]]]]]]].
  destruct (target_files_results (analyzer self)
              (glob (root self) "**/*.py" ++ glob (root self) "**/*.js"))
    as [a' [rs' [Hrun' [_ [Hall _]]]]].
  rewrite Hrun in Hrun'. injection Hrun' as <- <-.
  assert (Hscores : Forall (fun r => (20 <= score r <= 100)%Z) rs)
    by (eapply Forall_impl; [|exact Hall]; now intros r [H _]).
  assert (Hd : List.length (details (analysis rep)) = List.length rs)
    by (rewrite <- (length_map Detail.score), Hds; apply length_map).
  exists rep, self'. split; [exact Hexec|]. split; [|split].
  - apply (proj1 (Forall_map Detail.score
                    (fun z => (20 <= z <= 100)%Z) (details (analysis rep)))).
    rewrite Hds. now apply Forall_map.
  - intro Hno. apply Hnil. rewrite Hno in Hd. destruct rs; [reflexivity|discriminate].
  - intro Hsome.
    assert (Hne : rs <> [])
      by (intros ->; destruct (details (analysis rep)); [now apply Hsome|discriminate]).
    destruct (average_in_range rs Hne Hscores) as [avg [Havg Hrange]].
    pose proof (Hcons Hne) as Hrep. rewrite Havg in Hrep. injection Hrep as Hrep.
    rewrite <- Hrep. split; [|exact Hrange].
    rewrite Hds, Hd. unfold int_truediv in Havg.
    destruct (Z.of_nat (List.length rs) =? 0)%Z; [discriminate|].
    now injection Havg as <-.
Qed.

(** X22: with every node of the swarm at coherence 1, non-negative weights
    and a positive phi-weighted total inside the double range, the flash
    sync phase changes nothing: [execute] reports 1 at each of the four
    stages and as final coherence, and leaves every node at 1. *)
Theorem execute_at_ceiling (self : t) :
  Forall (fun n => 0 <= weight n /\ coherence n == 1)
    (values (FlashSyncEngine.nodes (swarm self))) ->
  0 < coherence_denominator (values (FlashSyncEngine.nodes (swarm self))) ->
  coherence_denominator (values (FlashSyncEngine.nodes (swarm self))) <= safe_total ->
  exists rep self' r1 r2 r3 r4,
    execute self = Ok (rep, self')
    /\ results (sync rep)
       = [("micro"%string, r1); ("meso"%string, r2);
          ("macro"%string, r3); ("meta"%string, r4)]
    /\ r1 == 1 /\ r2 == 1 /\ r3 == 1 /\ r4 == 1
    /\ final_coherence (sync rep) == 1
    /\ Forall (fun n => coherence n == 1)
         (values (FlashSyncEngine.nodes (swarm self'))).
Proof.
  intros Hall0 Hpos _.
  assert (Hall : Forall (fun n => coherence n == 1)
                   (values (FlashSyncEngine.nodes (swarm self))))
    by (eapply Forall_impl; [|exact Hall0]; now intros n [_ H]).
  destruct (FlashSyncExtras.full_flash_sync_ceiling (swarm self) Hall Hpos)
    as [e' [r1 [r2 [r3 [r4 [Hrun [H1 [H2 [H3 [H4 [Hceil Hden]]]]]]]]]]].
  destruct (execute_phases self)
    as [swarm1 [sync_results [analyzer1 [rs [rep [self' H]]]]]].
  destruct H as [Hfull [_ [Hexec [Hself [Hres [Hfc _]]]]]].
  rewrite Hrun in Hfull. injection Hfull as <- <-.
  exists rep, self', r1, r2, r3, r4. split; [exact Hexec|].
  split; [exact Hres|]. split; [exact H1|]. split; [exact H2|].
  split; [exact H3|]. split; [exact H4|]. split.
  - exact (FlashSyncExtras.coherence_at_ceiling e' _ Hceil Hden Hfc).
  - subst self'. exact Hceil.
Qed.

End WithRuntime.

(** X22, witness: the pack as constructed, on the matrix of the program. *)
Lemma execute_at_ceiling_witness :
  Forall (fun n => 0 <= weight n /\ coherence n == 1)
    (values (FlashSyncEngine.nodes (swarm (__init__ "."))))
  /\ 0 < coherence_denominator
           (values (FlashSyncEngine.nodes (swarm (__init__ "."))))
  /\ coherence_denominator (values (FlashSyncEngine.nodes (swarm (__init__ "."))))
     <= safe_total
  /\ exists rep self' r1 r2 r3 r4,
      @execute runtime_example (__init__ ".") = Ok (rep, self')
      /\ results (sync rep)
         = [("micro"%string, r1); ("meso"%string, r2);
            ("macro"%string, r3); ("meta"%string, r4)]
      /\ r1 == 1 /\ r2 == 1 /\ r3 == 1 /\ r4 == 1
      /\ final_coherence (sync rep) == 1
      /\ Forall (fun n => coherence n == 1)
           (values (FlashSyncEngine.nodes (swarm self'))).
Proof.
  assert (H : Forall (fun n => 0 <= weight n /\ coherence n == 1)
                (values (FlashSyncEngine.nodes (swarm (__init__ ".")))))
    by (repeat constructor; vm_compute; discriminate).
  assert (Hp : 0 < coherence_denominator
                     (values (FlashSyncEngine.nodes (swarm (__init__ ".")))))
    by (vm_compute; reflexivity).
  assert (Hs : coherence_denominator
                 (values (FlashSyncEngine.nodes (swarm (__init__ "."))))
               <= safe_total)
    by (apply small_total_safe; vm_compute; discriminate).
  split; [exact H|]. split; [exact Hp|]. split; [exact Hs|].
  exact (@execute_at_ceiling runtime_example (__init__ ".") H Hp Hs).
Defined.

End PipelineProperties.

(** ** Binary64: when [phi_weighted] raises *)

Module Binary64Extras.

Import Binary64.
Import RoundingProperties.
Import Binary64Properties.

(** In binary64 [phi_weighted] returns for every sequence of at most 1475
    floats, NaN, infinities and zeros included. *)
Lemma phi_weighted_in_range_ok (values : list float) :
  (List.length values <= 1475)%nat -> exists r, phi_weighted values = Ok r.
Proof.
  intro Hlen. unfold phi_weighted. rewrite (total_in_range values Hlen).
  destruct PHI_powers as [_ [_ Hsums]].
  destruct (Hsums _ Hlen) as [w [Hw Hpos]]. rewrite Hw. cbn [bind].
  destruct (ltb zero w) eqn:Hlt.
  - unfold float_div. rewrite (positive_not_zero w Hlt). eexists. reflexivity.
  - eexists. reflexivity.
Qed.

(** X24: the only error of [phi_weighted], in IEEE binary64.  Whatever the
    floats are (NaN, infinities and zeros included), the call raises
    [OverflowError] exactly when it is given 1476 values or more, and it
    never raises [ZeroDivisionError]: the division is reached only with a
    positive weight sum. *)
Theorem phi_weighted_error_threshold (values : list float) :
  (phi_weighted values = Raise OverflowError <-> (1476 <= List.length values)%nat)
  /\ phi_weighted values <> Raise ZeroDivisionError.
Proof.
  destruct (le_lt_dec 1476 (List.length values)) as [Hbig|Hsmall].
  - rewrite (phi_weighted_overflow_binary64 values Hbig).
    split; [tauto|discriminate].
  - destruct (phi_weighted_in_range_ok values) as [r Hr]; [lia|].
    rewrite Hr. split; [|discriminate].
    split; [discriminate|lia].
Qed.

End Binary64Extras.

(** ** Overlapping cascades leave the nodes as the sequential calls do *)

Module SchedulingExtras.

Import FlashSyncEngine.
Import FlashSyncExtras.















(** *** The call that finishes last *)








End SchedulingExtras.

(** ** The coherence computation in binary64 *)

Module Binary64EngineProperties.

Import Binary64.
Import Binary64Engine.
Import RoundingProperties.
Import Binary64Properties.

Local Open Scope Z_scope.

(** *** Three facts of float arithmetic *)

Lemma div_self (s : bool) (m : positive) (e : Z) :
  div (S754_finite s m e) (S754_finite s m e) = one.
Proof.
  unfold div, SFdiv, SFdiv_core_binary.
  replace (Zdigits2 (Zpos m) + e - (Zdigits2 (Zpos m) + e)) with 0 by lia.
  replace (e - e) with 0 by lia.
  change (Z.min (fexp prec emax 0) 0) with (-53).
  change (0 - -53) with 53.
  cbv beta iota zeta.
  rewrite Z.shiftl_mul_pow2 by lia.
  assert (Hdiv : Z.div_eucl (Zpos m * 2 ^ 53) (Zpos m) = (2 ^ 53, 0)).
  { pose proof (Z_div_mod_full (Zpos m * 2 ^ 53) (Zpos m) ltac:(lia)) as H.
    destruct (Z.div_eucl (Zpos m * 2 ^ 53) (Zpos m)) as [q r].
    destruct H as [Heq Hr]. 
    assert (r = 0 /\ q = 2 ^ 53) as [-> ->]; [|reflexivity].
    destruct Hr as [Hr|Hr]; [|lia].
    assert (Zpos m * (2 ^ 53 - q) = r) by lia.
    assert (2 ^ 53 - q = 0) by nia. split; lia. }
  rewrite Hdiv.
  assert (Hloc : new_location (Zpos m) 0 = loc_Exact).
  { unfold new_location, new_location_even, new_location_odd.
    destruct (Z.even (Zpos m)); reflexivity. }
  rewrite Hloc. destruct s; reflexivity.
Qed.

Lemma canonical_fexp (m : positive) (e : Z) :
  canonical_mantissa prec emax m e = true -> fexp prec emax (D m + e) = e.
Proof. unfold canonical_mantissa, D. intro H. now apply Z.eqb_eq. Qed.

Lemma valid_finite (s : bool) (m : positive) (e : Z) :
  valid (S754_finite s m e) ->
  fexp prec emax (D m + e) = e /\ e <= 971.
Proof.
  unfold valid, valid_binary, bounded. intro H.
  apply andb_true_iff in H. destruct H as [Hc He].
  split; [now apply canonical_fexp|]. apply Z.leb_le in He. exact He.
Qed.

Lemma mul_one (x : float) : valid x -> mul one x = x.
Proof.
  destruct x as [s|s| |s m e]; try reflexivity.
  intro Hv. apply valid_finite in Hv. destruct Hv as [Hc He].
  unfold mul, SFmul, one, binary_round_aux, shr_fexp.
  set (z := (4503599627370496 * m)%positive).
  assert (Hz : z = Pos.iter xO m 52) by reflexivity.
  assert (Hd : Zdigits2 (Zpos z) = D m + 52).
  { unfold Zdigits2, D, z. cbn [Pos.mul digits2_pos]. lia. }
  rewrite Hd.
  replace (D m + 52 + (-52 + e)) with (D m + e) by lia.
  rewrite Hc. replace (e - (-52 + e)) with 52 by lia.
  unfold shr, shr_record_of_loc. 
  assert (Hit : iter_pos shr_1 52 {| shr_m := Zpos z; shr_r := false; shr_s := false |}
                = {| shr_m := Zpos m; shr_r := false; shr_s := false |}).
  { unfold z. cbn [Pos.mul]. reflexivity. }
  rewrite Hit. cbn [shr_m loc_of_shr_record round_nearest_even].
  replace (-52 + e + 52) with e by lia.
  change (Zdigits2 (Zpos m)) with (D m). rewrite Hc, Z.sub_diag.
  cbn [shr_m]. 
  replace (e <=? emax - prec) with true
    by (symmetry; apply Z.leb_le; unfold emax, prec; lia).
  reflexivity.
Qed.

Lemma shr_fexp_shift (z : positive) (e : Z) (l : location) :
  0 < fexp prec emax (D z + e) - e < D z ->
  exists mrs m1,
    shr_fexp prec emax (Zpos z) e l = (mrs, fexp prec emax (D z + e))
    /\ shr_m mrs = Zpos m1
    /\ D m1 + fexp prec emax (D z + e) = D z + e.
Proof.
  intro Hn. unfold shr_fexp. change (Zdigits2 (Zpos z)) with (D z).
  unfold shr. destruct (fexp prec emax (D z + e) - e) as [|n|n] eqn:En; try lia.
  assert (Hm : shr_m (shr_record_of_loc (Zpos z) l) = Zpos z)
    by (destruct l as [|[]]; reflexivity).
  destruct (iter_shr n _ z Hm ltac:(lia)) as [m1 [Hm1 [Hd1 _]]].
  exists (iter_pos shr_1 n (shr_record_of_loc (Zpos z) l)), m1.
  split; [f_equal; lia|]. split; [exact Hm1|lia].
Qed.

Lemma shr_fexp_canonical (m : positive) (e : Z) :
  fexp prec emax (D m + e) - e = 0 \/ (fexp prec emax (D m + e) - e = 1 /\ 1 < D m) ->
  exists mrs m',
    shr_fexp prec emax (Zpos m) e loc_Exact = (mrs, fexp prec emax (D m + e))
    /\ shr_m mrs = Zpos m'
    /\ fexp prec emax (D m' + fexp prec emax (D m + e)) = fexp prec emax (D m + e).
Proof.
  intros [H0|[H1 Hd]].
  - exists (Build_shr_record (Zpos m) false false), m.
    unfold shr_fexp. change (Zdigits2 (Zpos m)) with (D m). rewrite H0.
    cbn [shr shr_record_of_loc shr_m].
    assert (He : fexp prec emax (D m + e) = e) by lia.
    rewrite !He. split; [reflexivity|]. split; reflexivity.
  - destruct (shr_fexp_shift m e loc_Exact ltac:(lia)) as [mrs [m' [Hs [Hm Hd']]]].
    exists mrs, m'. split; [exact Hs|]. split; [exact Hm|].
    replace (D m' + fexp prec emax (D m + e)) with (D m + e) by lia. reflexivity.
Qed.

Lemma D_succ (m : positive) : D m <= D (m + 1) <= D m + 1.
Proof.
  pose proof (D_bounds m) as [Hlo Hhi]. pose proof (D_pos m). split.
  - assert (D m - 1 + 1 <= D (m + 1)); [|lia].
    apply D_ge; lia.
  - apply D_le. rewrite Z.pow_add_r by lia. lia.
Qed.

(** A product or sum that is shifted right before rounding rounds to a
    valid double. *)
Lemma round_aux_valid (s : bool) (z : positive) (e : Z) (l : location) :
  0 < fexp prec emax (D z + e) - e < D z ->
  valid (binary_round_aux prec emax s (Zpos z) e l).
Proof.
  intro Hn. unfold binary_round_aux.
  destruct (shr_fexp_shift z e l Hn) as [mrs [m1 [Hs [Hm Hd]]]].
  rewrite Hs, Hm. set (e1 := fexp prec emax (D z + e)) in *.
  assert (He1 : fexp prec emax (D m1 + e1) = e1)
    by (replace (D m1 + e1) with (D z + e) by lia; reflexivity).
  assert (Hfin : forall r : positive,
             D m1 <= D r <= D m1 + 1 ->
             valid (let '(mrs'', e'') := shr_fexp prec emax (Zpos r) e1 loc_Exact in
                    match shr_m mrs'' with
                    | 0 => S754_zero s
                    | Zpos m => if e'' <=? emax - prec then S754_finite s m e''
                                else S754_infinity s
                    | Zneg _ => S754_nan
                    end)).
  { intros r Hr.
    destruct (shr_fexp_canonical r e1) as [mrs2 [m2 [Hs2 [Hm2 Hc2]]]].
    { pose proof (D_pos m1). unfold fexp, emin, prec, emax in *. lia. }
    rewrite Hs2, Hm2.
    destruct (fexp prec emax (D r + e1) <=? emax - prec) eqn:Hb; [|reflexivity].
    unfold valid, valid_binary, bounded, canonical_mantissa.
    fold (D m2). rewrite Hc2, Z.eqb_refl, Hb. reflexivity. }
  destruct (round_cases m1 (loc_of_shr_record mrs)) as [Hr|Hr]; rewrite Hr.
  - apply Hfin. lia.
  - apply Hfin. apply D_succ.
Qed.

Lemma D_mul_PHI (m : positive) :
  D m + 52 <= D (m * 7286977268806824) <= D m + 53.
Proof.
  pose proof (D_bounds m) as [Hlo Hhi]. pose proof (D_pos m). split.
  - assert (D m + 51 + 1 <= D (m * 7286977268806824)); [|lia].
    apply D_ge; [lia|]. rewrite Pos2Z.inj_mul.
    replace (D m + 51) with (D m - 1 + 52) by lia.
    rewrite Z.pow_add_r by lia.
    apply Z.mul_le_mono_nonneg; try lia; apply Z.pow_nonneg; lia.
  - apply D_le. rewrite Pos2Z.inj_mul, Z.pow_add_r by lia.
    apply Z.mul_lt_mono_nonneg; lia.
Qed.

Lemma phi_weight_valid (w : float) : valid w -> valid (mul w PHI).
Proof.
  destruct w as [s|s| |s m e]; try reflexivity.
  intro Hv. apply valid_finite in Hv. destruct Hv as [Hc He].
  unfold mul, SFmul, PHI. apply round_aux_valid.
  pose proof (D_mul_PHI m). pose proof (D_pos m).
  unfold fexp, emin, prec, emax in *. lia.
Qed.

Local Close Scope Z_scope.

(** *** [calculate_coherence] *)

Lemma positive_finite (m : positive) (e : Z) :
  ltb zero (S754_finite false m e) = true.
Proof. reflexivity. Qed.

Lemma total_at_ceiling (ns : list SwarmNode) (acc : float) :
  Forall (fun n => valid (weight n) /\ coherence n = one) ns ->
  fold_left add (map (fun n => mul (coherence n) (phi_weight n)) ns) acc
  = fold_left add (map phi_weight ns) acc.
Proof.
  intro H. revert acc. induction H as [|n ns [Hv Hc] _ IH]; intro acc; [reflexivity|].
  cbn [map fold_left]. rewrite Hc, mul_one by (apply phi_weight_valid, Hv).
  apply IH.
Qed.

Lemma calculate_coherence_positive (self : t) :
  ltb zero (max_possible self) = true ->
  calculate_coherence self = Ok (div (total self) (max_possible self)).
Proof.
  intro H. unfold calculate_coherence, float_div.
  now rewrite H, (positive_not_zero _ H).
Qed.

Lemma calculate_coherence_nonpositive (self : t) :
  ltb zero (max_possible self) = false -> calculate_coherence self = Ok zero.
Proof. intro H. unfold calculate_coherence. now rewrite H. Qed.

Lemma calculate_coherence_returns (self : t) :
  exists r, calculate_coherence self = Ok r.
Proof.
  destruct (ltb zero (max_possible self)) eqn:H.
  - eexists. now apply calculate_coherence_positive.
  - eexists. now apply calculate_coherence_nonpositive.
Qed.


(** *** A swarm at the ceiling *)

Lemma factor_holds_ceiling (scale : SyncScale) :
  py_min one (mul one (add one (mul tenth (SyncScale_multiplier scale)))) = one.
Proof. destruct scale; vm_compute; reflexivity. Qed.

Lemma sync_node_holds_ceiling (scale : SyncScale) (n : SwarmNode) :
  coherence n = one -> sync_node (SyncScale_multiplier scale) n = n.
Proof.
  intro H. unfold sync_node. rewrite H, factor_holds_ceiling.
  destruct n; cbn in *. now subst.
Qed.

Lemma sync_nodes_hold_ceiling (scale : SyncScale) (d : list (string * SwarmNode)) :
  Forall (fun n => coherence n = one) (values d) ->
  map (fun item : string * SwarmNode =>
         (fst item, sync_node (SyncScale_multiplier scale) (snd item))) d
  = d.
Proof.
  induction d as [|[k n] d IH]; intro H; [reflexivity|].
  inversion H as [|? ? Hn Hd]; subst. cbn [map fst snd].
  rewrite (sync_node_holds_ceiling scale n Hn), IH by exact Hd. reflexivity.
Qed.

Lemma cascade_sync_holds_ceiling (self : t) (scale : SyncScale) (r : float) :
  Forall (fun n => coherence n = one) (values (nodes self)) ->
  calculate_coherence self = Ok r ->
  cascade_sync self scale = Ok (set_sync_state self "idle", r).
Proof.
  intros Hall Hr. unfold cascade_sync. cbn [nodes set_sync_state].
  rewrite (sync_nodes_hold_ceiling scale _ Hall).
  change (calculate_coherence
            (set_nodes (set_sync_state self ("syncing_" ++ fst (SyncScale_value scale)))
               (nodes self)))
    with (calculate_coherence self).
  rewrite Hr. reflexivity.
Qed.

(** X4: a swarm at the ceiling, on the floats.  With every node at
    coherence 1.0 a full synchronisation changes no node: each of the four
    stages records the swarm coherence the engine had before, and the
    engine is left idle and otherwise as it was.  That value is exactly 1.0
    when the weights are valid doubles and their phi-weighted sum is
    positive and finite. *)
Theorem full_flash_sync_holds_ceiling (self : t) :
  Forall (fun n => coherence n = one) (values (nodes self)) ->
  exists r,
    calculate_coherence self = Ok r
    /\ full_flash_sync self
       = Ok (set_sync_state self "idle",
             [("micro"%string, r); ("meso"%string, r);
              ("macro"%string, r); ("meta"%string, r)])
    /\ (Forall (fun n => valid (weight n)) (values (nodes self)) ->
        forall m e, max_possible self = S754_finite false m e -> r = one).
Proof.
  intro Hall.
  destruct (calculate_coherence_returns self) as [r Hr].
  exists r. split; [exact Hr|]. split.
  - unfold full_flash_sync, SyncScale_members. cbn [sync_scales].
    rewrite (cascade_sync_holds_ceiling self MICRO r Hall Hr). cbn [bind].
    rewrite (cascade_sync_holds_ceiling (set_sync_state self "idle") MESO r Hall Hr).
    cbn [bind].
    change (set_sync_state (set_sync_state self "idle") "idle")
      with (set_sync_state self "idle").
    rewrite (cascade_sync_holds_ceiling (set_sync_state self "idle") MACRO r Hall Hr).
    cbn [bind].
    change (set_sync_state (set_sync_state self "idle") "idle")
      with (set_sync_state self "idle").
    rewrite (cascade_sync_holds_ceiling (set_sync_state self "idle") META r Hall Hr).
    cbn [bind].
    change (set_sync_state (set_sync_state self "idle") "idle")
      with (set_sync_state self "idle").
    change (calculate_coherence (set_sync_state self "idle"))
      with (calculate_coherence self).
    rewrite Hr. reflexivity.
  - intros Hv m e Hm.
    assert (Hboth : Forall (fun n => valid (weight n) /\ coherence n = one)
                      (values (nodes self))).
    { rewrite Forall_forall in *. intros n Hn. split; [now apply Hv|now apply Hall]. }
    assert (Heq : total self = max_possible self)
      by (unfold total, max_possible, py_sum; now apply total_at_ceiling).
    rewrite calculate_coherence_positive in Hr by (rewrite Hm; reflexivity).
    rewrite Heq, Hm, div_self in Hr. now injection Hr.
Qed.

(** X4, witness: two fresh nodes of weights 1.0 and PHI. *)
Lemma full_flash_sync_holds_ceiling_witness :
  Forall (fun n => coherence n = one) (values (nodes float_engine_example))
  /\ exists r,
      calculate_coherence float_engine_example = Ok r
      /\ full_flash_sync float_engine_example
         = Ok (set_sync_state float_engine_example "idle",
               [("micro"%string, r); ("meso"%string, r);
                ("macro"%string, r); ("meta"%string, r)])
      /\ (Forall (fun n => valid (weight n)) (values (nodes float_engine_example)) ->
          forall m e, max_possible float_engine_example = S754_finite false m e ->
                      r = one).
Proof.
  assert (H : Forall (fun n => coherence n = one)
                (values (nodes float_engine_example)))
    by (repeat constructor).
  split; [exact H|].
  exact (full_flash_sync_holds_ceiling float_engine_example H).
Defined.

(** The example engine is at 1.0, and stays there. *)
Example float_engine_example_coherence :
  calculate_coherence float_engine_example = Ok one.
Proof. vm_compute. reflexivity. Qed.

(** Two nodes of weight 1e308 at coherence 1.0: both sums overflow to
    infinity, and the quotient of the two infinities is NaN. *)
Example float_engine_huge_coherence :
  max_possible float_engine_huge = infinity
  /\ calculate_coherence float_engine_huge = Ok nan.
Proof. vm_compute. split; reflexivity. Qed.

(** Three nodes of weight 1.0 at the coherences 1.0, 0.0 and 1e-17.  The
    third node's coherence grows at every stage, but its share of the sum
    is lost where the sum is rounded: all four stages record the same
    double, [0x1.5555555555555p-2]. *)
Example float_engine_absorbing_sync :
  exists e',
    full_flash_sync float_engine_absorbing
    = Ok (e', [("micro"%string, S754_finite false 6004799503160661 (-54));
               ("meso"%string, S754_finite false 6004799503160661 (-54));
               ("macro"%string, S754_finite false 6004799503160661 (-54));
               ("meta"%string, S754_finite false 6004799503160661 (-54))])
    /\ map coherence (values (nodes float_engine_absorbing))
       = [one; zero; S754_finite false 6490371073168535 (-109)]
    /\ map coherence (values (nodes e'))
       = [one; zero; S754_finite false 7449834168435446 (-108)].
Proof. eexists. split; [vm_compute; reflexivity|]. split; vm_compute; reflexivity. Qed.

End Binary64EngineProperties.
